(** * NinjaTime: a shallow embedding of [NinjaTime.py]

    The program reads a ninja build log, splits it into builds, gives every
    target of a build a thread by a sweep over the targets sorted by start
    time, and prints the targets as trace events.

    Modelling conventions:
    - a Python [int] is a [Z]; a Python [str] is a [string] (code points below
      256); [None] in the [thread] attribute is [None] of an [option];
    - what the reader does with the code points from 256 on, which
      [str.rstrip], [int] and the class [\d] handle by the Unicode database,
      is given in the module [Unicode], on lists of code points;
    - a [Target] object is referred to by its position in [build.targets];
      the list returned by [sorted] is a list of such references, and the
      assignments of [assign_threads] are writes through these references;
    - an exception is a value of [py_error]; a loop that the source writes
      with [while] takes fuel, and running out of fuel is [None]. *)

From Stdlib Require Import ZArith Lia Ascii String.
From stdpp Require Import base tactics option list sorting strings.

Local Open Scope Z_scope.

(** ** Classes *)

(** [class Target]: the attributes set by [__init__]. The source attribute
    [end] is spelled [end_] here, [end] being reserved. *)
Record Target : Type := mkTarget {
  start : Z;
  end_ : Z;
  name : string;
  hash : string;
  thread : option Z
}.

(** [Target.period] *)
Definition period (t : Target) : Z := end_ t - start t.

(** [Target.__eq__] *)
Definition Target_eq (self other : Target) : bool :=
  String.eqb (name self) (name other) && String.eqb (hash self) (hash other).

(** [Target.__contains__] *)
Definition Target_contains (self other : Target) : bool :=
  (start other <? start self) && (start self <? end_ other)
  || (start other <? end_ self) && (end_ self <? end_ other).

(** The assignment [target.thread = k]. *)
Definition set_thread (t : Target) (k : Z) : Target :=
  {| start := start t; end_ := end_ t; name := name t; hash := hash t;
     thread := Some k |}.

(** [class Build]: the list [self.targets], in arrival order. *)
Record Build : Type := mkBuild { targets : list Target }.

(** [Build.add_target] *)
Definition add_target (b : Build) (t : Target) : Build :=
  {| targets := targets b ++ [t] |}.

(** [Build.__contains__]: the loop over [self.targets] compares names only.
    The test [type(target) == Target] holds for every [Target]. *)
Fixpoint targets_contain (ts : list Target) (target : Target) : bool :=
  match ts with
  | [] => false
  | t :: ts' =>
      if String.eqb (name t) (name target) then true
      else targets_contain ts' target
  end.

Definition Build_contains (b : Build) (target : Target) : bool :=
  targets_contain (targets b) target.

(** ** [sorted(xs, key=...)]

    Python's [sorted] is stable and orders by [<] on the keys. Inserting the
    head in front of the first element whose key is not smaller keeps equal
    keys in their original order. *)
Section Sorted.
Context {A : Type} (key : A → Z).

Fixpoint insert_by_key (x : A) (l : list A) : list A :=
  match l with
  | [] => [x]
  | y :: l' =>
      if bool_decide (key x ≤ key y) then x :: y :: l'
      else y :: insert_by_key x l'
  end.

Fixpoint py_sorted (l : list A) : list A :=
  match l with
  | [] => []
  | x :: l' => insert_by_key x (py_sorted l')
  end.
End Sorted.

(** ** [assign_threads] *)

(** The key [lambda t: t.start], read through a reference. *)
Definition start_of (heap : list Target) (r : nat) : Z :=
  from_option start 0 (heap !! r).

(** [sorted(build.targets, key=lambda t: t.start)], as references. *)
Definition sorted_refs (ts : list Target) : list nat :=
  py_sorted (start_of ts) (seq 0 (length ts)).

(** One turn of the outer [for target in targets] loop. The state is the
    targets of the build and the list [threads]. The inner loop takes the
    first thread whose end time is [<= target.start]; when there is none,
    the test [target.thread is None] decides whether a thread is added. *)
Definition sweep_step (st : list Target * list Z) (r : nat)
    : list Target * list Z :=
  let '(heap, threads) := st in
  match heap !! r with
  | None => st
  | Some target =>
      match list_find (λ end_time, end_time ≤ start target) threads with
      | Some (k, _) =>
          (<[r := set_thread target (Z.of_nat k)]> heap,
           <[k := end_ target]> threads)
      | None =>
          match thread target with
          | None =>
              (<[r := set_thread target (Z.of_nat (length threads))]> heap,
               threads ++ [end_ target])
          | Some _ => st
          end
      end
  end.

Definition sweep (ts : list Target) : list Target * list Z :=
  foldl sweep_step (ts, [0]) (sorted_refs ts).

Definition assign_threads (build : Build) : Build :=
  {| targets := (sweep (targets build)).1 |}.

(** ** [need_new_build] *)

Definition need_new_build (current_build : Build) (new_target : Target)
    : bool :=
  match last (targets current_build) with
  | None => false
  | Some latest =>
      if Build_contains current_build new_target then true
      else bool_decide (end_ new_target < end_ latest)
  end.

(** ** Builtins used by the reader *)

Module Py.

Definition tab : ascii := "009"%char.
Definition newline : ascii := "010"%char.

(** The characters below 256 for which [str.isspace] holds; [str.rstrip]
    without argument removes exactly these. *)
Definition whitespace : list ascii :=
  ["009"; "010"; "011"; "012"; "013"; "028"; "029"; "030"; "031"; " ";
   "133"; "160"]%char.

Definition isspace (c : ascii) : bool := bool_decide (c ∈ whitespace).

(** [s.rstrip()] *)
Fixpoint rstrip (s : string) : string :=
  match s with
  | EmptyString => EmptyString
  | String c s' =>
      match rstrip s' with
      | EmptyString => if isspace c then EmptyString else String c EmptyString
      | r => String c r
      end
  end.

(** [s.split(sep)] for a separator of one character: never the empty
    list, one more field than there are separators. *)
Fixpoint split (sep : ascii) (s : string) : list string :=
  match s with
  | EmptyString => [EmptyString]
  | String c s' =>
      if bool_decide (c = sep) then EmptyString :: split sep s'
      else
        match split sep s' with
        | field :: fields => String c field :: fields
        | [] => [String c EmptyString]
        end
  end.

(** [sep.join(fields)] *)
Fixpoint join (sep : ascii) (fields : list string) : string :=
  match fields with
  | [] => EmptyString
  | [field] => field
  | field :: fields' => field +:+ String sep (join sep fields')
  end.

(** [int(s)] of a [str] of code points below 256, base 10. The literal is:
    whitespace, an optional sign, digits with single underscores between
    them, whitespace. The whitespace [int] skips is narrower than
    [str.isspace]: the separators 28 to 31 are not skipped. Below 256 the
    decimal digits are the ASCII ones; [Unicode.int] has the others. A
    literal of more digits than [sys.int_info.default_max_str_digits]
    raises [ValueError] as well, with a message of its own. [None] stands
    for [ValueError]. *)
Definition int_whitespace : list ascii :=
  ["009"; "010"; "011"; "012"; "013"; " "; "133"; "160"]%char.

Definition is_int_space (c : ascii) : bool :=
  bool_decide (c ∈ int_whitespace).

Definition digit_value (c : ascii) : option Z :=
  let n := Z.of_nat (nat_of_ascii c) in
  if bool_decide (48 ≤ n ≤ 57) then Some (n - 48) else None.

Fixpoint all_int_space (s : string) : bool :=
  match s with
  | EmptyString => true
  | String c s' => is_int_space c && all_int_space s'
  end.

Fixpoint lstrip_int_space (s : string) : string :=
  match s with
  | EmptyString => EmptyString
  | String c s' => if is_int_space c then lstrip_int_space s' else s
  end.

(** The scan after a digit; [acc] is the value read so far. *)
Fixpoint int_digits (acc : Z) (s : string) : option Z :=
  match s with
  | EmptyString => Some acc
  | String c s' =>
      match digit_value c with
      | Some d => int_digits (acc * 10 + d) s'
      | None =>
          if bool_decide (c = "_"%char) then
            match s' with
            | String c' s'' =>
                match digit_value c' with
                | Some d => int_digits (acc * 10 + d) s''
                | None => None
                end
            | EmptyString => None
            end
          else if all_int_space s then Some acc
          else None
      end
  end.

Definition int_unsigned (s : string) : option Z :=
  match s with
  | String c s' =>
      match digit_value c with
      | Some d => int_digits d s'
      | None => None
      end
  | EmptyString => None
  end.

(** The default of [sys.get_int_max_str_digits()]. *)
Definition int_max_str_digits : nat := 4300.

(** The number of digits of the run of digits and underscores that goes on
    after a digit, [n] being the digits counted so far; [None] when an
    underscore is not between two digits. *)
Fixpoint int_scan (n : nat) (s : string) : option nat :=
  match s with
  | EmptyString => Some n
  | String c s' =>
      match digit_value c with
      | Some _ => int_scan (S n) s'
      | None =>
          if bool_decide (c = "_"%char) then
            match s' with
            | String c' s'' =>
                match digit_value c' with
                | Some _ => int_scan (S n) s''
                | None => None
                end
            | EmptyString => None
            end
          else Some n
      end
  end.

(** What [int] does: a value, the error [invalid literal], or the error
    [Exceeds the limit], which tells the number of digits. *)
Inductive int_outcome : Type :=
  | IntValue (v : Z)
  | IntInvalid
  | IntTooLong (digits : nat).

(** The digits are scanned first, then counted against the limit, then
    converted; what follows the digits is looked at last. *)
Definition int_unsigned_full (s : string) : int_outcome :=
  match s with
  | String c s' =>
      match digit_value c with
      | Some _ =>
          match int_scan 1 s' with
          | None => IntInvalid
          | Some n =>
              if bool_decide (int_max_str_digits < n)%nat then IntTooLong n
              else
                match int_unsigned s with
                | Some v => IntValue v
                | None => IntInvalid
                end
          end
      | None => IntInvalid
      end
  | EmptyString => IntInvalid
  end.

Definition int_negate (o : int_outcome) : int_outcome :=
  match o with
  | IntValue v => IntValue (- v)
  | o => o
  end.

Definition int_full (s : string) : int_outcome :=
  match lstrip_int_space s with
  | EmptyString => IntInvalid
  | String c s' =>
      if bool_decide (c = "-"%char) then int_negate (int_unsigned_full s')
      else if bool_decide (c = "+"%char) then int_unsigned_full s'
      else int_unsigned_full (String c s')
  end.

Definition int (s : string) : option Z :=
  match int_full s with
  | IntValue v => Some v
  | _ => None
  end.

(** [min(x0 :: xs, key=key)]: the first element of least key. *)
Definition min_by_key {A} (key : A → Z) (x0 : A) (xs : list A) : A :=
  foldl (λ best x, if bool_decide (key x < key best) then x else best)
        x0 xs.

End Py.

(** ** Exceptions and outcomes *)

Inductive value_error : Type :=
  | NotEnoughValues (expected got : nat)
  | TooManyValues (expected : nat)
  | InvalidLiteral (literal : string)
  | ExceedsDigitLimit (limit digits : nat)
  | EmptySequence.

Inductive py_error : Type :=
  | VersionError (good_version bad_version : Z)
  | ValueError (e : value_error)
  | IndexError.

(** What a call does: it returns, it raises, or it ends the process with
    [exit(status)] after printing an exception on the error stream. *)
Inductive outcome (A : Type) : Type :=
  | Return (a : A)
  | Raise (e : py_error)
  | Exit (status : Z) (printed : py_error).
Arguments Return {A} a.
Arguments Raise {A} e.
Arguments Exit {A} status printed.

(** ** [check_version] *)

(** [ninja_log_expr.match(line)] for the pattern
    [#[\t ]+ninja[\t ]+log[\t ]+v(\d)]: anchored at the start of the line
    only; each run of blanks is followed by a letter, so taking the whole
    run is the only way to match. The result is the group [(\d)]. Below
    256 the class [\d] is the ASCII digits; [Unicode.ninja_log_match] has
    the decimal digits of the other scripts. *)
Definition is_blank (c : ascii) : bool :=
  bool_decide (c = Py.tab) || bool_decide (c = " "%char).

Fixpoint skip_blanks (s : string) : string :=
  match s with
  | EmptyString => EmptyString
  | String c s' => if is_blank c then skip_blanks s' else s
  end.

Definition blanks1 (s : string) : option string :=
  match s with
  | String c s' => if is_blank c then Some (skip_blanks s') else None
  | EmptyString => None
  end.

Fixpoint literal (lit s : string) : option string :=
  match lit with
  | EmptyString => Some s
  | String c lit' =>
      match s with
      | String d s' => if bool_decide (c = d) then literal lit' s' else None
      | EmptyString => None
      end
  end.

Definition ninja_log_match (line : string) : option string :=
  s ← literal "#" line;
  s ← blanks1 s;
  s ← literal "ninja" s;
  s ← blanks1 s;
  s ← literal "log" s;
  s ← blanks1 s;
  s ← literal "v" s;
  match s with
  | String c _ =>
      if bool_decide (is_Some (Py.digit_value c)) then Some (String c EmptyString)
      else None
  | EmptyString => None
  end.

Definition allowed_versions : list Z := [5].

Definition check_version (line : string) : py_error + option Z :=
  if bool_decide (line ≠ EmptyString)
     && negb (bool_decide (String.get 0 line = Some "#"%char))
  then inr None
  else
    match ninja_log_match line with
    | None => inr None
    | Some group =>
        match Py.int group with
        | None => inl (ValueError (InvalidLiteral group))
        | Some version =>
            if bool_decide (version ∈ allowed_versions)
            then inr (Some version)
            else
              match allowed_versions with
              | x0 :: xs =>
                  let closest :=
                    Py.min_by_key (λ x, Z.abs (x - version)) x0 xs in
                  inl (VersionError closest version)
              | [] => inl (ValueError EmptySequence)
              end
        end
    end.

(** ** [read_log] *)

(** An open file is the list of the lines not read yet, each with its line
    end as iteration over a text file gives them. [f.readline()] gives the
    next line, and the empty string once the file is exhausted. *)
Definition readline (f : list string) : string * list string :=
  match f with
  | [] => (EmptyString, [])
  | line :: f' => (line, f')
  end.

(** The loop [while version is None]. The handler of [VersionError] prints
    the exception and calls [exit(1)]; any other exception propagates. *)
Fixpoint find_version (fuel : nat) (f : list string)
    : option (outcome (Z * list string)) :=
  match fuel with
  | O => None
  | S fuel' =>
      let '(line, f') := readline f in
      match check_version line with
      | inl (VersionError good bad) => Some (Exit 1 (VersionError good bad))
      | inl e => Some (Raise e)
      | inr (Some version) => Some (Return (version, f'))
      | inr None => find_version fuel' f'
      end
  end.

(** [start, end, _, tname, thash = line.rstrip().split('\t')] *)
Definition unpack_fields (line : string)
    : py_error + (string * string * string * string) :=
  match Py.split Py.tab (Py.rstrip line) with
  | [start; end_; _; tname; thash] => inr (start, end_, tname, thash)
  | fields =>
      if bool_decide (length fields < 5)%nat
      then inl (ValueError (NotEnoughValues 5 (length fields)))
      else inl (ValueError (TooManyValues 5))
  end.

(** The [ValueError] of [int(literal)]. *)
Definition int_error (literal : string) (o : Py.int_outcome) : py_error :=
  match o with
  | Py.IntTooLong digits =>
      ValueError (ExceedsDigitLimit Py.int_max_str_digits digits)
  | _ => ValueError (InvalidLiteral literal)
  end.

(** [Target.__init__] *)
Definition Target_init (start end_ name target_hash : string)
    : py_error + Target :=
  match Py.int_full start with
  | Py.IntValue s =>
      match Py.int_full end_ with
      | Py.IntValue e => inr (mkTarget s e name target_hash None)
      | o => inl (int_error end_ o)
      end
  | o => inl (int_error start o)
  end.

(** The record of one body line. *)
Definition parse_line (line : string) : py_error + Target :=
  match unpack_fields line with
  | inl e => inl e
  | inr (start, end_, tname, thash) => Target_init start end_ tname thash
  end.

(** [current_build.add_target(new_target)] where [current_build] is the
    last element of [builds]. *)
Definition add_to_last (builds : list Build) (t : Target) : list Build :=
  match last builds with
  | None => builds
  | Some current_build => removelast builds ++ [add_target current_build t]
  end.

(** One turn of [for line in f]. *)
Definition body_step (builds : list Build) (line : string)
    : py_error + list Build :=
  match last builds with
  | None => inl IndexError
  | Some current_build =>
      if bool_decide (line = EmptyString)
         || bool_decide (String.get 0 line = Some "#"%char)
      then inr builds
      else
        match parse_line line with
        | inl e => inl e
        | inr new_target =>
            if need_new_build current_build new_target
            then inr (builds ++ [add_target (mkBuild []) new_target])
            else inr (add_to_last builds new_target)
        end
  end.

Fixpoint body_loop (builds : list Build) (f : list string)
    : outcome (list Build) :=
  match f with
  | [] => Return builds
  | line :: f' =>
      match body_step builds line with
      | inl e => Raise e
      | inr builds' => body_loop builds' f'
      end
  end.

Definition read_log (fuel : nat) (f : list string)
    : option (outcome (list Build)) :=
  match find_version fuel f with
  | None => None
  | Some (Return (_, f')) => Some (body_loop [mkBuild []] f')
  | Some (Raise e) => Some (Raise e)
  | Some (Exit status e) => Some (Exit status e)
  end.

(** The segmentation of [read_log] on records already parsed. *)
Definition segment_step (builds : list Build) (new_target : Target)
    : list Build :=
  match last builds with
  | None => builds
  | Some current_build =>
      if need_new_build current_build new_target
      then builds ++ [add_target (mkBuild []) new_target]
      else add_to_last builds new_target
  end.

Definition segment (records : list Target) : list Build :=
  foldl segment_step [mkBuild []] records.

(** ** [target_to_dict] and [main] *)

(** The dictionary built by [target_to_dict]; [args] is the empty
    dictionary, given as its list of items. *)
Record Event : Type := mkEvent {
  ev_name : string;
  ev_cat : string;
  ev_ph : string;
  ev_ts : Z;
  ev_dur : Z;
  ev_pid : Z;
  ev_tid : option Z;
  ev_args : list (string * string)
}.

Definition target_to_dict (target : Target) (pid : Z) : Event :=
  {| ev_name := name target;
     ev_cat := "targets";
     ev_ph := "X";
     ev_ts := start target * 1000;
     ev_dur := period target * 1000;
     ev_pid := pid;
     ev_tid := thread target;
     ev_args := [] |}.

(** The comprehension of [main] over the builds returned by [read_log]:
    [enumerate] numbers the builds from 0, and iterating a [Build] goes
    through [build.targets] in order. *)
Definition trace_events (builds : list Build) : list Event :=
  mjoin (imap (λ pid build,
                 (λ target, target_to_dict target (Z.of_nat pid))
                   <$> targets (assign_threads build))
              builds).

(** The list handed to [json.dumps] by [main]. The first loop of [main]
    reads the log and assigns threads in builds that are then dropped; the
    log is read again for the comprehension. *)
Definition main_events (fuel : nat) (f : list string)
    : option (outcome (list Event)) :=
  match read_log fuel f with
  | None => None
  | Some (Raise e) => Some (Raise e)
  | Some (Exit status e) => Some (Exit status e)
  | Some (Return builds) =>
      let _ := assign_threads <$> builds in
      match read_log fuel f with
      | None => None
      | Some (Raise e) => Some (Raise e)
      | Some (Exit status e) => Some (Exit status e)
      | Some (Return builds') => Some (Return (trace_events builds'))
      end
  end.

(** ** Notions of the specification *)

(** Records as the reader creates them: no thread yet. *)
Definition unscheduled (b : Build) : Prop :=
  Forall (λ t, thread t = None) (targets b).

(** Two records do not conflict when one ends no later than the other
    starts. *)
Definition non_conflicting (a b : Target) : Prop :=
  end_ a ≤ start b ∨ end_ b ≤ start a.

(** A record is in flight at the instant [x] from its start to just before
    its end, so that a record starting when another ends is not concurrent
    with it. *)
Definition in_flight (x : Z) (t : Target) : Prop :=
  start t ≤ x < end_ t.

Global Instance in_flight_dec x t : Decision (in_flight x t).
Proof. unfold in_flight. apply _. Defined.

Definition in_flight_count (x : Z) (b : Build) : nat :=
  length (filter (in_flight x) (targets b)).

(** [m] is the greatest number of records in flight at one instant. *)
Definition max_in_flight (b : Build) (m : nat) : Prop :=
  (∀ x, (in_flight_count x b ≤ m)%nat) ∧ ∃ x, in_flight_count x b = m.

(** The number of distinct threads assigned in a build. *)
Definition num_threads (b : Build) : nat :=
  length (remove_dups (omap thread (targets b))).

(** A field has no separator in it. *)
Fixpoint has_char (sep : ascii) (s : string) : bool :=
  match s with
  | EmptyString => false
  | String c s' => bool_decide (c = sep) || has_char sep s'
  end.

(** The literals of [int]: what may follow a digit is a digit, or an
    underscore and a digit; a group of digits is a digit and what follows
    it. *)
Inductive digits_tail : string → Prop :=
  | tail_end : digits_tail EmptyString
  | tail_digit c s :
      is_Some (Py.digit_value c) → digits_tail s → digits_tail (String c s)
  | tail_underscore c s :
      is_Some (Py.digit_value c) → digits_tail s →
      digits_tail (String "_"%char (String c s)).

Definition digit_group (s : string) : Prop :=
  ∃ c s', s = String c s' ∧ is_Some (Py.digit_value c) ∧ digits_tail s'.

(** The decimal value of a group, underscores left out. *)
Fixpoint digits_value (acc : Z) (s : string) : Z :=
  match s with
  | EmptyString => acc
  | String c s' =>
      match Py.digit_value c with
      | Some d => digits_value (acc * 10 + d) s'
      | None => digits_value acc s'
      end
  end.

(** The number of digits of a group. *)
Fixpoint digit_count (s : string) : nat :=
  match s with
  | EmptyString => 0
  | String c s' =>
      match Py.digit_value c with
      | Some _ => S (digit_count s')
      | None => digit_count s'
      end
  end.

Definition sign_factor (sign : string) : Z :=
  if bool_decide (sign = "-") then -1 else 1.

(** [s] is an integer literal of value [v]: whitespace, a sign or none, a
    group of no more digits than the limit, whitespace. *)
Definition int_literal (s : string) (v : Z) : Prop :=
  ∃ ws1 sign body ws2,
    s = ws1 +:+ sign +:+ body +:+ ws2
    ∧ Py.all_int_space ws1 = true ∧ Py.all_int_space ws2 = true
    ∧ (sign = "" ∨ sign = "+" ∨ sign = "-")
    ∧ digit_group body
    ∧ (digit_count body ≤ Py.int_max_str_digits)%nat
    ∧ v = sign_factor sign * digits_value 0 body.

(** What ends a group of digits: the end of the text, or a character that
    is neither a digit nor an underscore. *)
Definition ends_digits (rest : string) : Prop :=
  match rest with
  | EmptyString => True
  | String c _ => Py.digit_value c = None ∧ c ≠ "_"%char
  end.

(** [s] begins as a literal does, with a group of [n] digits that ends
    before the rest of [s]. *)
Definition digit_run (s : string) (n : nat) : Prop :=
  ∃ ws1 sign body rest,
    s = ws1 +:+ sign +:+ body +:+ rest
    ∧ Py.all_int_space ws1 = true
    ∧ (sign = "" ∨ sign = "+" ∨ sign = "-")
    ∧ digit_group body ∧ ends_digits rest
    ∧ n = digit_count body.

(** [line], without its trailing whitespace, is made of exactly the five
    fields given, separated by tabs. *)
Definition five_fields (line : string) (f1 f2 f3 f4 f5 : string) : Prop :=
  Py.rstrip line = Py.join Py.tab [f1; f2; f3; f4; f5]
  ∧ Forall (λ f, has_char Py.tab f = false) [f1; f2; f3; f4; f5].

(** A line of whitespace only. *)
Fixpoint all_space (s : string) : bool :=
  match s with
  | EmptyString => true
  | String c s' => Py.isspace c && all_space s'
  end.

(** The number of records in the builds before the build of index [p]. *)
Definition records_before (builds : list Build) (p : nat) : nat :=
  sum_list ((λ b, length (targets b)) <$> take p builds).

(** The event of a record [t0] of build [p] to which thread [k] was given. *)
Definition event_of (t0 : Target) (p : nat) (k : Z) : Event :=
  {| ev_name := name t0;
     ev_cat := "targets";
     ev_ph := "X";
     ev_ts := start t0 * 1000;
     ev_dur := (end_ t0 - start t0) * 1000;
     ev_pid := Z.of_nat p;
     ev_tid := Some k;
     ev_args := [] |}.

(** The two things a record can do to the list of builds. *)
Definition begins_new_build (builds : list Build) (new_target : Target)
    : Prop :=
  segment_step builds new_target = builds ++ [mkBuild [new_target]].

Definition joins_current_build (builds : list Build) (new_target : Target)
    : Prop :=
  ∃ current_build,
    last builds = Some current_build
    ∧ segment_step builds new_target
        = removelast builds ++ [add_target current_build new_target].

(** ** Example records, builds and lines *)

Definition record (s e : Z) (n h : string) : Target := mkTarget s e n h None.

Definition build_abc : Build :=
  mkBuild [record 0 10 "a" "h1"; record 2 8 "b" "h2"; record 10 12 "c" "h3"].

Definition build_zero_duration : Build :=
  mkBuild [record 0 10 "a" "h1"; record 5 5 "b" "h2"].

Definition build_negative_start : Build :=
  mkBuild [record (-5) (-1) "a" "h1"; record 3 4 "b" "h2"].

Definition line_of (fields : list string) : string :=
  Py.join Py.tab fields +:+ String Py.newline EmptyString.

Definition header_v5 : string :=
  "# ninja log v5" +:+ String Py.newline EmptyString.

Definition header_v50 : string :=
  "# ninja log v50" +:+ String Py.newline EmptyString.

Definition blank_line : string := String Py.newline EmptyString.

(** The order of a stable sort of references by [key]: by key, and by
    position among equal keys. *)
Definition ref_before (key : nat → Z) (i j : nat) : Prop :=
  key i < key j ∨ (key i = key j ∧ (i < j)%nat).

(** ** Invariants of the sweep

    [done] is the part of the sorted references already handled, [st] the
    state of the loop, [ts0] the targets before the call. *)

Definition key_le {A} (key : A → Z) (a b : A) : Prop := key a ≤ key b.

Record sweep_frame (ts0 : list Target) (done : list nat)
    (st : list Target * list Z) : Prop := {
  frame_length : length st.1 = length ts0;
  frame_todo : ∀ i, i ∉ done → st.1 !! i = ts0 !! i;
  frame_done : ∀ i, i ∈ done →
    ∃ t0 k, ts0 !! i = Some t0
            ∧ st.1 !! i = Some (set_thread t0 (Z.of_nat k))
            ∧ (k < length st.2)%nat
}.

Record sweep_sep (done : list nat) (st : list Target * list Z) : Prop := {
  sep_bound : ∀ i t k e,
    i ∈ done → st.1 !! i = Some t → thread t = Some (Z.of_nat k) →
    st.2 !! k = Some e → end_ t ≤ e;
  sep_pair : ∀ i j ti tj,
    i ≠ j → i ∈ done → j ∈ done →
    st.1 !! i = Some ti → st.1 !! j = Some tj →
    thread ti = thread tj → non_conflicting ti tj
}.

Record sweep_min (ts0 : list Target) (done : list nat)
    (st : list Target * list Z) : Prop := {
  min_occupied : ∀ k e, st.2 !! k = Some e →
    (k = 0%nat ∧ e = 0)
    ∨ ∃ i t, i ∈ done ∧ st.1 !! i = Some t
             ∧ thread t = Some (Z.of_nat k) ∧ end_ t = e;
  min_count :
    length st.2 = 1%nat
    ∨ ∃ x, (length st.2 ≤ in_flight_count x (mkBuild ts0))%nat
}.

(** ** Further notions *)

(** The test of [read_log] that passes over a body line. *)
Definition skipped (line : string) : bool :=
  bool_decide (line = EmptyString)
  || bool_decide (String.get 0 line = Some "#"%char).

(** The records of a list of builds, build after build. *)
Definition flatten (builds : list Build) : list Target :=
  mjoin (targets <$> builds).

(** [line] is read by [read_log] as the record [t]. *)
Definition reads_as (line : string) (t : Target) : Prop :=
  parse_line line = inr t.

(** A run of blanks, as [[\t ]+] takes it. *)
Fixpoint all_blank (s : string) : bool :=
  match s with
  | EmptyString => true
  | String c s' => is_blank c && all_blank s'
  end.

Definition blanks (w : string) : Prop := w ≠ EmptyString ∧ all_blank w = true.

(** [line] starts with a version marker whose digit is [c]. *)
Definition marker_line (line : string) (c : ascii) : Prop :=
  ∃ w1 w2 w3 rest,
    blanks w1 ∧ blanks w2 ∧ blanks w3
    ∧ line = "#" +:+ w1 +:+ "ninja" +:+ w2 +:+ "log" +:+ w3 +:+ "v"
             +:+ String c rest.

(** The last character of [s] is whitespace. *)
Fixpoint ends_with_space (s : string) : bool :=
  match s with
  | EmptyString => false
  | String c EmptyString => Py.isspace c
  | String _ s' => ends_with_space s'
  end.

(** Every thread of the list is used by a record handled so far, thread 0
    apart as long as no record was handled. *)
Definition sweep_used (done : list nat) (st : list Target * list Z) : Prop :=
  ∀ k, (k < length st.2)%nat →
    (k = 0%nat ∧ done = [])
    ∨ ∃ i t, i ∈ done ∧ st.1 !! i = Some t ∧ thread t = Some (Z.of_nat k).

(** [Build.__iter__] sets [self._current] to 0; [Build.__next__] returns
    the target at [self._current] and moves on, or raises [StopIteration],
    which is [None] here. The state is the value of [_current]. *)
Definition Build_iter (b : Build) : nat := 0%nat.

Definition Build_next (b : Build) (current : nat) : option Target * nat :=
  if bool_decide (current < length (targets b))%nat then
    match targets b !! current with
    | Some x => (Some x, S current)
    | None => (None, current)
    end
  else (None, current).

(** [for target in build]: the targets got from [__next__] until
    [StopIteration], with the value of [_current] left behind. *)
Fixpoint for_in (fuel : nat) (b : Build) (current : nat)
    : option (list Target * nat) :=
  match fuel with
  | O => None
  | S fuel' =>
      match Build_next b current with
      | (None, current') => Some ([], current')
      | (Some x, current') =>
          match for_in fuel' b current' with
          | None => None
          | Some (xs, final) => Some (x :: xs, final)
          end
      end
  end.

(** The intervals of two events: one is over when the other starts. *)
Definition events_apart (e1 e2 : Event) : Prop :=
  ev_ts e1 + ev_dur e1 ≤ ev_ts e2 ∨ ev_ts e2 + ev_dur e2 ≤ ev_ts e1.

(** A log of three records in two builds. *)
Definition example_log : list string :=
  [header_v5; line_of ["0"; "10"; "0"; "a"; "h1"];
   "# a comment"; line_of ["2"; "12"; "0"; "b"; "h2"];
   line_of ["1"; "3"; "0"; "c"; "h3"]].

Definition example_builds : list Build :=
  [mkBuild [record 0 10 "a" "h1"; record 2 12 "b" "h2"];
   mkBuild [record 1 3 "c" "h3"]].

(** ** Strings of any code point

    A [str] is a sequence of Unicode code points, and the embedding above
    keeps the code points below 256. Beyond ASCII, [str.isspace], [int] and
    the class [\d] of the version pattern read the Unicode database of the
    interpreter, which grows from one version of Unicode to the next.
    [UnicodeData] is what the reader takes from it: the code points from
    128 on that are whitespace, and those that are decimal digits, with
    their values; a value is between 0 and 9, and no whitespace is a
    decimal digit. *)
Class UnicodeData : Type := {
  unicode_isspace : N → bool;
  unicode_todecimal : N → option N;
  unicode_todecimal_lt :
    ∀ c d, unicode_todecimal c = Some d → (d < 10)%N;
  unicode_space_not_decimal :
    ∀ c, unicode_isspace c = true → unicode_todecimal c = None
}.

Module Unicode.
Section Reader.
Context {ucd : UnicodeData}.
Local Open Scope N_scope.

Definition tab : N := 9.
Definition newline : N := 10.

(** The code points of a string of the embedding above. *)
Fixpoint code_points (s : string) : list N :=
  match s with
  | EmptyString => []
  | String c s' => N_of_ascii c :: code_points s'
  end.

(** [Py_UNICODE_ISSPACE], which is [str.isspace] on one code point. *)
Definition ascii_whitespace : list N :=
  [9; 10; 11; 12; 13; 28; 29; 30; 31; 32].

Definition isspace (c : N) : bool :=
  if c <? 128 then bool_decide (c ∈ ascii_whitespace) else unicode_isspace c.

(** [Py_UNICODE_TODECIMAL]; [Py_UNICODE_ISDECIMAL] holds when it gives a
    value. *)
Definition todecimal (c : N) : option N :=
  if c <? 128 then
    if (48 <=? c) && (c <=? 57) then Some (c - 48) else None
  else unicode_todecimal c.

(** [s.rstrip()] *)
Fixpoint rstrip (s : list N) : list N :=
  match s with
  | [] => []
  | c :: s' =>
      match rstrip s' with
      | [] => if isspace c then [] else [c]
      | r => c :: r
      end
  end.

(** [s.split(sep)] for a separator of one code point. *)
Fixpoint split (sep : N) (s : list N) : list (list N) :=
  match s with
  | [] => [[]]
  | c :: s' =>
      if bool_decide (c = sep) then [] :: split sep s'
      else
        match split sep s' with
        | field :: fields => (c :: field) :: fields
        | [] => [[c]]
        end
  end.

(** [sep.join(fields)] *)
Fixpoint join (sep : N) (fields : list (list N)) : list N :=
  match fields with
  | [] => []
  | [field] => field
  | field :: fields' => field ++ sep :: join sep fields'
  end.

(** [int(s)] first writes [s] in ASCII: a code point below 127 is kept,
    whitespace becomes a space, a decimal digit becomes the ASCII digit of
    its value, and at anything else the text ends with a question mark.
    The ASCII text is then read as above. (A text of ASCII only is read as
    it is; it differs from what is written here at the code point 127 and
    after it, which like the question mark is no part of a literal, so
    that the outcome is the same.) *)
Definition to_ascii (c : N) : option ascii :=
  if c <? 127 then Some (ascii_of_N c)
  else if isspace c then Some " "%char
  else
    match todecimal c with
    | Some d => Some (ascii_of_N (48 + d))
    | None => None
    end.

Fixpoint transform (s : list N) : string :=
  match s with
  | [] => EmptyString
  | c :: s' =>
      match to_ascii c with
      | Some a => String a (transform s')
      | None => "?"
      end
  end.

(** The code points that [transform] writes in ASCII. *)
Definition valid (c : N) : Prop := is_Some (to_ascii c).

Definition int_full (s : list N) : Py.int_outcome := Py.int_full (transform s).

Definition int (s : list N) : option Z := Py.int (transform s).

(** The records and the exceptions, with fields that are such strings. *)
Record Target : Type := mkTarget {
  start : Z;
  end_ : Z;
  name : list N;
  hash : list N;
  thread : option Z
}.

Inductive value_error : Type :=
  | NotEnoughValues (expected got : nat)
  | TooManyValues (expected : nat)
  | InvalidLiteral (literal : list N)
  | ExceedsDigitLimit (limit digits : nat)
  | EmptySequence.

Inductive error : Type :=
  | VersionError (good_version bad_version : Z)
  | ValueError (e : value_error).

(** [start, end, _, tname, thash = line.rstrip().split('\t')] *)
Definition unpack_fields (line : list N)
    : error + (list N * list N * list N * list N) :=
  match split tab (rstrip line) with
  | [start; end_; _; tname; thash] => inr (start, end_, tname, thash)
  | fields =>
      if bool_decide (length fields < 5)%nat
      then inl (ValueError (NotEnoughValues 5 (length fields)))
      else inl (ValueError (TooManyValues 5))
  end.

Definition int_error (literal : list N) (o : Py.int_outcome) : error :=
  match o with
  | Py.IntTooLong digits =>
      ValueError (ExceedsDigitLimit Py.int_max_str_digits digits)
  | _ => ValueError (InvalidLiteral literal)
  end.

(** [Target.__init__] *)
Definition Target_init (start end_ name target_hash : list N)
    : error + Target :=
  match int_full start with
  | Py.IntValue s =>
      match int_full end_ with
      | Py.IntValue e => inr (mkTarget s e name target_hash None)
      | o => inl (int_error end_ o)
      end
  | o => inl (int_error start o)
  end.

(** The record of one body line. *)
Definition parse_line (line : list N) : error + Target :=
  match unpack_fields line with
  | inl e => inl e
  | inr (start, end_, tname, thash) => Target_init start end_ tname thash
  end.

(** [ninja_log_expr.match(line)], the class [\d] being the decimal digits
    of Unicode. *)
Definition is_blank (c : N) : bool :=
  bool_decide (c = tab) || bool_decide (c = 32).

Fixpoint skip_blanks (s : list N) : list N :=
  match s with
  | [] => []
  | c :: s' => if is_blank c then skip_blanks s' else s
  end.

Definition blanks1 (s : list N) : option (list N) :=
  match s with
  | c :: s' => if is_blank c then Some (skip_blanks s') else None
  | [] => None
  end.

Fixpoint literal (lit s : list N) : option (list N) :=
  match lit with
  | [] => Some s
  | c :: lit' =>
      match s with
      | d :: s' => if bool_decide (c = d) then literal lit' s' else None
      | [] => None
      end
  end.

Definition ninja_log_match (line : list N) : option (list N) :=
  s ← literal (code_points "#") line;
  s ← blanks1 s;
  s ← literal (code_points "ninja") s;
  s ← blanks1 s;
  s ← literal (code_points "log") s;
  s ← blanks1 s;
  s ← literal (code_points "v") s;
  match s with
  | c :: _ => if bool_decide (is_Some (todecimal c)) then Some [c] else None
  | [] => None
  end.

Definition check_version (line : list N) : error + option Z :=
  if bool_decide (line ≠ [])
     && negb (bool_decide (head line = Some (N_of_ascii "#")))
  then inr None
  else
    match ninja_log_match line with
    | None => inr None
    | Some group =>
        match int_full group with
        | Py.IntValue version =>
            if bool_decide (version ∈ allowed_versions)
            then inr (Some version)
            else
              match allowed_versions with
              | x0 :: xs =>
                  let closest :=
                    Py.min_by_key (λ x, Z.abs (x - version)) x0 xs in
                  inl (VersionError closest version)
              | [] => inl (ValueError EmptySequence)
              end
        | o => inl (int_error group o)
        end
    end.

(** *** Notions of the specification, on such strings *)

(** The whitespace that [int] skips. *)
Definition int_space (c : N) : Prop :=
  c ∈ [9; 10; 11; 12; 13; 32] ∨ (128 ≤ c ∧ unicode_isspace c = true).

(** The value of a decimal digit, ASCII or not. *)
Definition digit_value (c : N) : option Z := Z.of_N <$> todecimal c.

Inductive digits_tail : list N → Prop :=
  | tail_end : digits_tail []
  | tail_digit c s :
      is_Some (digit_value c) → digits_tail s → digits_tail (c :: s)
  | tail_underscore c s :
      is_Some (digit_value c) → digits_tail s →
      digits_tail (N_of_ascii "_" :: c :: s).

Definition digit_group (s : list N) : Prop :=
  ∃ c s', s = c :: s' ∧ is_Some (digit_value c) ∧ digits_tail s'.

Fixpoint digits_value (acc : Z) (s : list N) : Z :=
  match s with
  | [] => acc
  | c :: s' =>
      match digit_value c with
      | Some d => digits_value (acc * 10 + d) s'
      | None => digits_value acc s'
      end
  end.

Fixpoint digit_count (s : list N) : nat :=
  match s with
  | [] => 0
  | c :: s' =>
      match digit_value c with
      | Some _ => S (digit_count s')
      | None => digit_count s'
      end
  end.

Definition sign_factor (sign : list N) : Z :=
  if bool_decide (sign = code_points "-") then (-1)%Z else 1%Z.

(** [s] is an integer literal of value [v]: whitespace, a sign or none, a
    group of no more digits than the limit, whitespace. *)
Definition int_literal (s : list N) (v : Z) : Prop :=
  ∃ ws1 sign body ws2,
    s = ws1 ++ sign ++ body ++ ws2
    ∧ Forall int_space ws1 ∧ Forall int_space ws2
    ∧ (sign = [] ∨ sign = code_points "+" ∨ sign = code_points "-")
    ∧ digit_group body
    ∧ (digit_count body ≤ Py.int_max_str_digits)%nat
    ∧ v = (sign_factor sign * digits_value 0 body)%Z.

Definition ends_digits (rest : list N) : Prop :=
  match rest with
  | [] => True
  | c :: _ => digit_value c = None ∧ c ≠ N_of_ascii "_"
  end.

(** [s] begins as a literal does, with a group of [n] digits that ends
    before the rest of [s]. *)
Definition digit_run (s : list N) (n : nat) : Prop :=
  ∃ ws1 sign body rest,
    s = ws1 ++ sign ++ body ++ rest
    ∧ Forall int_space ws1
    ∧ (sign = [] ∨ sign = code_points "+" ∨ sign = code_points "-")
    ∧ digit_group body ∧ ends_digits rest
    ∧ n = digit_count body.


(** [line], without its trailing whitespace, is made of exactly the five
    fields given, separated by tabs. *)
Definition five_fields (line f1 f2 f3 f4 f5 : list N) : Prop :=
  rstrip line = join tab [f1; f2; f3; f4; f5]
  ∧ Forall (λ f, tab ∉ f) [f1; f2; f3; f4; f5].

(** A run of blanks, as [[\t ]+] takes it. *)
Definition blanks (w : list N) : Prop :=
  w ≠ [] ∧ Forall (λ c, c = tab ∨ c = 32) w.

(** [line] starts with a version marker whose digit is [c]. *)
Definition marker_line (line : list N) (c : N) : Prop :=
  ∃ w1 w2 w3 rest,
    blanks w1 ∧ blanks w2 ∧ blanks w3
    ∧ line = code_points "#" ++ w1 ++ code_points "ninja" ++ w2
             ++ code_points "log" ++ w3 ++ code_points "v" ++ c :: rest.

End Reader.
End Unicode.

(** *** From the strings of the embedding to lists of code points

    Below 256 every version of Unicode has the same whitespace, 133 and
    160 from 128 on, and no decimal digit from 128 on. With a database that
    says so, the reader of the strings of the embedding is the reader of
    the lists of code points, kept to the code points below 256. *)
Definition latin1_database (ucd : UnicodeData) : Prop :=
  (∀ c, (128 ≤ c < 256)%N →
        unicode_isspace c = bool_decide (c ∈ [133; 160]%N))
  ∧ (∀ c, (128 ≤ c < 256)%N → unicode_todecimal c = None).

Definition Target_code_points (t : Target) : Unicode.Target :=
  Unicode.mkTarget (start t) (end_ t) (Unicode.code_points (name t))
    (Unicode.code_points (hash t)) (thread t).

Definition value_error_code_points (e : value_error) : Unicode.value_error :=
  match e with
  | NotEnoughValues expected got => Unicode.NotEnoughValues expected got
  | TooManyValues expected => Unicode.TooManyValues expected
  | InvalidLiteral literal =>
      Unicode.InvalidLiteral (Unicode.code_points literal)
  | ExceedsDigitLimit limit digits => Unicode.ExceedsDigitLimit limit digits
  | EmptySequence => Unicode.EmptySequence
  end.

(** [IndexError] is no exception of the functions given again. *)
Definition error_code_points (e : py_error) : option Unicode.error :=
  match e with
  | VersionError good bad => Some (Unicode.VersionError good bad)
  | ValueError e => Some (Unicode.ValueError (value_error_code_points e))
  | IndexError => None
  end.

Definition result_code_points {A B} (f : A → B) (r : py_error + A)
    : option (Unicode.error + B) :=
  match r with
  | inl e => inl <$> error_code_points e
  | inr a => Some (inr (f a))
  end.

(** The database of Unicode 14.0, which Python 3.11 reads: the whitespace
    from 128 on, and the decimal digits, which come in runs of ten from the
    digit zero of a script on; the list has the zeros. *)
Definition unicode_14_spaces : list N :=
  [133; 160; 5760; 8192; 8193; 8194; 8195; 8196; 8197; 8198; 8199; 8200;
   8201; 8202; 8232; 8233; 8239; 8287; 12288]%N.

Definition unicode_14_zeros : list N :=
  [1632; 1776; 1984; 2406; 2534; 2662; 2790; 2918; 3046; 3174; 3302; 3430;
   3558; 3664; 3792; 3872; 4160; 4240; 6112; 6160; 6470; 6608; 6784; 6800;
   6992; 7088; 7232; 7248; 42528; 43216; 43264; 43472; 43504; 43600; 44016;
   65296; 66720; 68912; 69734; 69872; 69942; 70096; 70384; 70736; 70864;
   71248; 71360; 71472; 71904; 72016; 72784; 73040; 73120; 92768; 92864;
   93008; 120782; 120792; 120802; 120812; 120822; 123200; 123632; 125264;
   130032]%N.

Definition in_run (c zero : N) : bool := ((zero <=? c) && (c <? zero + 10))%N.

Definition unicode_14_todecimal (c : N) : option N :=
  match List.find (in_run c) unicode_14_zeros with
  | Some zero => Some (c - zero)%N
  | None => None
  end.

Definition unicode_14_isspace (c : N) : bool :=
  bool_decide (c ∈ unicode_14_spaces).

Definition unicode_14 : UnicodeData.
Proof.
  refine {| unicode_isspace := unicode_14_isspace;
            unicode_todecimal := unicode_14_todecimal |}.
  - intros c d. unfold unicode_14_todecimal.
    destruct (List.find (in_run c) unicode_14_zeros) as [zero|] eqn:Hz;
      [|done].
    intros [= <-]. apply List.find_some in Hz as [_ Hz].
    unfold in_run in Hz. apply andb_true_iff in Hz as [H1 H2].
    apply N.leb_le in H1. apply N.ltb_lt in H2. lia.
  - intros c Hc. apply bool_decide_eq_true in Hc.
    unfold unicode_14_spaces in Hc.
    repeat (apply elem_of_cons in Hc as [->|Hc]; [reflexivity|]).
    by apply elem_of_nil in Hc.
Defined.


Definition arabic_indic_header : list N :=
  (Unicode.code_points "# ninja log v" ++ [1637; 10])%N.

(** * Properties *)

(** ** Lists *)

Lemma foldl_prefix_ind {S A} (f : S → A → S) (P : list A → S → Prop)
    (l : list A) (s0 : S) :
  P [] s0 →
  (∀ pre a suf s, l = pre ++ a :: suf → P pre s → P (pre ++ [a]) (f s a)) →
  P l (foldl f s0 l).
Proof.
  intros H0 Hstep.
  assert (∀ suf pre s, l = pre ++ suf → P pre s → P l (foldl f s suf))
    as Hgen.
  { induction suf as [|a suf IH]; intros pre s Hl HP; simpl.
    - rewrite app_nil_r in Hl. by subst.
    - apply (IH (pre ++ [a])); [by rewrite <- app_assoc|].
      eapply Hstep; eauto. }
  by apply (Hgen l [] s0).
Qed.

Lemma elem_of_snoc {A} (l : list A) (x y : A) : x ∈ l ++ [y] ↔ x ∈ l ∨ x = y.
Proof. by rewrite elem_of_app, list_elem_of_singleton. Qed.

Section ListFacts.
Context {A : Type} (P : A → Prop) `{!∀ x, Decision (P x)}.

Lemma filter_all (l : list A) : Forall P l → filter P l = l.
Proof.
  induction 1 as [|x l HP _ IH]; [done|].
  rewrite filter_cons_True by done. by rewrite IH.
Qed.

Lemma filter_mono_submseteq (l k : list A) :
  l ⊆+ k → filter P l ⊆+ filter P k.
Proof.
  induction 1 as [|x l k _ IH|x y l|x l k _ IH|l k m _ IH1 _ IH2].
  - done.
  - rewrite !filter_cons. destruct (decide (P x)); [by constructor|done].
  - rewrite !filter_cons.
    destruct (decide (P x)), (decide (P y)); try done. constructor.
  - rewrite filter_cons. destruct (decide (P x)); [by constructor|done].
  - by etrans.
Qed.
End ListFacts.

Global Instance Target_inhabited : Inhabited Target :=
  populate (mkTarget 0 0 EmptyString EmptyString None).

Lemma fmap_lookup_total_seq (ts : list Target) :
  (λ i, ts !!! i) <$> seq 0 (length ts) = ts.
Proof.
  apply list_eq. intros i. rewrite list_lookup_fmap.
  destruct (ts !! i) as [t|] eqn:Hi.
  - assert (i < length ts)%nat as Hlt by (by eapply lookup_lt_Some).
    rewrite (proj2 (lookup_seq 0 (length ts) i i)) by done. simpl.
    by rewrite (list_lookup_total_correct _ _ _ Hi).
  - apply lookup_ge_None in Hi.
    rewrite (proj2 (lookup_ge_None (seq 0 (length ts)) i)); [done|].
    by rewrite length_seq.
Qed.

(** Distinct positions that all hold records satisfying [P] are no more
    than the records satisfying [P]. *)
Lemma length_le_filter (P : Target → Prop) `{!∀ t, Decision (P t)}
    (ts : list Target) (L : list nat) :
  NoDup L →
  (∀ i, i ∈ L → ∃ t, ts !! i = Some t ∧ P t) →
  (length L ≤ length (filter P ts))%nat.
Proof.
  intros Hnd HL.
  assert (L ⊆+ seq 0 (length ts)) as Hsub.
  { apply NoDup_submseteq; [done|]. intros i Hi.
    destruct (HL i Hi) as (t & Ht & _). apply elem_of_seq.
    apply lookup_lt_Some in Ht. lia. }
  apply (fmap_submseteq (λ i, ts !!! i)) in Hsub.
  rewrite fmap_lookup_total_seq in Hsub.
  apply (filter_mono_submseteq P) in Hsub.
  apply submseteq_length in Hsub.
  rewrite filter_all, length_fmap in Hsub; [done|].
  apply Forall_fmap, Forall_forall. intros i Hi. simpl.
  destruct (HL i Hi) as (t & Ht & HP).
  by rewrite (list_lookup_total_correct _ _ _ Ht).
Qed.

(** ** [sorted] *)

Section SortedFacts.
Context {A : Type} (key : A → Z).
Implicit Types l : list A.

Lemma insert_by_key_perm x l : insert_by_key key x l ≡ₚ x :: l.
Proof.
  induction l as [|y l IH]; simpl; [done|].
  case_bool_decide; [done|]. rewrite IH. apply Permutation_swap.
Qed.

Lemma py_sorted_perm l : py_sorted key l ≡ₚ l.
Proof.
  induction l as [|x l IH]; simpl; [done|].
  by rewrite insert_by_key_perm, IH.
Qed.

Lemma insert_by_key_sorted x l :
  StronglySorted (key_le key) l →
  StronglySorted (key_le key) (insert_by_key key x l).
Proof.
  induction 1 as [|y l Hs IH Hall]; simpl.
  - repeat constructor.
  - case_bool_decide.
    + constructor; [by constructor|]. constructor; [done|].
      eapply Forall_impl; [exact Hall|]. unfold key_le. intros; lia.
    + constructor; [done|]. rewrite insert_by_key_perm.
      constructor; [unfold key_le; lia|done].
Qed.

Lemma py_sorted_sorted l : StronglySorted (key_le key) (py_sorted key l).
Proof.
  induction l as [|x l IH]; simpl; [constructor|].
  by apply insert_by_key_sorted.
Qed.
End SortedFacts.

(** [py_sorted] is stable: references come out ordered by key and, among
    equal keys, in the order they went in. *)
Lemma insert_by_key_stable (key : nat → Z) (x : nat) (l : list nat) :
  (∀ y, y ∈ l → (x < y)%nat) →
  StronglySorted (ref_before key) l →
  StronglySorted (ref_before key) (insert_by_key key x l).
Proof.
  intros Hx Hs. induction Hs as [|y l Hs IH Hall]; simpl.
  - repeat constructor.
  - pose proof (Hx y (list_elem_of_here _ _)) as Hxy.
    rewrite Forall_forall in Hall. case_bool_decide as Hk.
    + constructor; [by constructor; [|apply Forall_forall]|].
      apply Forall_forall. intros z Hz. unfold ref_before.
      apply elem_of_cons in Hz as [->|Hz]; [lia|].
      pose proof (Hx z (list_elem_of_further _ _ _ Hz)).
      destruct (Hall z Hz) as [?|[? ?]]; lia.
    + constructor.
      * apply IH. intros z Hz. by apply Hx, list_elem_of_further.
      * apply Forall_forall. intros z Hz.
        rewrite insert_by_key_perm in Hz.
        apply elem_of_cons in Hz as [->|Hz]; [left; lia|by apply Hall].
Qed.

Lemma py_sorted_seq_stable (key : nat → Z) (j n : nat) :
  StronglySorted (ref_before key) (py_sorted key (seq j n)).
Proof.
  revert j. induction n as [|n IH]; intros j; simpl; [constructor|].
  apply insert_by_key_stable; [|apply IH].
  intros y Hy. rewrite py_sorted_perm in Hy. apply elem_of_seq in Hy. lia.
Qed.

Lemma sorted_refs_stable ts :
  StronglySorted (ref_before (start_of ts)) (sorted_refs ts).
Proof. apply py_sorted_seq_stable. Qed.

(** ** The sweep of [assign_threads] *)

Lemma sorted_refs_perm ts : sorted_refs ts ≡ₚ seq 0 (length ts).
Proof. apply py_sorted_perm. Qed.

Lemma sorted_refs_elem ts i : i ∈ sorted_refs ts ↔ (i < length ts)%nat.
Proof. rewrite sorted_refs_perm, elem_of_seq. lia. Qed.

Lemma sorted_refs_NoDup ts : NoDup (sorted_refs ts).
Proof. rewrite sorted_refs_perm. apply NoDup_seq. Qed.

(** What one turn does to a record that has no thread yet: either it takes
    the first free thread [k], or every thread is busy and it opens thread
    [len(threads)]. *)
Lemma sweep_step_unscheduled heap threads r t0 :
  heap !! r = Some t0 → thread t0 = None →
  ∃ k threads',
    sweep_step (heap, threads) r
      = (<[r := set_thread t0 (Z.of_nat k)]> heap, threads')
    ∧ ((∃ e, threads !! k = Some e ∧ e ≤ start t0
             ∧ threads' = <[k := end_ t0]> threads)
       ∨ (k = length threads ∧ threads' = threads ++ [end_ t0]
          ∧ ∀ j e, threads !! j = Some e → start t0 < e)).
Proof.
  intros Hr Hth. unfold sweep_step. rewrite Hr.
  destruct (list_find _ threads) as [[k e]|] eqn:Hf.
  - apply list_find_Some in Hf as (Hk & He & _).
    exists k, (<[k := end_ t0]> threads). split; [done|]. left. by exists e.
  - rewrite Hth. apply list_find_None in Hf.
    exists (length threads), (threads ++ [end_ t0]). split; [done|].
    right. repeat split. intros j e Hj.
    rewrite Forall_forall in Hf.
    specialize (Hf e (list_elem_of_lookup_2 _ _ _ Hj)). lia.
Qed.

Section Sweep.
Variable ts0 : list Target.
Hypothesis Hfresh : ∀ t, t ∈ ts0 → thread t = None.

(** The turn for a reference [r] not handled yet, on a state that
    satisfies the frame invariant. *)
Lemma sweep_step_cases done heap threads r :
  sweep_frame ts0 done (heap, threads) → r ∉ done → (r < length ts0)%nat →
  ∃ t0 k threads',
    ts0 !! r = Some t0 ∧ heap !! r = Some t0
    ∧ sweep_step (heap, threads) r
        = (<[r := set_thread t0 (Z.of_nat k)]> heap, threads')
    ∧ ((∃ e, threads !! k = Some e ∧ e ≤ start t0
             ∧ threads' = <[k := end_ t0]> threads)
       ∨ (k = length threads ∧ threads' = threads ++ [end_ t0]
          ∧ ∀ j e, threads !! j = Some e → start t0 < e)).
Proof.
  intros [Hlen Htodo _] Hr Hlt. simpl in *.
  destruct (lookup_lt_is_Some_2 ts0 r Hlt) as [t0 Ht0].
  assert (heap !! r = Some t0) as Hh by (by rewrite Htodo).
  destruct (sweep_step_unscheduled heap threads r t0 Hh) as (k & th' & ?).
  { apply Hfresh. by eapply list_elem_of_lookup_2. }
  by exists t0, k, th'.
Qed.

Lemma sweep_frame_step done st r :
  sweep_frame ts0 done st → r ∉ done → (r < length ts0)%nat →
  sweep_frame ts0 (done ++ [r]) (sweep_step st r).
Proof.
  destruct st as [heap threads]. intros Hinv Hr Hlt.
  destruct (sweep_step_cases _ _ _ _ Hinv Hr Hlt)
    as (t0 & k & th' & Ht0 & Hh & -> & Hcase).
  destruct Hinv as [Hlen Htodo Hdone]. simpl in *.
  assert (k < length th' ∧ length threads ≤ length th')%nat as [Hk Hle].
  { destruct Hcase as [(e & He & _ & ->)|(-> & -> & _)].
    - rewrite length_insert. apply lookup_lt_Some in He. lia.
    - rewrite length_app. simpl. lia. }
  split; simpl.
  - by rewrite length_insert.
  - intros i Hi. rewrite elem_of_snoc in Hi.
    rewrite list_lookup_insert_ne by (intros ->; tauto). apply Htodo. tauto.
  - intros i Hi. destruct (decide (i = r)) as [->|Hne].
    + exists t0, k. rewrite list_lookup_insert_eq by lia. done.
    + assert (i ∈ done) as Hi'.
      { apply elem_of_snoc in Hi. by destruct Hi. }
      destruct (Hdone i Hi') as (t & k' & ? & ? & ?).
      exists t, k'. rewrite list_lookup_insert_ne by done.
      repeat split; [done..|lia].
Qed.

Lemma sweep_frame_final : sweep_frame ts0 (sorted_refs ts0) (sweep ts0).
Proof.
  unfold sweep. apply (foldl_prefix_ind sweep_step (sweep_frame ts0)).
  - split; simpl; [done|done|]. intros i Hi. by apply elem_of_nil in Hi.
  - intros pre r suf st Heq Hinv.
    pose proof (sorted_refs_NoDup ts0) as Hnd. rewrite Heq in Hnd.
    apply NoDup_app in Hnd as (_ & Hnot & _).
    apply sweep_frame_step; [done| |].
    + intros Hin. apply (Hnot r Hin). apply elem_of_cons. by left.
    + apply sorted_refs_elem. rewrite Heq, elem_of_app, elem_of_cons.
      right. by left.
Qed.

(** After the call every record is the record it was, with a thread. *)
Lemma sweep_lookup i t0 :
  ts0 !! i = Some t0 →
  ∃ k, (sweep ts0).1 !! i = Some (set_thread t0 (Z.of_nat k))
       ∧ (k < length (sweep ts0).2)%nat.
Proof.
  intros Hi. destruct sweep_frame_final as [_ _ Hdone].
  destruct (Hdone i) as (t & k & Ht & ? & ?).
  { apply sorted_refs_elem. by eapply lookup_lt_Some. }
  exists k. by simplify_eq.
Qed.
End Sweep.

Section SweepSep.
Variable ts0 : list Target.
Hypothesis Hfresh : ∀ t, t ∈ ts0 → thread t = None.
Hypothesis Hdur : ∀ t, t ∈ ts0 → start t ≤ end_ t.

Lemma sweep_sep_step done st r :
  sweep_frame ts0 done st → sweep_sep done st →
  r ∉ done → (r < length ts0)%nat →
  sweep_sep (done ++ [r]) (sweep_step st r).
Proof.
  destruct st as [heap threads]. intros Hfr Hsep Hr Hlt.
  destruct (sweep_step_cases ts0 Hfresh _ _ _ _ Hfr Hr Hlt)
    as (t0 & k & th' & Ht0 & Hh & -> & Hcase).
  pose proof (Hdur t0 (list_elem_of_lookup_2 _ _ _ Ht0)) as Hd.
  destruct Hfr as [Hlen Htodo Hdone]. destruct Hsep as [Hbound Hpair].
  simpl in *.
  assert (r < length heap)%nat as Hrl by lia.
  assert (Hold : ∀ i t, i ∈ done →
            <[r:=set_thread t0 (Z.of_nat k)]> heap !! i = Some t →
            heap !! i = Some t
            ∧ ∃ k', thread t = Some (Z.of_nat k')
                    ∧ (k' < length threads)%nat).
  { intros i t Hi Hl. assert (i ≠ r) by congruence.
    rewrite list_lookup_insert_ne in Hl by done. split; [done|].
    destruct (Hdone i Hi) as (t1 & k' & _ & Hl' & Hk').
    rewrite Hl in Hl'. injection Hl' as ->. by exists k'. }
  assert (Hnew : ∀ j tj, j ∈ done → heap !! j = Some tj →
            thread tj = Some (Z.of_nat k) → end_ tj ≤ start t0).
  { intros j tj Hj Hl Hth.
    destruct Hcase as [(e & He & Hle & _)|(-> & _ & _)].
    - pose proof (Hbound j tj k e Hj Hl Hth He). lia.
    - destruct (Hdone j Hj) as (t1 & k' & _ & Hl' & Hk').
      rewrite Hl in Hl'. injection Hl' as ->. simpl in Hth.
      injection Hth as Hth. lia. }
  split; simpl.
  - intros i t k' e Hi Hl Hth He. apply elem_of_snoc in Hi as [Hi| ->].
    + destruct (Hold i t Hi Hl) as (Hl0 & k'' & Hth' & Hk'').
      rewrite Hth in Hth'. injection Hth' as Heq.
      apply Nat2Z.inj in Heq as <-.
      destruct Hcase as [(e0 & He0 & Hle & ->)|(-> & -> & _)].
      * destruct (decide (k' = k)) as [->|Hne].
        -- rewrite list_lookup_insert_eq in He by done.
           injection He as <-. pose proof (Hnew i t Hi Hl0 Hth). lia.
        -- rewrite list_lookup_insert_ne in He by done. eauto.
      * rewrite lookup_app_l in He by done. eauto.
    + rewrite list_lookup_insert_eq in Hl by done. injection Hl as <-.
      simpl in *. injection Hth as Heq. apply Nat2Z.inj in Heq as <-.
      destruct Hcase as [(e0 & He0 & Hle & ->)|(-> & -> & _)].
      * rewrite list_lookup_insert_eq in He by (by eapply lookup_lt_Some).
        injection He as <-. lia.
      * rewrite lookup_app_r, Nat.sub_diag in He by done. simpl in He.
        injection He as <-. lia.
  - intros i j ti tj Hne Hi Hj Hli Hlj Hth.
    apply elem_of_snoc in Hi as [Hi| ->];
      apply elem_of_snoc in Hj as [Hj| ->].
    + destruct (Hold i ti Hi Hli) as [Hli0 _].
      destruct (Hold j tj Hj Hlj) as [Hlj0 _]. eauto.
    + destruct (Hold i ti Hi Hli) as [Hli0 _].
      rewrite list_lookup_insert_eq in Hlj by done. injection Hlj as <-.
      simpl in Hth. left. simpl. by apply (Hnew i ti Hi Hli0).
    + destruct (Hold j tj Hj Hlj) as [Hlj0 _].
      rewrite list_lookup_insert_eq in Hli by done. injection Hli as <-.
      simpl in Hth. right. simpl. by apply (Hnew j tj Hj Hlj0).
    + done.
Qed.

Lemma sweep_sep_final : sweep_sep (sorted_refs ts0) (sweep ts0).
Proof.
  unfold sweep.
  apply (foldl_prefix_ind sweep_step
           (λ done st, sweep_frame ts0 done st ∧ sweep_sep done st)).
  - split; split; simpl; try done.
    + intros i Hi. by apply elem_of_nil in Hi.
    + intros i t k e Hi. by apply elem_of_nil in Hi.
    + intros i j ti tj _ Hi. by apply elem_of_nil in Hi.
  - intros pre r suf st Heq [Hfr Hsep].
    pose proof (sorted_refs_NoDup ts0) as Hnd. rewrite Heq in Hnd.
    apply NoDup_app in Hnd as (_ & Hnot & _).
    assert (r ∉ pre) as Hr.
    { intros Hin. apply (Hnot r Hin). apply elem_of_cons. by left. }
    assert (r < length ts0)%nat as Hlt.
    { apply sorted_refs_elem. rewrite Heq, elem_of_app, elem_of_cons.
      right. by left. }
    split; [by apply sweep_frame_step|by apply sweep_sep_step].
Qed.
End SweepSep.

Section SweepMin.
Variable ts0 : list Target.
Hypothesis Hfresh : ∀ t, t ∈ ts0 → thread t = None.
Hypothesis Hpos : ∀ t, t ∈ ts0 → 0 ≤ start t < end_ t.

(** When every thread is busy at [x], the last occupants of the first
    [d] threads are [d] distinct records, all ending after [x]. *)
Lemma busy_occupants done heap threads x d :
  sweep_min ts0 done (heap, threads) → 0 ≤ x →
  (∀ j e, threads !! j = Some e → x < e) →
  (d ≤ length threads)%nat →
  ∃ L, length L = d ∧ NoDup L
       ∧ ∀ i, i ∈ L →
           i ∈ done
           ∧ ∃ t k, heap !! i = Some t ∧ thread t = Some (Z.of_nat k)
                    ∧ (k < d)%nat ∧ x < end_ t.
Proof.
  intros [Hocc _] Hx Hbusy. simpl in *.
  induction d as [|d IH]; intros Hd.
  - exists []. split; [done|]. split; [apply NoDup_nil_2|].
    intros i Hi. by apply elem_of_nil in Hi.
  - destruct IH as (L & HlenL & Hnd & HL); [lia|].
    destruct (lookup_lt_is_Some_2 threads d) as [e He]; [lia|].
    pose proof (Hbusy d e He) as Hlt.
    destruct (Hocc d e He) as [[_ ->]|(i & t & Hi & Hl & Hth & Hend)];
      [lia|].
    exists (i :: L). split; [simpl; by rewrite HlenL|]. split.
    + apply NoDup_cons. split; [|done]. intros HiL.
      destruct (HL i HiL) as (_ & t' & k & Hl' & Hth' & Hk & _).
      rewrite Hl in Hl'. injection Hl' as <-. rewrite Hth in Hth'.
      injection Hth' as Heq. lia.
    + intros i' Hi'. apply elem_of_cons in Hi' as [->|Hi'].
      * split; [done|]. exists t, d. repeat split; [done..|lia|lia].
      * destruct (HL i' Hi') as (? & t' & k & ? & ? & ? & ?).
        split; [done|]. exists t', k. repeat split; [done..|lia|done].
Qed.

Lemma sweep_min_step done st r :
  sweep_frame ts0 done st → sweep_min ts0 done st →
  r ∉ done → (r < length ts0)%nat →
  (∀ i, i ∈ done → start_of ts0 i ≤ start_of ts0 r) →
  sweep_min ts0 (done ++ [r]) (sweep_step st r).
Proof.
  destruct st as [heap threads]. intros Hfr Hmin Hr Hlt Hsorted.
  destruct (sweep_step_cases ts0 Hfresh _ _ _ _ Hfr Hr Hlt)
    as (t0 & k & th' & Ht0 & Hh & -> & Hcase).
  pose proof (Hpos t0 (list_elem_of_lookup_2 _ _ _ Ht0)) as Hp.
  pose proof Hmin as [Hocc Hcnt]. pose proof Hfr as [Hlen Htodo Hdone].
  simpl in *.
  assert (r < length heap)%nat as Hrl by lia.
  assert (Hkeep : ∀ k' e,
            (k' = 0%nat ∧ e = 0
             ∨ ∃ i t, i ∈ done ∧ heap !! i = Some t
                      ∧ thread t = Some (Z.of_nat k') ∧ end_ t = e) →
            k' = 0%nat ∧ e = 0
            ∨ ∃ i t, i ∈ done ++ [r]
                     ∧ <[r:=set_thread t0 (Z.of_nat k)]> heap !! i = Some t
                     ∧ thread t = Some (Z.of_nat k') ∧ end_ t = e).
  { intros k' e [?|(i & t & Hi & Hl & Hth & Hend)]; [by left|right].
    exists i, t. assert (i ≠ r) by congruence.
    rewrite list_lookup_insert_ne by done.
    repeat split; [|done..]. apply elem_of_snoc. by left. }
  assert (Hmine : ∃ i t, i ∈ done ++ [r]
            ∧ <[r:=set_thread t0 (Z.of_nat k)]> heap !! i = Some t
            ∧ thread t = Some (Z.of_nat k) ∧ end_ t = end_ t0).
  { exists r, (set_thread t0 (Z.of_nat k)).
    rewrite list_lookup_insert_eq by done.
    repeat split. apply elem_of_snoc. by right. }
  split; simpl.
  - intros k' e He.
    destruct Hcase as [(e0 & He0 & Hle & ->)|(-> & -> & Hbusy)].
    + destruct (decide (k' = k)) as [->|Hne].
      * rewrite list_lookup_insert_eq in He by (by eapply lookup_lt_Some).
        injection He as <-. by right.
      * rewrite list_lookup_insert_ne in He by done. by apply Hkeep, Hocc.
    + apply lookup_snoc_Some in He as [[_ He]|[-> <-]].
      * by apply Hkeep, Hocc.
      * by right.
  - destruct Hcase as [(e0 & He0 & Hle & ->)|(-> & -> & Hbusy)].
    + by rewrite length_insert.
    + right. exists (start t0). rewrite length_app. simpl.
      destruct (busy_occupants done heap threads (start t0)
                  (length threads) Hmin) as (L & HlenL & Hnd & HL);
        [lia|done|done|].
      unfold in_flight_count. simpl.
      assert (length (r :: L) ≤ length (filter (in_flight (start t0)) ts0))%nat
        as Hle; [|simpl in Hle; lia].
      apply length_le_filter.
      * apply NoDup_cons. split; [|done]. intros HrL.
        by destruct (HL r HrL) as [? _].
      * intros i Hi. apply elem_of_cons in Hi as [->|Hi].
        -- exists t0. split; [done|]. unfold in_flight. lia.
        -- destruct (HL i Hi) as (Hid & t & k' & Hl & _ & _ & Hend).
           destruct (Hdone i Hid) as (ti & k'' & Hti & Hl' & _).
           rewrite Hl in Hl'. injection Hl' as ->. simpl in Hend.
           exists ti. split; [done|]. unfold in_flight.
           specialize (Hsorted i Hid). unfold start_of in Hsorted.
           rewrite Hti, Ht0 in Hsorted. simpl in Hsorted. lia.
Qed.

Lemma sweep_min_final : sweep_min ts0 (sorted_refs ts0) (sweep ts0).
Proof.
  unfold sweep.
  apply (foldl_prefix_ind sweep_step
           (λ done st, sweep_frame ts0 done st ∧ sweep_min ts0 done st)).
  - split; split; simpl; try done.
    + intros i Hi. by apply elem_of_nil in Hi.
    + intros [|k] e He; [left|done]. simpl in He. by injection He as <-.
    + by left.
  - intros pre r suf st Heq [Hfr Hmin].
    pose proof (sorted_refs_NoDup ts0) as Hnd. rewrite Heq in Hnd.
    apply NoDup_app in Hnd as (_ & Hnot & _).
    assert (r ∉ pre) as Hr.
    { intros Hin. apply (Hnot r Hin). apply elem_of_cons. by left. }
    assert (r < length ts0)%nat as Hlt.
    { apply sorted_refs_elem. rewrite Heq, elem_of_app, elem_of_cons.
      right. by left. }
    split; [by apply sweep_frame_step|].
    apply sweep_min_step; [done..|].
    intros i Hi.
    pose proof (py_sorted_sorted (start_of ts0) (seq 0 (length ts0)))
      as Hs.
    fold (sorted_refs ts0) in Hs. rewrite Heq in Hs.
    apply (StronglySorted_app_1_elem_of _ _ _ i r Hs Hi).
    apply elem_of_cons. by left.
Qed.
End SweepMin.

(** ** The scheduler *)

Lemma unscheduled_elem b t : unscheduled b → t ∈ targets b → thread t = None.
Proof. unfold unscheduled. rewrite Forall_forall. auto. Qed.

Lemma filter_fmap_comp {A B} (f : A → B) (P : B → Prop)
    `{!∀ y, Decision (P y)} (l : list A) :
  filter P (f <$> l) = f <$> filter (λ x, P (f x)) l.
Proof.
  induction l as [|x l IH]; [done|]. rewrite fmap_cons, !filter_cons.
  destruct (decide (P (f x))); by rewrite IH.
Qed.

(** Records in flight at one instant sit on distinct threads. *)
Lemma in_flight_le_threads (b : Build) (x : Z) :
  unscheduled b → Forall (λ t, start t ≤ end_ t) (targets b) →
  (in_flight_count x b ≤ num_threads (assign_threads b))%nat.
Proof.
  intros Hf Hd. unfold in_flight_count, num_threads, assign_threads. simpl.
  set (ts0 := targets b). set (res := (sweep ts0).1).
  assert (Hfresh : ∀ t, t ∈ ts0 → thread t = None).
  { intros t. by apply unscheduled_elem. }
  assert (Hdur : ∀ t, t ∈ ts0 → start t ≤ end_ t).
  { by apply Forall_forall. }
  destruct (sweep_sep_final ts0 Hfresh Hdur) as [_ Hpair].
  fold res in Hpair.
  set (I := filter (λ i, in_flight x (ts0 !!! i)) (seq 0 (length ts0))).
  assert (length (filter (in_flight x) ts0) = length I) as ->.
  { rewrite <- (fmap_lookup_total_seq ts0) at 1.
    by rewrite filter_fmap_comp, length_fmap. }
  set (h := λ i : nat, default 0 (thread (res !!! i))).
  assert (HI : ∀ i, i ∈ I →
            ∃ t0 k, ts0 !! i = Some t0 ∧ in_flight x t0
                    ∧ res !! i = Some (set_thread t0 (Z.of_nat k))
                    ∧ h i = Z.of_nat k).
  { intros i Hi. apply list_elem_of_filter in Hi as [Hin Hi].
    apply elem_of_seq in Hi.
    destruct (lookup_lt_is_Some_2 ts0 i) as [t0 Ht0]; [lia|].
    rewrite (list_lookup_total_correct _ _ _ Ht0) in Hin.
    destruct (sweep_lookup ts0 Hfresh i t0 Ht0) as (k & Hres & _).
    exists t0, k. split; [done|]. split; [done|]. split; [done|].
    unfold h, res. by erewrite list_lookup_total_correct; [|exact Hres]. }
  rewrite <- (length_fmap h I). apply submseteq_length, NoDup_submseteq.
  - apply NoDup_fmap_2_strong; [|apply NoDup_filter, NoDup_seq].
    intros i j Hi Hj Heq. destruct (decide (i = j)) as [|Hne]; [done|].
    destruct (HI i Hi) as (ti & ki & Hti & Hfi & Hri & Hhi).
    destruct (HI j Hj) as (tj & kj & Htj & Hfj & Hrj & Hhj).
    assert (non_conflicting (set_thread ti (Z.of_nat ki))
                            (set_thread tj (Z.of_nat kj))) as Hnc.
    { apply (Hpair i j); try done.
      - apply sorted_refs_elem. by eapply lookup_lt_Some.
      - apply sorted_refs_elem. by eapply lookup_lt_Some.
      - simpl. congruence. }
    unfold non_conflicting, in_flight in *. simpl in Hnc. lia.
  - intros k Hk. apply list_elem_of_fmap in Hk as (i & -> & Hi).
    destruct (HI i Hi) as (ti & ki & _ & _ & Hri & ->).
    apply elem_of_remove_dups, list_elem_of_omap.
    exists (set_thread ti (Z.of_nat ki)). split; [|done].
    by eapply list_elem_of_lookup_2.
Qed.

(** The threads assigned are among the threads of the final list. *)
Lemma num_threads_le_length (b : Build) :
  unscheduled b →
  (num_threads (assign_threads b) ≤ length (sweep (targets b)).2)%nat.
Proof.
  intros Hf. unfold num_threads, assign_threads. simpl.
  set (ts0 := targets b).
  assert (Hfresh : ∀ t, t ∈ ts0 → thread t = None).
  { intros t. by apply unscheduled_elem. }
  pose proof (sweep_frame_final ts0 Hfresh) as [Hlen _ _].
  trans (length (Z.of_nat <$> seq 0 (length (sweep ts0).2)));
    [|by rewrite length_fmap, length_seq].
  apply submseteq_length, NoDup_submseteq; [apply NoDup_remove_dups|].
  intros k Hk.
  apply elem_of_remove_dups, list_elem_of_omap in Hk as (t & Ht & Hth).
  apply list_elem_of_lookup_1 in Ht as [i Hi].
  destruct (lookup_lt_is_Some_2 ts0 i) as [t0 Ht0].
  { rewrite <- Hlen. by eapply lookup_lt_Some. }
  destruct (sweep_lookup ts0 Hfresh i t0 Ht0) as (k' & Hres & Hk').
  rewrite Hi in Hres. injection Hres as ->. simpl in Hth.
  injection Hth as <-. apply list_elem_of_fmap. exists k'. split; [done|].
  apply elem_of_seq. lia.
Qed.

Lemma assign_threads_frame_length (b : Build) :
  unscheduled b →
  length (targets (assign_threads b)) = length (targets b).
Proof.
  intros Hf.
  assert (Hfresh : ∀ t, t ∈ targets b → thread t = None).
  { intros t. by apply unscheduled_elem. }
  by destruct (sweep_frame_final (targets b) Hfresh) as [Hlen _ _].
Qed.

(** C10: [assign_threads] leaves the list of records as long as it was and
    every record in its place with its start, end, name and hash; each
    record comes back with a thread that is a non-negative integer. *)
Theorem assign_threads_frame (b : Build) :
  unscheduled b →
  length (targets (assign_threads b)) = length (targets b)
  ∧ ∀ i t0, targets b !! i = Some t0 →
      ∃ t k, targets (assign_threads b) !! i = Some t
             ∧ start t = start t0 ∧ end_ t = end_ t0
             ∧ name t = name t0 ∧ hash t = hash t0
             ∧ thread t = Some k ∧ 0 ≤ k.
Proof.
  intros Hf.
  assert (Hfresh : ∀ t, t ∈ targets b → thread t = None).
  { intros t. by apply unscheduled_elem. }
  split.
  - by destruct (sweep_frame_final (targets b) Hfresh) as [Hlen _ _].
  - intros i t0 Hi.
    destruct (sweep_lookup (targets b) Hfresh i t0 Hi) as (k & Hres & _).
    exists (set_thread t0 (Z.of_nat k)), (Z.of_nat k).
    repeat split; [done|lia].
Qed.

(** C1: after [assign_threads] on a build whose records all have
    [end >= start], two distinct records with the same thread do not
    conflict: one ends no later than the other starts. *)
Theorem assign_threads_no_overlap (b : Build) :
  unscheduled b → Forall (λ t, start t ≤ end_ t) (targets b) →
  ∀ i j ti tj, i ≠ j →
    targets (assign_threads b) !! i = Some ti →
    targets (assign_threads b) !! j = Some tj →
    thread ti = thread tj →
    non_conflicting ti tj.
Proof.
  intros Hf Hd i j ti tj Hne Hi Hj Hth.
  assert (Hfresh : ∀ t, t ∈ targets b → thread t = None).
  { intros t. by apply unscheduled_elem. }
  assert (Hdur : ∀ t, t ∈ targets b → start t ≤ end_ t).
  { by apply Forall_forall. }
  destruct (sweep_sep_final (targets b) Hfresh Hdur) as [_ Hpair].
  destruct (sweep_frame_final (targets b) Hfresh) as [Hlen _ _].
  simpl in Hi, Hj.
  apply (Hpair i j); try done; apply sorted_refs_elem; rewrite <- Hlen;
    by eapply lookup_lt_Some.
Qed.

(** C2, as amended: on a build whose records all have
    [0 <= start < end], the number of distinct threads assigned is the
    greatest number of records in flight at one instant. *)
Theorem assign_threads_minimal (b : Build) :
  unscheduled b → Forall (λ t, 0 ≤ start t < end_ t) (targets b) →
  max_in_flight b (num_threads (assign_threads b)).
Proof.
  intros Hf Hp.
  assert (Hd : Forall (λ t, start t ≤ end_ t) (targets b)).
  { eapply Forall_impl; [exact Hp|]. simpl. intros; lia. }
  assert (Hfresh : ∀ t, t ∈ targets b → thread t = None).
  { intros t. by apply unscheduled_elem. }
  assert (Hpos : ∀ t, t ∈ targets b → 0 ≤ start t < end_ t).
  { by apply Forall_forall. }
  split; [intros x; by apply in_flight_le_threads|].
  pose proof (num_threads_le_length b Hf) as Hle.
  destruct (sweep_min_final (targets b) Hfresh Hpos) as [_ [Hone|[x Hx]]].
  - rewrite Hone in Hle. destruct b as [[|t0 ts]].
    + exists 0. reflexivity.
    + exists (start t0).
      pose proof (in_flight_le_threads _ (start t0) Hf Hd) as Hge.
      assert (1 ≤ in_flight_count (start t0) (mkBuild (t0 :: ts)))%nat;
        [|lia].
      unfold in_flight_count. simpl.
      specialize (Hpos t0 (list_elem_of_here _ _)).
      rewrite filter_cons_True by (unfold in_flight; lia).
      rewrite length_cons. lia.
  - exists x. pose proof (in_flight_le_threads b x Hf Hd).
    destruct b as [ts]. simpl in *. lia.
Qed.

Lemma assign_threads_frame_witness :
  unscheduled build_abc
  ∧ length (targets (assign_threads build_abc)) = length (targets build_abc)
  ∧ ∀ i t0, targets build_abc !! i = Some t0 →
      ∃ t k, targets (assign_threads build_abc) !! i = Some t
             ∧ start t = start t0 ∧ end_ t = end_ t0
             ∧ name t = name t0 ∧ hash t = hash t0
             ∧ thread t = Some k ∧ 0 ≤ k.
Proof.
  assert (unscheduled build_abc) as H by (repeat constructor).
  split; [exact H|]. exact (assign_threads_frame build_abc H).
Defined.

Example assign_threads_example :
  assign_threads build_abc
  = mkBuild [mkTarget 0 10 "a" "h1" (Some 0); mkTarget 2 8 "b" "h2" (Some 1);
             mkTarget 10 12 "c" "h3" (Some 0)].
Proof. reflexivity. Qed.

Lemma assign_threads_no_overlap_witness :
  non_conflicting (mkTarget 0 10 "a" "h1" (Some 0))
                  (mkTarget 10 12 "c" "h3" (Some 0)).
Proof.
  apply (assign_threads_no_overlap build_abc) with (i := 0%nat) (j := 2%nat).
  - repeat constructor.
  - repeat constructor; simpl; lia.
  - lia.
  - reflexivity.
  - reflexivity.
  - reflexivity.
Defined.

Lemma assign_threads_minimal_witness :
  max_in_flight build_abc (num_threads (assign_threads build_abc)).
Proof.
  apply (assign_threads_minimal build_abc).
  - repeat constructor.
  - repeat constructor; simpl; lia.
Defined.

(** The claim C2 as stated fails on a record of zero duration: [b] starts
    while [a] runs and gets a thread of its own, yet it is in flight at no
    instant. *)
Lemma minimal_fails_zero_duration :
  unscheduled build_zero_duration
  ∧ Forall (λ t, start t ≤ end_ t) (targets build_zero_duration)
  ∧ num_threads (assign_threads build_zero_duration) = 2%nat
  ∧ ¬ max_in_flight build_zero_duration
        (num_threads (assign_threads build_zero_duration)).
Proof.
  split; [repeat constructor|]. split; [repeat constructor; simpl; lia|].
  split; [reflexivity|]. intros [_ [x Hx]].
  change (num_threads (assign_threads build_zero_duration)) with 2%nat in Hx.
  unfold in_flight_count, build_zero_duration in Hx. simpl in Hx.
  rewrite !filter_cons, filter_nil in Hx.
  destruct (decide (in_flight x (record 0 10 "a" "h1"))) as [Ha|Ha];
    destruct (decide (in_flight x (record 5 5 "b" "h2"))) as [Hb|Hb];
    simpl in Hx; try discriminate.
  unfold in_flight in Hb. simpl in Hb. lia.
Qed.

(** It fails as well on a start before 0: thread 0 is free from 0 on only,
    so the first record opens thread 1 and the second takes thread 0. *)
Lemma minimal_fails_negative_start :
  unscheduled build_negative_start
  ∧ Forall (λ t, start t ≤ end_ t) (targets build_negative_start)
  ∧ num_threads (assign_threads build_negative_start) = 2%nat
  ∧ ¬ max_in_flight build_negative_start
        (num_threads (assign_threads build_negative_start)).
Proof.
  split; [repeat constructor|]. split; [repeat constructor; simpl; lia|].
  split; [reflexivity|]. intros [_ [x Hx]].
  change (num_threads (assign_threads build_negative_start)) with 2%nat in Hx.
  unfold in_flight_count, build_negative_start in Hx. simpl in Hx.
  rewrite !filter_cons, filter_nil in Hx.
  destruct (decide (in_flight x (record (-5) (-1) "a" "h1"))) as [Ha|Ha];
    destruct (decide (in_flight x (record 3 4 "b" "h2"))) as [Hb|Hb];
    simpl in Hx; try discriminate.
  unfold in_flight in Ha, Hb. simpl in Ha, Hb. lia.
Qed.

(** ** The segmenter *)

Lemma targets_contain_name ts nt :
  targets_contain ts nt = true ↔ ∃ t, t ∈ ts ∧ name t = name nt.
Proof.
  induction ts as [|t ts IH]; simpl.
  - split; [done|]. intros (t & Ht & _). by apply elem_of_nil in Ht.
  - destruct (String.eqb (name t) (name nt)) eqn:Heq.
    + apply String.eqb_eq in Heq. split; [|done]. intros _.
      exists t. split; [apply list_elem_of_here|done].
    + apply String.eqb_neq in Heq. rewrite IH. split.
      * intros (t' & Ht' & Hn). exists t'. split; [by apply list_elem_of_further|done].
      * intros (t' & Ht' & Hn). apply elem_of_cons in Ht' as [->|Ht'];
          [done|]. by exists t'.
Qed.

Lemma segment_step_new builds cb nt :
  last builds = Some cb → need_new_build cb nt = true →
  segment_step builds nt = builds ++ [mkBuild [nt]].
Proof. intros Hl Hn. unfold segment_step. by rewrite Hl, Hn. Qed.

Lemma segment_step_join builds cb nt :
  last builds = Some cb → need_new_build cb nt = false →
  segment_step builds nt = removelast builds ++ [add_target cb nt].
Proof.
  intros Hl Hn. unfold segment_step, add_to_last. by rewrite Hl, Hn.
Qed.

(** A record either begins a build or joins the current one, as
    [need_new_build] says. *)
Lemma begins_iff_need builds cb nt :
  last builds = Some cb →
  begins_new_build builds nt ↔ need_new_build cb nt = true.
Proof.
  intros Hl. unfold begins_new_build. split.
  - destruct (need_new_build cb nt) eqn:Hn; [done|].
    rewrite (segment_step_join _ _ _ Hl Hn). intros Heq.
    apply (f_equal length) in Heq. rewrite !length_app in Heq.
    apply last_Some in Hl as [l' ->].
    rewrite removelast_last, length_app in Heq. simpl in Heq. lia.
  - by apply segment_step_new.
Qed.

Lemma joins_iff_need builds cb nt :
  last builds = Some cb →
  joins_current_build builds nt ↔ need_new_build cb nt = false.
Proof.
  intros Hl. unfold joins_current_build. split.
  - intros (cb' & Hl' & Heq). rewrite Hl in Hl'. injection Hl' as <-.
    destruct (need_new_build cb nt) eqn:Hn; [|done].
    rewrite (segment_step_new _ _ _ Hl Hn) in Heq.
    apply (f_equal length) in Heq. rewrite !length_app in Heq.
    apply last_Some in Hl as [l' ->].
    rewrite removelast_last, length_app in Heq. simpl in Heq. lia.
  - intros Hn. exists cb. split; [done|]. by apply segment_step_join.
Qed.

(** C3, as amended: when the current build is not empty and the end time
    does not go back, a record begins a new build exactly when the current
    build has a record of the same name, whatever the hashes; otherwise it
    joins the current build. *)
Theorem new_build_on_same_name (builds : list Build) (cb : Build)
    (latest nt : Target) :
  last builds = Some cb → last (targets cb) = Some latest →
  end_ latest ≤ end_ nt →
  (begins_new_build builds nt ↔ ∃ t, t ∈ targets cb ∧ name t = name nt)
  ∧ (joins_current_build builds nt
     ↔ ¬ ∃ t, t ∈ targets cb ∧ name t = name nt).
Proof.
  intros Hb Hl Hend.
  rewrite (begins_iff_need _ _ _ Hb), (joins_iff_need _ _ _ Hb).
  rewrite <- targets_contain_name.
  unfold need_new_build, Build_contains. rewrite Hl.
  destruct (targets_contain (targets cb) nt); [by split|].
  rewrite bool_decide_eq_true, bool_decide_eq_false. split; [|split; [done|lia]].
  split; [lia|done].
Qed.

Lemma new_build_on_same_name_witness :
  begins_new_build [mkBuild [record 0 5 "x" "h1"]] (record 6 10 "x" "h2")
  ↔ ∃ t, t ∈ [record 0 5 "x" "h1"] ∧ name t = name (record 6 10 "x" "h2").
Proof.
  apply (new_build_on_same_name [mkBuild [record 0 5 "x" "h1"]]
           (mkBuild [record 0 5 "x" "h1"]) (record 0 5 "x" "h1")).
  - reflexivity.
  - reflexivity.
  - simpl. lia.
Defined.

(** The claim C3 as stated fails: a record with the name of an earlier
    record and another hash begins a new build, although the end time does
    not go back and no record of the build has its name and hash. *)
Lemma same_name_other_hash_begins_build :
  let a := record 0 5 "x" "h1" in
  let b := record 6 10 "x" "h2" in
  last [mkBuild [a]] = Some (mkBuild [a])
  ∧ end_ a ≤ end_ b
  ∧ begins_new_build [mkBuild [a]] b
  ∧ segment [a; b] = [mkBuild [a]; mkBuild [b]]
  ∧ ¬ ∃ t, t ∈ [a] ∧ name t = name b ∧ hash t = hash b.
Proof.
  simpl. split; [reflexivity|]. split; [lia|]. split; [reflexivity|].
  split; [reflexivity|]. intros (t & Ht & _ & Hh).
  apply list_elem_of_singleton in Ht as ->. discriminate Hh.
Qed.

(** C4, as amended: when the current build is not empty and has no record
    of the same name, a record begins a new build exactly when its end is
    before the end of the record added last; otherwise it joins the current
    build. *)
Theorem new_build_on_regression (builds : list Build) (cb : Build)
    (latest nt : Target) :
  last builds = Some cb → last (targets cb) = Some latest →
  (∀ t, t ∈ targets cb → name t ≠ name nt) →
  (begins_new_build builds nt ↔ end_ nt < end_ latest)
  ∧ (joins_current_build builds nt ↔ end_ latest ≤ end_ nt).
Proof.
  intros Hb Hl Hname.
  rewrite (begins_iff_need _ _ _ Hb), (joins_iff_need _ _ _ Hb).
  unfold need_new_build, Build_contains. rewrite Hl.
  destruct (targets_contain (targets cb) nt) eqn:Hc.
  - apply targets_contain_name in Hc as (t & Ht & Hn).
    by destruct (Hname t Ht).
  - rewrite bool_decide_eq_true, bool_decide_eq_false. split; [done|lia].
Qed.

Lemma new_build_on_regression_witness :
  (begins_new_build [mkBuild [record 0 10 "A" "h1"]] (record 1 5 "B" "h2")
   ↔ 5 < 10)
  ∧ segment [record 0 10 "A" "h1"; record 1 5 "B" "h2"]
    = [mkBuild [record 0 10 "A" "h1"]; mkBuild [record 1 5 "B" "h2"]]
  ∧ segment [record 0 10 "A" "h1"; record 1 10 "B" "h2"]
    = [mkBuild [record 0 10 "A" "h1"; record 1 10 "B" "h2"]].
Proof.
  split; [|split; reflexivity].
  apply (new_build_on_regression [mkBuild [record 0 10 "A" "h1"]]
           (mkBuild [record 0 10 "A" "h1"]) (record 0 10 "A" "h1")
           (record 1 5 "B" "h2")).
  - reflexivity.
  - reflexivity.
  - intros t Ht. apply list_elem_of_singleton in Ht as ->. discriminate.
Defined.

(** The claim C4 as stated fails on the same input: the build has no
    record with the name and hash of [b], the end of [b] is not before the
    end of [a], and [b] begins a new build all the same. *)
Lemma other_hash_begins_build_without_regression :
  let a := record 0 5 "x" "h1" in
  let b := record 6 10 "x" "h2" in
  (∀ t, t ∈ [a] → ¬ (name t = name b ∧ hash t = hash b))
  ∧ begins_new_build [mkBuild [a]] b
  ∧ ¬ end_ b < end_ a.
Proof.
  simpl. split; [|split; [reflexivity|lia]].
  intros t Ht [_ Hh]. apply list_elem_of_singleton in Ht as ->.
  discriminate Hh.
Qed.

(** ** The reader: the version header *)

Lemma ninja_log_match_hash line group :
  ninja_log_match line = Some group → String.get 0 line = Some "#"%char.
Proof.
  destruct line as [|c line]; [done|]. unfold ninja_log_match. simpl.
  case_bool_decide as Hc; [by subst|done].
Qed.

(** [check_version] on a line that matches the pattern: the version is the
    value of the digit in the group. *)
Lemma check_version_match line group version :
  ninja_log_match line = Some group → Py.int group = Some version →
  check_version line
  = if bool_decide (version = 5) then inr (Some version)
    else inl (VersionError 5 version).
Proof.
  intros Hm Hv. unfold check_version.
  rewrite (ninja_log_match_hash _ _ Hm), Hm, Hv.
  rewrite (bool_decide_eq_true_2 (Some "#"%char = Some "#"%char)) by done.
  rewrite andb_false_r. unfold allowed_versions.
  case_bool_decide as H5; case_bool_decide as H5'; try done.
  - apply list_elem_of_singleton in H5. done.
  - subst. exfalso. apply H5. apply list_elem_of_here.
Qed.

Lemma check_version_empty : check_version EmptyString = inr None.
Proof. reflexivity. Qed.

(** Lines on which [check_version] returns [None] are passed over. *)
Lemma find_version_skip pre rest fuel :
  Forall (λ l, check_version l = inr None) pre →
  find_version (length pre + fuel) (pre ++ rest) = find_version fuel rest.
Proof.
  induction 1 as [|l pre Hl _ IH]; [done|].
  cbn [length Nat.add app find_version readline]. by rewrite Hl.
Qed.

(** Without a line that matches, the loop [while version is None] goes on
    reading the empty string at the end of the file. *)
Lemma find_version_no_marker fuel f :
  Forall (λ l, check_version l = inr None) f → find_version fuel f = None.
Proof.
  revert f. induction fuel as [|fuel IH]; intros f Hf; [done|].
  destruct Hf as [|l f Hl Hf]; cbn [find_version readline].
  - rewrite check_version_empty. by apply IH.
  - rewrite Hl. by apply IH.
Qed.

Lemma read_log_no_marker fuel f :
  Forall (λ l, check_version l = inr None) f → read_log fuel f = None.
Proof.
  intros Hf. unfold read_log. by rewrite find_version_no_marker.
Qed.

(** With a header of version 5 after lines that are passed over, reading
    returns what the loop over the body returns, given enough fuel. *)
Lemma read_log_header pre header body fuel :
  Forall (λ l, check_version l = inr None) pre →
  check_version header = inr (Some 5) →
  read_log (length pre + S fuel) (pre ++ header :: body)
  = Some (body_loop [mkBuild []] body).
Proof.
  intros Hpre Hh. unfold read_log. rewrite find_version_skip by done.
  cbn [find_version readline]. by rewrite Hh.
Qed.

(** The version gate: a header whose digit is not 5 ends the run with
    [VersionError(5, digit)] before any body line is read. *)
Lemma read_log_version_gate pre header body group version fuel :
  Forall (λ l, check_version l = inr None) pre →
  ninja_log_match header = Some group → Py.int group = Some version →
  version ≠ 5 →
  read_log (length pre + S fuel) (pre ++ header :: body)
  = Some (Exit 1 (VersionError 5 version)).
Proof.
  intros Hpre Hm Hv Hne. unfold read_log. rewrite find_version_skip by done.
  cbn [find_version readline]. rewrite (check_version_match _ _ _ Hm Hv).
  by rewrite bool_decide_eq_false_2.
Qed.

(** C6, on the code: a file without a marker line is never finished. For
    every amount of fuel the run is still in the loop that looks for the
    version, on the empty file and on a file of one record line. *)
Theorem read_log_without_marker_never_returns (fuel : nat) :
  read_log fuel [] = None
  ∧ read_log fuel [line_of ["0"; "1"; "0"; "foo"; "abc"]] = None.
Proof.
  split; apply read_log_no_marker; repeat constructor.
Qed.

(** C7, on the code: the pattern takes one digit, so a header that declares
    version 50 is read as version 5 and the body is read; a header that
    declares version 12 is reported as version 1. *)
Theorem read_log_accepts_v50 (fuel : nat) (body : list string) :
  check_version header_v50 = inr (Some 5)
  ∧ read_log (S fuel) (header_v50 :: body)
    = Some (body_loop [mkBuild []] body)
  ∧ read_log (S fuel) [header_v50; line_of ["0"; "1"; "0"; "foo"; "abc"]]
    = Some (Return [mkBuild [record 0 1 "foo" "abc"]])
  ∧ read_log (S fuel) ("# ninja log v12" :: body)
    = Some (Exit 1 (VersionError 5 1)).
Proof. repeat split. Qed.

(** ** The reader: the body *)

Lemma rstrip_all_space line : all_space line = true → Py.rstrip line = EmptyString.
Proof.
  induction line as [|c line IH]; [done|]. simpl.
  intros [Hc Hl]%andb_true_iff. by rewrite (IH Hl), Hc.
Qed.

Lemma isspace_not_hash c : Py.isspace c = true → c ≠ "#"%char.
Proof. intros Hc ->. vm_compute in Hc. discriminate. Qed.

(** A line starting with [#] is passed over. *)
Lemma body_step_comment builds cb c line :
  last builds = Some cb → c = "#"%char →
  body_step builds (String c line) = inr builds.
Proof.
  intros Hl ->. unfold body_step. rewrite Hl.
  rewrite (bool_decide_eq_true_2 (String.get 0 _ = _)) by done.
  by rewrite orb_true_r.
Qed.

(** A line that is neither empty nor a comment and whose record parses goes
    through the segmenter. *)
Lemma body_step_record builds cb line t :
  last builds = Some cb → line ≠ EmptyString →
  String.get 0 line ≠ Some "#"%char → parse_line line = inr t →
  body_step builds line = inr (segment_step builds t).
Proof.
  intros Hl Hne Hc Hp. unfold body_step, segment_step. rewrite Hl, Hp.
  rewrite !bool_decide_eq_false_2 by done. simpl.
  by destruct (need_new_build cb t).
Qed.

(** A line of whitespace only, such as an empty line with its line end, is
    not passed over: its single field cannot be unpacked. *)
Lemma body_step_blank builds cb line :
  last builds = Some cb → line ≠ EmptyString → all_space line = true →
  body_step builds line = inl (ValueError (NotEnoughValues 5 1)).
Proof.
  intros Hl Hne Hs. unfold body_step. rewrite Hl.
  rewrite (bool_decide_eq_false_2 (line = EmptyString)) by done.
  destruct line as [|c line]; [done|]. simpl in Hs.
  apply andb_true_iff in Hs as [Hc Hs].
  rewrite bool_decide_eq_false_2.
  2:{ simpl. intros [= ->]. by apply (isspace_not_hash _ Hc). }
  simpl. unfold parse_line, unpack_fields.
  by rewrite (rstrip_all_space (String c line)) by (simpl; by rewrite Hc, Hs).
Qed.

(** C5, on the code: a blank body line is not skipped but makes the reader
    raise [ValueError], right after the header and between record lines
    alike. *)
Theorem read_log_blank_line_raises :
  read_log 1 [header_v5; blank_line]
  = Some (Raise (ValueError (NotEnoughValues 5 1)))
  ∧ read_log 1 [header_v5; line_of ["0"; "1"; "0"; "foo"; "abc"];
                blank_line; line_of ["2"; "3"; "0"; "bar"; "def"]]
    = Some (Raise (ValueError (NotEnoughValues 5 1))).
Proof. split; reflexivity. Qed.

Lemma py_int_full s v : Py.int s = Some v ↔ Py.int_full s = Py.IntValue v.
Proof.
  unfold Py.int. destruct (Py.int_full s); split; congruence.
Qed.

Lemma Target_init_inr s e n h t :
  Target_init s e n h = inr t
  ↔ ∃ vs ve, Py.int s = Some vs ∧ Py.int e = Some ve
             ∧ t = mkTarget vs ve n h None.
Proof.
  unfold Target_init. setoid_rewrite py_int_full.
  destruct (Py.int_full s) as [vs| |ds]; simpl;
    [|split; [done|by intros (? & ? & ? & _)]..].
  destruct (Py.int_full e) as [ve| |de]; simpl;
    [|split; [done|by intros (? & ? & _ & ? & _)]..].
  split.
  - intros [= <-]. by exists vs, ve.
  - intros (? & ? & [= <-] & [= <-] & ->). done.
Qed.

(** Records come out of the reader without a thread. *)
Lemma parse_line_thread line t : parse_line line = inr t → thread t = None.
Proof.
  unfold parse_line.
  destruct (unpack_fields line) as [e|[[[s e] n] h]]; [done|].
  by intros (? & ? & _ & _ & ->)%Target_init_inr.
Qed.

Lemma removelast_Forall {A} (P : A → Prop) (l : list A) :
  Forall P l → Forall P (removelast l).
Proof.
  destruct (last l) as [x|] eqn:Hl.
  - apply last_Some in Hl as [l' ->]. rewrite removelast_last.
    by intros [? _]%Forall_app.
  - apply last_None in Hl as ->. done.
Qed.

Lemma segment_step_unscheduled builds t :
  thread t = None → Forall unscheduled builds →
  Forall unscheduled (segment_step builds t).
Proof.
  intros Ht Hb. unfold segment_step, add_to_last.
  destruct (last builds) as [cb|] eqn:Hl; [|done].
  destruct (need_new_build cb t).
  - apply Forall_app. split; [done|]. by repeat constructor.
  - apply Forall_app. split; [by apply removelast_Forall|].
    repeat constructor. unfold unscheduled, add_target. simpl.
    apply Forall_app. split; [|by repeat constructor].
    apply last_Some in Hl as [l' ->].
    apply Forall_app in Hb as [_ Hcb]. by inversion Hcb.
Qed.

Lemma body_step_unscheduled builds line builds' :
  body_step builds line = inr builds' →
  Forall unscheduled builds → Forall unscheduled builds'.
Proof.
  unfold body_step. destruct (last builds) as [cb|] eqn:Hl; [|done].
  destruct (_ || _); [by intros [= <-]|].
  destruct (parse_line line) as [e|t] eqn:Hp; [done|].
  intros Heq Hb. pose proof (segment_step_unscheduled builds t
                               (parse_line_thread _ _ Hp) Hb) as Hs.
  unfold segment_step in Hs. rewrite Hl in Hs.
  destruct (need_new_build cb t); by injection Heq as <-.
Qed.

Lemma body_loop_unscheduled f builds builds' :
  body_loop builds f = Return builds' →
  Forall unscheduled builds → Forall unscheduled builds'.
Proof.
  revert builds. induction f as [|line f IH]; intros builds; simpl.
  - by intros [= <-].
  - destruct (body_step builds line) as [e|b1] eqn:Hs; [done|].
    intros Hl Hb. apply (IH b1 Hl). by eapply body_step_unscheduled.
Qed.

Lemma read_log_unscheduled fuel f builds :
  read_log fuel f = Some (Return builds) → Forall unscheduled builds.
Proof.
  unfold read_log.
  destruct (find_version fuel f) as [[[v f']|e|st e]|]; try done.
  intros [= Hb]. apply (body_loop_unscheduled _ _ _ Hb).
  by repeat constructor.
Qed.

(** ** The trace events *)

Lemma join_imap_lookup {A B} (g : nat → A → list B) (w : A → nat)
    (l : list A) (p : nat) (a : A) (i : nat) (y : B) :
  (∀ q x, x ∈ l → length (g q x) = w x) →
  l !! p = Some a → g p a !! i = Some y →
  mjoin (imap g l) !! (sum_list (w <$> take p l) + i)%nat = Some y.
Proof.
  revert g p. induction l as [|a0 l IH]; intros g p Hw Hp Hy; [done|].
  rewrite imap_cons. simpl.
  destruct p as [|p]; simpl in *.
  - injection Hp as ->. rewrite lookup_app_l; [done|].
    by eapply lookup_lt_Some.
  - rewrite lookup_app_r; rewrite (Hw 0%nat a0) by apply list_elem_of_here;
      [|lia].
    match goal with
    | |- _ !! ?n = _ =>
        replace n with (sum_list (w <$> take p l) + i)%nat
          by (unfold fmap; lia)
    end.
    apply (IH (g ∘ S)); [|done..].
    intros q x Hx. apply Hw. by apply list_elem_of_further.
Qed.

Lemma join_imap_length {A B} (g : nat → A → list B) (w : A → nat)
    (l : list A) :
  (∀ q x, x ∈ l → length (g q x) = w x) →
  length (mjoin (imap g l)) = sum_list (w <$> l).
Proof.
  revert g. induction l as [|a0 l IH]; intros g Hw; [done|].
  rewrite imap_cons. simpl. rewrite length_app.
  rewrite (Hw 0%nat a0) by apply list_elem_of_here. f_equal.
  apply (IH (g ∘ S)). intros q x Hx. apply Hw. by apply list_elem_of_further.
Qed.

(** C9: when [read_log] returns, [main] hands to [json.dumps] the list of
    the events of the builds, build after build: it has one event for each
    record, and the record at place [i] of build [p] gives the event with
    its name, category [targets], phase [X], [ts = start * 1000],
    [dur = (end - start) * 1000], [pid = p], [tid] the thread it was
    given, which is not negative, and no [args]. A log that is a header
    of version 5 with no body line gives the empty list. *)
Theorem main_events_spec :
  (∀ fuel f builds,
     read_log fuel f = Some (Return builds) →
     main_events fuel f = Some (Return (trace_events builds))
     ∧ length (trace_events builds)
       = sum_list ((λ b, length (targets b)) <$> builds)
     ∧ ∀ p b i t0,
         builds !! p = Some b → targets b !! i = Some t0 →
         ∃ k, 0 ≤ k
              ∧ targets (assign_threads b) !! i = Some (set_thread t0 k)
              ∧ trace_events builds !! (records_before builds p + i)%nat
                = Some (event_of t0 p k))
  ∧ (∀ pre header fuel,
       Forall (λ l, check_version l = inr None) pre →
       check_version header = inr (Some 5) →
       main_events (length pre + S fuel) (pre ++ [header])
       = Some (Return [])).
Proof.
  split.
  - intros fuel f builds Hr.
    pose proof (read_log_unscheduled _ _ _ Hr) as Hun.
    rewrite Forall_forall in Hun.
    assert (Hw : ∀ (q : nat) b, b ∈ builds →
              length ((λ target, target_to_dict target (Z.of_nat q))
                        <$> targets (assign_threads b))
              = length (targets b)).
    { intros q b Hb. rewrite length_fmap.
      apply (assign_threads_frame_length b (Hun b Hb)). }
    split; [unfold main_events; by rewrite Hr|].
    split; [by apply join_imap_length|].
    intros p b i t0 Hp Hi.
    assert (b ∈ builds) as Hb by (by eapply list_elem_of_lookup_2).
    destruct (sweep_lookup (targets b)) with (i := i) (t0 := t0)
      as (k & Hk & _); [|done|].
    { intros t. by apply unscheduled_elem, Hun. }
    exists (Z.of_nat k). split; [lia|]. split; [done|].
    unfold trace_events, records_before.
    apply (join_imap_lookup _ (λ b, length (targets b)) builds p b);
      [done..|].
    rewrite list_lookup_fmap. unfold assign_threads. simpl. by rewrite Hk.
  - intros pre header fuel Hpre Hh. unfold main_events.
    by rewrite !(read_log_header pre header [] fuel Hpre Hh).
Qed.

(** ** [str.split], [str.join] and [int] *)

Section SplitJoin.
Variable sep : ascii.

Lemma split_nonempty s : Py.split sep s ≠ [].
Proof.
  destruct s as [|c s]; simpl; [done|].
  case_bool_decide; [done|]. by destruct (Py.split sep s).
Qed.

Lemma join_cons_cons f g fs :
  Py.join sep (f :: g :: fs) = f +:+ String sep (Py.join sep (g :: fs)).
Proof. done. Qed.

Lemma join_split s : Py.join sep (Py.split sep s) = s.
Proof.
  induction s as [|c s IH]; [done|]. cbn [Py.split].
  pose proof (split_nonempty s) as Hne.
  destruct (Py.split sep s) as [|f fs]; [done|].
  case_bool_decide as Hc.
  - rewrite join_cons_cons, IH. by subst.
  - destruct fs as [|g fs].
    + simpl in *. by rewrite IH.
    + rewrite join_cons_cons in *. by rewrite <- IH.
Qed.

Lemma split_no_sep s :
  Forall (λ f, has_char sep f = false) (Py.split sep s).
Proof.
  induction s as [|c s IH]; simpl; [by repeat constructor|].
  case_bool_decide as Hc; [by constructor|].
  destruct (Py.split sep s) as [|f fs]; simpl.
  - repeat constructor. simpl. by rewrite bool_decide_eq_false_2.
  - inversion IH as [|? ? Hf Hfs]; subst. constructor; [|done].
    simpl. by rewrite bool_decide_eq_false_2.
Qed.

Lemma split_field f : has_char sep f = false → Py.split sep f = [f].
Proof.
  induction f as [|c f IH]; [done|]. simpl.
  intros [Hc Hf]%orb_false_iff. rewrite Hc. by rewrite (IH Hf).
Qed.

Lemma split_app_sep f r :
  has_char sep f = false →
  Py.split sep (f +:+ String sep r) = f :: Py.split sep r.
Proof.
  induction f as [|c f IH]; simpl.
  - intros _. by rewrite bool_decide_eq_true_2.
  - intros [Hc Hf]%orb_false_iff. rewrite Hc. by rewrite (IH Hf).
Qed.

Lemma split_join fields :
  fields ≠ [] → Forall (λ f, has_char sep f = false) fields →
  Py.split sep (Py.join sep fields) = fields.
Proof.
  induction fields as [|f fs IH]; [done|]. intros _ Hall.
  inversion Hall as [|? ? Hf Hfs]; subst.
  destruct fs as [|g fs]; [by apply split_field|].
  rewrite join_cons_cons, split_app_sep by done. by rewrite IH.
Qed.

(** [split] gives the one way of cutting a string at its separators. *)
Lemma split_iff s fields :
  Py.split sep s = fields
  ↔ fields ≠ [] ∧ Forall (λ f, has_char sep f = false) fields
    ∧ Py.join sep fields = s.
Proof.
  split.
  - intros <-. split; [apply split_nonempty|].
    split; [apply split_no_sep|apply join_split].
  - intros (Hne & Hall & <-). by apply split_join.
Qed.
End SplitJoin.

Lemma append_cons c s r : String c s +:+ r = String c (s +:+ r).
Proof. done. Qed.

Lemma append_nil r : EmptyString +:+ r = r.
Proof. done. Qed.

Lemma int_space_not_digit c :
  Py.is_int_space c = true → Py.digit_value c = None.
Proof.
  destruct c as [[|] [|] [|] [|] [|] [|] [|] [|]]; vm_compute; congruence.
Qed.

Lemma int_space_not_mark c :
  Py.is_int_space c = true →
  c ≠ "_"%char ∧ c ≠ "-"%char ∧ c ≠ "+"%char.
Proof.
  intros Hc. repeat split; intros ->; vm_compute in Hc; discriminate.
Qed.

Lemma digit_not_mark c :
  is_Some (Py.digit_value c) →
  Py.is_int_space c = false ∧ c ≠ "_"%char ∧ c ≠ "-"%char ∧ c ≠ "+"%char.
Proof.
  intros [d Hd]. split.
  - destruct (Py.is_int_space c) eqn:Hs; [|done].
    by rewrite (int_space_not_digit c Hs) in Hd.
  - repeat split; intros ->; vm_compute in Hd; discriminate.
Qed.

Lemma lstrip_app ws rest :
  Py.all_int_space ws = true →
  Py.lstrip_int_space (ws +:+ rest) = Py.lstrip_int_space rest.
Proof.
  induction ws as [|c ws IH]; [done|]. rewrite append_cons. simpl.
  intros [Hc Hws]%andb_true_iff. rewrite Hc. by apply IH.
Qed.

Lemma lstrip_head c s :
  Py.is_int_space c = false → Py.lstrip_int_space (String c s) = String c s.
Proof. intros Hc. simpl. by rewrite Hc. Qed.

Lemma lstrip_decomp s :
  ∃ ws, s = ws +:+ Py.lstrip_int_space s ∧ Py.all_int_space ws = true.
Proof.
  induction s as [|c s (ws & Hs & Hws)]; [by exists EmptyString|]. simpl.
  destruct (Py.is_int_space c) eqn:Hc.
  - exists (String c ws). rewrite append_cons. simpl. rewrite Hc, Hws.
    split; [|done]. by rewrite <- Hs.
  - by exists EmptyString.
Qed.

Lemma int_digits_spaces acc ws :
  Py.all_int_space ws = true → Py.int_digits acc ws = Some acc.
Proof.
  destruct ws as [|c ws]; [done|]. intros Hws.
  pose proof Hws as [Hc _]%andb_true_iff.
  cbn [Py.int_digits]. rewrite (int_space_not_digit c Hc).
  destruct (int_space_not_mark c Hc) as [Hu _].
  rewrite bool_decide_eq_false_2 by done. by rewrite Hws.
Qed.

Lemma int_digits_tail t ws acc :
  digits_tail t → Py.all_int_space ws = true →
  Py.int_digits acc (t +:+ ws) = Some (digits_value acc t).
Proof.
  intros Ht Hws. revert acc.
  induction Ht as [|c t [d Hd] _ IH|c t [d Hd] _ IH]; intros acc.
  - by apply int_digits_spaces.
  - rewrite append_cons. simpl. rewrite Hd. apply IH.
  - rewrite !append_cons. simpl. rewrite Hd. apply IH.
Qed.

Lemma int_digits_inv n s acc v :
  (String.length s ≤ n)%nat → Py.int_digits acc s = Some v →
  ∃ t ws, s = t +:+ ws ∧ digits_tail t ∧ Py.all_int_space ws = true
          ∧ v = digits_value acc t.
Proof.
  revert s acc. induction n as [|n IH]; intros s acc Hlen Hv.
  { destruct s; [|simpl in Hlen; lia]. injection Hv as <-.
    exists EmptyString, EmptyString. repeat split. constructor. }
  destruct s as [|c s].
  { injection Hv as <-. exists EmptyString, EmptyString.
    repeat split. constructor. }
  cbn [Py.int_digits] in Hv. simpl in Hlen.
  destruct (Py.digit_value c) as [d|] eqn:Hd.
  - destruct (IH s _ ltac:(lia) Hv) as (t & ws & -> & Ht & Hws & ->).
    exists (String c t), ws. repeat split; [|done|by simpl; rewrite Hd].
    by constructor.
  - case_bool_decide as Hu.
    + subst c. destruct s as [|c' s]; [done|].
      destruct (Py.digit_value c') as [d|] eqn:Hd'; [|done].
      simpl in Hlen.
      destruct (IH s _ ltac:(lia) Hv) as (t & ws & -> & Ht & Hws & ->).
      exists (String "_"%char (String c' t)), ws.
      repeat split; [|done|by simpl; rewrite Hd'].
      by constructor.
    + destruct (Py.all_int_space (String c s)) eqn:Hws; [|done].
      injection Hv as <-. exists EmptyString, (String c s).
      repeat split; [constructor|done].
Qed.

Lemma int_unsigned_spec s v :
  Py.int_unsigned s = Some v
  ↔ ∃ body ws, s = body +:+ ws ∧ digit_group body
               ∧ Py.all_int_space ws = true ∧ v = digits_value 0 body.
Proof.
  split.
  - destruct s as [|c s]; [done|]. simpl.
    destruct (Py.digit_value c) as [d|] eqn:Hd; [|done]. intros Hv.
    destruct (int_digits_inv _ s d v (le_n _) Hv)
      as (t & ws & -> & Ht & Hws & ->).
    exists (String c t), ws. repeat split; [|done|by simpl; rewrite Hd].
    exists c, t. by rewrite Hd.
  - intros (body & ws & -> & (c & t & -> & [d Hd] & Ht) & Hws & ->).
    simpl. rewrite Hd. by apply int_digits_tail.
Qed.

Lemma int_scan_spaces n ws :
  Py.all_int_space ws = true → Py.int_scan n ws = Some n.
Proof.
  destruct ws as [|c ws]; [done|]. intros [Hc _]%andb_true_iff.
  cbn [Py.int_scan]. rewrite (int_space_not_digit c Hc).
  destruct (int_space_not_mark c Hc) as [Hu _].
  by rewrite bool_decide_eq_false_2.
Qed.

Lemma int_scan_tail t ws n :
  digits_tail t → Py.all_int_space ws = true →
  Py.int_scan n (t +:+ ws) = Some (n + digit_count t)%nat.
Proof.
  intros Ht Hws. revert n.
  induction Ht as [|c t [d Hd] _ IH|c t [d Hd] _ IH]; intros n.
  - rewrite append_nil, int_scan_spaces by done. simpl. f_equal. lia.
  - rewrite append_cons. simpl. rewrite Hd, IH. f_equal. lia.
  - rewrite !append_cons. simpl. rewrite Hd, IH. f_equal. lia.
Qed.

Lemma int_unsigned_full_spec s v :
  Py.int_unsigned_full s = Py.IntValue v
  ↔ ∃ body ws, s = body +:+ ws ∧ digit_group body
               ∧ Py.all_int_space ws = true
               ∧ (digit_count body ≤ Py.int_max_str_digits)%nat
               ∧ v = digits_value 0 body.
Proof.
  split.
  - destruct s as [|c s]; [done|]. cbn [Py.int_unsigned_full].
    destruct (Py.digit_value c) as [d|] eqn:Hd; [|done].
    destruct (Py.int_scan 1 s) as [n|] eqn:Hn; [|done].
    case_bool_decide as Hlim; [done|].
    destruct (Py.int_unsigned (String c s)) as [v'|] eqn:Hv; [|done].
    intros [= <-].
    apply int_unsigned_spec in Hv
      as (body & ws & Heq & (c' & t & -> & Hc' & Ht) & Hws & ->).
    rewrite append_cons in Heq. injection Heq as <- ->.
    rewrite (int_scan_tail t ws 1 Ht Hws) in Hn. injection Hn as <-.
    exists (String c t), ws. rewrite append_cons.
    split; [done|]. split; [by exists c, t|]. split; [done|].
    split; [|done]. simpl. rewrite Hd. lia.
  - intros (body & ws & -> & Hb & Hws & Hlim & ->).
    assert (Py.int_unsigned (body +:+ ws) = Some (digits_value 0 body))
      as Hu by (apply int_unsigned_spec; by exists body, ws).
    destruct Hb as (c & t & -> & [d Hd] & Ht).
    rewrite append_cons in *. cbn [Py.int_unsigned_full].
    rewrite Hd, (int_scan_tail t ws 1 Ht Hws).
    simpl in Hlim. rewrite Hd in Hlim.
    rewrite bool_decide_eq_false_2 by lia. by rewrite Hu.
Qed.

Lemma int_negate_value o v :
  Py.int_negate o = Py.IntValue v ↔ ∃ v', o = Py.IntValue v' ∧ v = - v'.
Proof.
  destruct o as [v'| |n]; simpl; split; try done.
  - intros [= <-]. by exists v'.
  - intros (? & [= <-] & ->). done.
  - by intros (? & ? & _).
  - by intros (? & ? & _).
Qed.

(** [int] accepts exactly the integer literals, and gives their value. *)
Lemma py_int_spec s v : Py.int s = Some v ↔ int_literal s v.
Proof.
  rewrite py_int_full. unfold Py.int_full, int_literal. split.
  - destruct (lstrip_decomp s) as (ws1 & Hs & Hws1).
    destruct (Py.lstrip_int_space s) as [|c r]; [done|].
    case_bool_decide as Hminus; [|case_bool_decide as Hplus].
    + intros (v' & Hv' & ->)%int_negate_value.
      apply int_unsigned_full_spec in Hv'
        as (body & ws2 & -> & Hb & Hws2 & Hlim & ->).
      exists ws1, "-", body, ws2. subst c.
      split; [done|]. do 2 (split; [done|]).
      split; [by right; right|]. do 2 (split; [done|]).
      unfold sign_factor. rewrite bool_decide_eq_true_2 by done. lia.
    + intros Hv'.
      apply int_unsigned_full_spec in Hv'
        as (body & ws2 & -> & Hb & Hws2 & Hlim & ->).
      exists ws1, "+", body, ws2. subst c.
      split; [done|]. do 2 (split; [done|]).
      split; [by right; left|]. do 2 (split; [done|]).
      unfold sign_factor. rewrite bool_decide_eq_false_2 by done. lia.
    + intros Hv'.
      apply int_unsigned_full_spec in Hv'
        as (body & ws2 & Hr & Hb & Hws2 & Hlim & ->).
      exists ws1, "", body, ws2. rewrite append_nil, <- Hr.
      split; [done|]. do 2 (split; [done|]).
      split; [by left|]. do 2 (split; [done|]).
      unfold sign_factor. rewrite bool_decide_eq_false_2 by done. lia.
  - intros (ws1 & sign & body & ws2 & -> & Hws1 & Hws2 & Hsign & Hb & Hlim
            & ->).
    rewrite lstrip_app by done.
    assert (Py.int_unsigned_full (body +:+ ws2)
            = Py.IntValue (digits_value 0 body)) as Hu.
    { apply int_unsigned_full_spec. by exists body, ws2. }
    destruct Hsign as [-> | [-> | ->]].
    + rewrite append_nil in *.
      destruct Hb as (c & t & -> & Hc & Ht). rewrite append_cons in *.
      destruct (digit_not_mark c Hc) as (Hsp & _ & Hm & Hp).
      rewrite lstrip_head by done. rewrite !bool_decide_eq_false_2 by done.
      rewrite Hu. f_equal.
      unfold sign_factor. rewrite bool_decide_eq_false_2 by done. lia.
    + rewrite append_cons, append_nil. rewrite lstrip_head by done.
      rewrite bool_decide_eq_false_2 by done.
      rewrite bool_decide_eq_true_2 by done.
      rewrite Hu. f_equal. unfold sign_factor.
      rewrite bool_decide_eq_false_2 by done. lia.
    + rewrite append_cons, append_nil. rewrite lstrip_head by done.
      rewrite bool_decide_eq_true_2 by done.
      rewrite Hu. simpl. f_equal; unfold sign_factor; simpl; lia.
Qed.

(** ** [int] on a literal of too many digits *)

Lemma int_spaces_end ws : Py.all_int_space ws = true → ends_digits ws.
Proof.
  destruct ws as [|c ws]; [done|]. intros [Hc _]%andb_true_iff. simpl.
  split; [by apply int_space_not_digit|].
  by destruct (int_space_not_mark c Hc).
Qed.

Lemma int_scan_end n rest : ends_digits rest → Py.int_scan n rest = Some n.
Proof.
  destruct rest as [|c rest]; [done|]. intros [Hd Hu]. cbn [Py.int_scan].
  rewrite Hd. by rewrite bool_decide_eq_false_2.
Qed.

Lemma int_scan_run t rest n :
  digits_tail t → ends_digits rest →
  Py.int_scan n (t +:+ rest) = Some (n + digit_count t)%nat.
Proof.
  intros Ht Hr. revert n.
  induction Ht as [|c t [d Hd] _ IH|c t [d Hd] _ IH]; intros n.
  - rewrite append_nil, int_scan_end by done. simpl. f_equal. lia.
  - rewrite append_cons. simpl. rewrite Hd, IH. f_equal. lia.
  - rewrite !append_cons. simpl. rewrite Hd, IH. f_equal. lia.
Qed.

Lemma int_scan_inv k s n m :
  (String.length s ≤ k)%nat → Py.int_scan n s = Some m →
  ∃ t rest, s = t +:+ rest ∧ digits_tail t ∧ ends_digits rest
            ∧ m = (n + digit_count t)%nat.
Proof.
  revert s n. induction k as [|k IH]; intros s n Hlen Hm.
  { destruct s; [|simpl in Hlen; lia]. injection Hm as <-.
    exists EmptyString, EmptyString.
    split; [done|]. split; [constructor|]. split; [done|simpl; lia]. }
  destruct s as [|c s].
  { injection Hm as <-. exists EmptyString, EmptyString.
    split; [done|]. split; [constructor|]. split; [done|simpl; lia]. }
  cbn [Py.int_scan] in Hm. simpl in Hlen.
  destruct (Py.digit_value c) as [d|] eqn:Hd.
  - destruct (IH s _ ltac:(lia) Hm) as (t & rest & -> & Ht & Hr & ->).
    exists (String c t), rest. split; [done|].
    split; [by constructor|]. split; [done|]. simpl. rewrite Hd. lia.
  - case_bool_decide as Hu.
    + subst c. destruct s as [|c' s]; [done|].
      destruct (Py.digit_value c') as [d|] eqn:Hd'; [|done].
      simpl in Hlen.
      destruct (IH s _ ltac:(lia) Hm) as (t & rest & -> & Ht & Hr & ->).
      exists (String "_"%char (String c' t)), rest. split; [done|].
      split; [by constructor|]. split; [done|]. simpl. rewrite Hd'. lia.
    + injection Hm as <-. exists EmptyString, (String c s).
      split; [done|]. split; [constructor|]. split; [done|simpl; lia].
Qed.

Lemma int_unsigned_full_long s n :
  Py.int_unsigned_full s = Py.IntTooLong n
  ↔ ∃ body rest, s = body +:+ rest ∧ digit_group body ∧ ends_digits rest
                 ∧ n = digit_count body
                 ∧ (Py.int_max_str_digits < n)%nat.
Proof.
  split.
  - destruct s as [|c s]; [done|]. cbn [Py.int_unsigned_full].
    destruct (Py.digit_value c) as [d|] eqn:Hd; [|done].
    destruct (Py.int_scan 1 s) as [m|] eqn:Hm; [|done].
    case_bool_decide as Hlim.
    + intros [= <-].
      destruct (int_scan_inv _ s 1 m (le_n _) Hm)
        as (t & rest & -> & Ht & Hr & ->).
      exists (String c t), rest. split; [done|].
      split; [by exists c, t|]. split; [done|].
      split; [by simpl; rewrite Hd|done].
    + by destruct (Py.int_unsigned (String c s)).
  - intros (body & rest & -> & (c & t & -> & [d Hd] & Ht) & Hr & -> & Hlim).
    rewrite append_cons. cbn [Py.int_unsigned_full].
    rewrite Hd, (int_scan_run t rest 1 Ht Hr).
    cbn [digit_count] in *. rewrite Hd in *.
    by rewrite bool_decide_eq_true_2 by lia.
Qed.

Lemma int_negate_long o n :
  Py.int_negate o = Py.IntTooLong n ↔ o = Py.IntTooLong n.
Proof. by destruct o. Qed.

(** [int] raises for the number of digits exactly on the texts that begin
    as a literal with more digits than the limit, whatever follows the
    digits. *)
Lemma py_int_full_long s n :
  Py.int_full s = Py.IntTooLong n
  ↔ digit_run s n ∧ (Py.int_max_str_digits < n)%nat.
Proof.
  unfold Py.int_full, digit_run. split.
  - destruct (lstrip_decomp s) as (ws1 & Hs & Hws1).
    destruct (Py.lstrip_int_space s) as [|c r]; [done|].
    case_bool_decide as Hminus; [|case_bool_decide as Hplus].
    + intros Hl. apply (proj1 (int_negate_long _ _)) in Hl.
      apply int_unsigned_full_long in Hl
        as (body & rest & -> & Hb & Hr & -> & Hlim).
      split; [|done]. exists ws1, "-", body, rest. subst c.
      split; [done|]. split; [done|]. split; [by right; right|done].
    + intros Hl.
      apply int_unsigned_full_long in Hl
        as (body & rest & -> & Hb & Hr & -> & Hlim).
      split; [|done]. exists ws1, "+", body, rest. subst c.
      split; [done|]. split; [done|]. split; [by right; left|done].
    + intros Hl.
      apply int_unsigned_full_long in Hl
        as (body & rest & Heq & Hb & Hr & -> & Hlim).
      split; [|done]. exists ws1, "", body, rest.
      rewrite append_nil, <- Heq.
      split; [done|]. split; [done|]. split; [by left|done].
  - intros [(ws1 & sign & body & rest & -> & Hws1 & Hsign & Hb & Hr & ->)
              Hlim].
    rewrite lstrip_app by done.
    assert (Py.int_unsigned_full (body +:+ rest)
            = Py.IntTooLong (digit_count body)) as Hu.
    { apply int_unsigned_full_long. by exists body, rest. }
    destruct Hsign as [-> | [-> | ->]].
    + rewrite append_nil in *.
      destruct Hb as (c & t & -> & Hc & Ht). rewrite append_cons in *.
      destruct (digit_not_mark c Hc) as (Hsp & _ & Hm & Hp).
      rewrite lstrip_head by done. rewrite !bool_decide_eq_false_2 by done.
      by rewrite Hu.
    + rewrite append_cons, append_nil. rewrite lstrip_head by done.
      rewrite bool_decide_eq_false_2 by done.
      rewrite bool_decide_eq_true_2 by done. by rewrite Hu.
    + rewrite append_cons, append_nil. rewrite lstrip_head by done.
      rewrite bool_decide_eq_true_2 by done. by rewrite Hu.
Qed.

(** ** The record of a line *)

Lemma unpack_fields_five line f1 f2 f3 f4 f5 :
  five_fields line f1 f2 f3 f4 f5 ↔
  Py.split Py.tab (Py.rstrip line) = [f1; f2; f3; f4; f5].
Proof.
  unfold five_fields. rewrite split_iff. split.
  - intros [Hj Hall]. by repeat split.
  - intros (_ & Hall & Hj). by split.
Qed.

Lemma parse_line_inr_iff line t :
  parse_line line = inr t
  ↔ ∃ f1 f2 f3 f4 f5,
      five_fields line f1 f2 f3 f4 f5
      ∧ int_literal f1 (start t) ∧ int_literal f2 (end_ t)
      ∧ name t = f4 ∧ hash t = f5 ∧ thread t = None.
Proof.
  split.
  - unfold parse_line, unpack_fields.
    destruct (Py.split Py.tab (Py.rstrip line))
      as [|f1 [|f2 [|f3 [|f4 [|f5 [|f6 fs]]]]]] eqn:Hs;
      try (by case_bool_decide).
    intros (s & e & H1 & H2 & ->)%Target_init_inr.
    exists f1, f2, f3, f4, f5. simpl.
    split; [by apply unpack_fields_five|].
    by rewrite <- !py_int_spec.
  - intros (f1 & f2 & f3 & f4 & f5 & H5 & H1 & H2 & Hn & Hh & Ht).
    apply unpack_fields_five in H5. apply py_int_spec in H1, H2.
    unfold parse_line, unpack_fields. rewrite H5.
    apply Target_init_inr. exists (start t), (end_ t).
    do 2 (split; [done|]). destruct t; simpl in *. by subst.
Qed.

(** ** Strings of any code point: [split] and [join] *)

Section UnicodeSplitJoin.
Variable sep : N.








End UnicodeSplitJoin.

(** ** Strings of any code point: [int] *)

Lemma append_nil_r s : s +:+ EmptyString = s.
Proof. induction s as [|c s IH]; [done|]. rewrite append_cons. by f_equal. Qed.

Lemma has_char_app c a b :
  has_char c (a +:+ b) = has_char c a || has_char c b.
Proof.
  induction a as [|x a IH]; [done|]. rewrite append_cons. simpl.
  by rewrite IH, orb_assoc.
Qed.

Lemma int_spaces_no_char c ws :
  Py.is_int_space c = false → Py.all_int_space ws = true →
  has_char c ws = false.
Proof.
  intros Hc. induction ws as [|x ws IH]; [done|]. simpl.
  intros [Hx Hws]%andb_true_iff. rewrite (IH Hws).
  rewrite bool_decide_eq_false_2; [done|]. intros ->. congruence.
Qed.

Lemma digits_tail_no_char c t :
  Py.digit_value c = None → c ≠ "_"%char → digits_tail t →
  has_char c t = false.
Proof.
  intros Hc Hu Ht. induction Ht as [|x t [d Hd] _ IH|x t [d Hd] _ IH].
  - done.
  - simpl. rewrite IH. rewrite bool_decide_eq_false_2; [done|].
    intros ->. congruence.
  - simpl. rewrite IH. rewrite !bool_decide_eq_false_2; [done| |done].
    intros ->. congruence.
Qed.

Lemma digit_group_no_char c body :
  Py.digit_value c = None → c ≠ "_"%char → digit_group body →
  has_char c body = false.
Proof.
  intros Hc Hu (x & t & -> & [d Hd] & Ht). simpl.
  rewrite (digits_tail_no_char c t Hc Hu Ht).
  rewrite bool_decide_eq_false_2; [done|]. intros ->. congruence.
Qed.

Section UnicodeInt.
Context {ucd : UnicodeData}.

(** What [to_ascii] keeps of a code point. *)
Lemma to_ascii_digit_value c a :
  Unicode.to_ascii c = Some a → Py.digit_value a = Unicode.digit_value c.
Proof.
  unfold Unicode.to_ascii, Unicode.digit_value, Unicode.todecimal.
  destruct (c <? 127)%N eqn:Hc.
  - apply N.ltb_lt in Hc. intros [= <-].
    replace (c <? 128)%N with true by (symmetry; apply N.ltb_lt; lia).
    unfold Py.digit_value, nat_of_ascii.
    rewrite N_ascii_embedding by lia.
    destruct ((48 <=? c) && (c <=? 57))%N eqn:Hd.
    + apply andb_true_iff in Hd as [H1%N.leb_le H2%N.leb_le].
      rewrite bool_decide_eq_true_2 by lia. simpl. f_equal. lia.
    + rewrite bool_decide_eq_false_2; [done|]. intros [H1 H2].
      apply andb_false_iff in Hd as [Hd%N.leb_gt|Hd%N.leb_gt]; lia.
  - apply N.ltb_ge in Hc. unfold Unicode.isspace.
    destruct (c <? 128)%N eqn:Hc'.
    + apply N.ltb_lt in Hc'. assert (c = 127%N) as -> by lia. done.
    + destruct (unicode_isspace c) eqn:Hs.
      * intros [= <-]. by rewrite (unicode_space_not_decimal c Hs).
      * destruct (unicode_todecimal c) as [d|] eqn:Hd; [|done].
        intros [= <-]. apply unicode_todecimal_lt in Hd.
        unfold Py.digit_value, nat_of_ascii.
        rewrite N_ascii_embedding by lia.
        rewrite bool_decide_eq_true_2 by lia. simpl. f_equal. lia.
Qed.

Lemma to_ascii_below c :
  (c < 127)%N → Unicode.to_ascii c = Some (ascii_of_N c).
Proof.
  intros Hc. unfold Unicode.to_ascii.
  by replace (c <? 127)%N with true by (symmetry; apply N.ltb_lt; lia).
Qed.

Lemma to_ascii_from c a :
  Unicode.to_ascii c = Some a →
  ((c < 127)%N ∧ a = ascii_of_N c)
  ∨ ((128 ≤ c)%N ∧ unicode_isspace c = true ∧ a = " "%char)
  ∨ ((128 ≤ c)%N ∧ unicode_isspace c = false
     ∧ is_Some (Py.digit_value a)).
Proof.
  intros Ha. pose proof (to_ascii_digit_value c a Ha) as Hv. revert Ha.
  unfold Unicode.to_ascii, Unicode.isspace.
  destruct (c <? 127)%N eqn:Hc.
  - apply N.ltb_lt in Hc. intros [= <-]. by left.
  - apply N.ltb_ge in Hc. destruct (c <? 128)%N eqn:Hc'.
    + apply N.ltb_lt in Hc'. assert (c = 127%N) as -> by lia. done.
    + apply N.ltb_ge in Hc'. destruct (unicode_isspace c) eqn:Hs.
      * intros [= <-]. right. by left.
      * unfold Unicode.digit_value in Hv.
        destruct (Unicode.todecimal c) as [d|] eqn:Hd; [|done].
        intros _. right. right. rewrite Hv. split; [done|]. split; [done|].
        by eexists.
Qed.

Lemma to_ascii_int_space c a :
  Unicode.to_ascii c = Some a →
  Py.is_int_space a = true ↔ Unicode.int_space c.
Proof.
  intros Ha. unfold Unicode.int_space.
  destruct (to_ascii_from c a Ha)
    as [[Hc ->]|[(Hc & Hs & ->)|(Hc & Hs & Hd)]].
  - split.
    + intros H. left. apply bool_decide_eq_true in H.
      assert (N_of_ascii (ascii_of_N c) = c) as Hn
        by (apply N_ascii_embedding; lia).
      unfold Py.int_whitespace in H.
      repeat (apply elem_of_cons in H as [H|H];
              [rewrite H in Hn; vm_compute in Hn; subst c;
               first [lia | by apply (bool_decide_unpack _)]|]).
      by apply elem_of_nil in H.
    + intros [H|[H _]]; [|lia].
      repeat (apply elem_of_cons in H as [->|H]; [done|]).
      by apply elem_of_nil in H.
  - split; [by right|done].
  - destruct (digit_not_mark a Hd) as [Hn _]. rewrite Hn. split; [done|].
    intros [H|[_ H]]; [|congruence].
    repeat (apply elem_of_cons in H as [->|H]; [lia|]).
    by apply elem_of_nil in H.
Qed.

(** A mark of the literal is an ASCII character that is neither a digit
    nor a space: a sign, the underscore. *)
Lemma to_ascii_mark c a m :
  Unicode.to_ascii c = Some a →
  (N_of_ascii m < 127)%N → Py.digit_value m = None → m ≠ " "%char →
  a = m ↔ c = N_of_ascii m.
Proof.
  intros Ha Hm Hd Hs.
  destruct (to_ascii_from c a Ha)
    as [[Hc ->]|[(Hc & _ & ->)|(Hc & _ & Hd')]].
  - split.
    + intros <-. symmetry. apply N_ascii_embedding. lia.
    + intros ->. apply ascii_N_embedding.
  - split; [done|lia].
  - split; [|lia]. intros ->. rewrite Hd in Hd'. by destruct Hd'.
Qed.

Lemma transform_cons c s a :
  Unicode.to_ascii c = Some a →
  Unicode.transform (c :: s) = String a (Unicode.transform s).
Proof. intros Ha. simpl. by rewrite Ha. Qed.

Lemma transform_app x y :
  Forall Unicode.valid x →
  Unicode.transform (x ++ y) = Unicode.transform x +:+ Unicode.transform y.
Proof.
  induction 1 as [|c x [a Ha] _ IH]; [done|].
  rewrite <- app_comm_cons, !(transform_cons c _ a Ha), append_cons.
  by rewrite IH.
Qed.

Lemma transform_cons_inv s a r :
  Unicode.transform s = String a r → a ≠ "?"%char →
  ∃ c s', s = c :: s' ∧ Unicode.to_ascii c = Some a
          ∧ Unicode.transform s' = r.
Proof.
  destruct s as [|c s]; [done|]. simpl.
  destruct (Unicode.to_ascii c) as [x|] eqn:Hx.
  - intros [= -> <-] _. by exists c, s.
  - intros [= <- _]. done.
Qed.

Lemma transform_nil_inv s : Unicode.transform s = EmptyString → s = [].
Proof.
  destruct s as [|c s]; [done|]. simpl. by destruct (Unicode.to_ascii c).
Qed.

Lemma transform_app_inv a b s :
  Unicode.transform s = a +:+ b → has_char "?" a = false →
  ∃ sa sb, s = sa ++ sb ∧ Forall Unicode.valid sa
           ∧ Unicode.transform sa = a ∧ Unicode.transform sb = b.
Proof.
  revert s. induction a as [|x a IH]; intros s Hs Hq.
  - by exists [], s.
  - rewrite append_cons in Hs. simpl in Hq.
    apply orb_false_iff in Hq as [Hx%bool_decide_eq_false Hq].
    apply transform_cons_inv in Hs as (c & s' & -> & Hc & Hs'); [|done].
    destruct (IH s' Hs' Hq) as (sa & sb & -> & Hv & Ha & Hb).
    exists (c :: sa), sb. split; [done|].
    split; [constructor; [by eexists|done]|].
    split; [|done]. by rewrite (transform_cons c sa x Hc), Ha.
Qed.

Lemma transform_valid s :
  has_char "?" (Unicode.transform s) = false → Forall Unicode.valid s.
Proof.
  induction s as [|c s IH]; [constructor|]. simpl.
  destruct (Unicode.to_ascii c) as [a|] eqn:Ha; [|done]. simpl.
  intros [_ Hq]%orb_false_iff. constructor; [by eexists|by apply IH].
Qed.

(** The parts of a literal, before and after [transform]. *)
Lemma transform_spaces ws :
  Forall Unicode.valid ws →
  Py.all_int_space (Unicode.transform ws) = true
  ↔ Forall Unicode.int_space ws.
Proof.
  induction 1 as [|c ws [a Ha] _ IH]; [done|].
  rewrite (transform_cons c ws a Ha). simpl.
  rewrite andb_true_iff, Forall_cons, IH.
  by rewrite (to_ascii_int_space c a Ha).
Qed.

Lemma int_space_valid c : Unicode.int_space c → Unicode.valid c.
Proof.
  unfold Unicode.valid, Unicode.to_ascii, Unicode.isspace. intros [H|[H1 H2]].
  - repeat (apply elem_of_cons in H as [->|H]; [by eexists|]).
    by apply elem_of_nil in H.
  - replace (c <? 127)%N with false by (symmetry; apply N.ltb_ge; lia).
    replace (c <? 128)%N with false by (symmetry; apply N.ltb_ge; lia).
    rewrite H2. by eexists.
Qed.

Lemma digit_valid c : is_Some (Unicode.digit_value c) → Unicode.valid c.
Proof.
  unfold Unicode.valid, Unicode.digit_value, Unicode.to_ascii.
  intros [d Hd]. destruct (c <? 127)%N; [by eexists|].
  destruct (Unicode.isspace c); [by eexists|].
  destruct (Unicode.todecimal c); [by eexists|done].
Qed.

Lemma to_ascii_underscore : Unicode.to_ascii (N_of_ascii "_") = Some "_"%char.
Proof. done. Qed.

Lemma digits_tail_valid t : Unicode.digits_tail t → Forall Unicode.valid t.
Proof.
  induction 1 as [|c t Hc _ IH|c t Hc _ IH].
  - constructor.
  - constructor; [by apply digit_valid|done].
  - constructor; [by eexists|]. constructor; [by apply digit_valid|done].
Qed.

Lemma transform_digits_tail t :
  digits_tail (Unicode.transform t) ↔ Unicode.digits_tail t.
Proof.
  split.
  - remember (Unicode.transform t) as a eqn:Ha. intros Hd. revert t Ha.
    induction Hd as [|x a [d Hx] _ IH|x a [d Hx] _ IH]; intros t Ha;
      symmetry in Ha.
    + apply transform_nil_inv in Ha as ->. constructor.
    + apply transform_cons_inv in Ha as (c & t' & -> & Hc & Ht');
        [|intros ->; vm_compute in Hx; congruence].
      constructor; [|by apply IH].
      rewrite <- (to_ascii_digit_value c x Hc). by eexists.
    + apply transform_cons_inv in Ha as (c0 & t0 & -> & Hc0 & Ht0); [|done].
      apply transform_cons_inv in Ht0 as (c & t' & -> & Hc & Ht');
        [|intros ->; vm_compute in Hx; congruence].
      apply (to_ascii_mark c0 "_" "_") in Hc0; [|done..].
      rewrite (proj1 Hc0 eq_refl).
      constructor; [|by apply IH].
      rewrite <- (to_ascii_digit_value c x Hc). by eexists.
  - induction 1 as [|c t Hc _ IH|c t Hc _ IH].
    + constructor.
    + destruct (digit_valid c Hc) as [a Ha].
      rewrite (transform_cons c t a Ha). constructor; [|done].
      by rewrite (to_ascii_digit_value c a Ha).
    + destruct (digit_valid c Hc) as [a Ha].
      rewrite (transform_cons _ _ _ to_ascii_underscore).
      rewrite (transform_cons c t a Ha). constructor; [|done].
      by rewrite (to_ascii_digit_value c a Ha).
Qed.

Lemma transform_digit_group body :
  digit_group (Unicode.transform body) ↔ Unicode.digit_group body.
Proof.
  split.
  - intros (x & a & Hb & [d Hx] & Ht).
    apply transform_cons_inv in Hb as (c & t & -> & Hc & <-);
      [|intros ->; vm_compute in Hx; congruence].
    exists c, t. split; [done|]. split; [|by apply transform_digits_tail].
    rewrite <- (to_ascii_digit_value c x Hc). by eexists.
  - intros (c & t & -> & Hc & Ht). destruct (digit_valid c Hc) as [a Ha].
    exists a, (Unicode.transform t). split; [by apply transform_cons|].
    split; [|by apply transform_digits_tail].
    by rewrite (to_ascii_digit_value c a Ha).
Qed.

Lemma transform_digits_value t acc :
  Forall Unicode.valid t →
  digits_value acc (Unicode.transform t) = Unicode.digits_value acc t.
Proof.
  intros Ht. revert acc. induction Ht as [|c t [a Ha] _ IH]; intros acc;
    [done|].
  rewrite (transform_cons c t a Ha). simpl.
  rewrite (to_ascii_digit_value c a Ha).
  by destruct (Unicode.digit_value c); rewrite IH.
Qed.

Lemma transform_digit_count t :
  Forall Unicode.valid t →
  digit_count (Unicode.transform t) = Unicode.digit_count t.
Proof.
  induction 1 as [|c t [a Ha] _ IH]; [done|].
  rewrite (transform_cons c t a Ha). simpl.
  rewrite (to_ascii_digit_value c a Ha).
  by destruct (Unicode.digit_value c); rewrite IH.
Qed.

Lemma digit_group_valid body :
  Unicode.digit_group body → Forall Unicode.valid body.
Proof.
  intros (c & t & -> & Hc & Ht).
  constructor; [by apply digit_valid|by apply digits_tail_valid].
Qed.

Lemma transform_sign sign :
  (sign = [] ∨ sign = Unicode.code_points "+"
   ∨ sign = Unicode.code_points "-") →
  Forall Unicode.valid sign
  ∧ (Unicode.transform sign = "" ∨ Unicode.transform sign = "+"
     ∨ Unicode.transform sign = "-")
  ∧ sign_factor (Unicode.transform sign) = Unicode.sign_factor sign.
Proof.
  intros [-> | [-> | ->]].
  - split; [constructor|]. split; [by left|done].
  - split; [by repeat constructor; eexists|]. split; [by right; left|done].
  - split; [by repeat constructor; eexists|]. split; [by right; right|done].
Qed.

Lemma transform_sign_inv sign a :
  Unicode.transform sign = a → (a = "" ∨ a = "+" ∨ a = "-") →
  (sign = [] ∨ sign = Unicode.code_points "+"
   ∨ sign = Unicode.code_points "-")
  ∧ sign_factor a = Unicode.sign_factor sign.
Proof.
  intros Ha [-> | [-> | ->]].
  - apply transform_nil_inv in Ha as ->. split; [by left|done].
  - apply transform_cons_inv in Ha as (c & t & -> & Hc & Ht); [|done].
    apply transform_nil_inv in Ht as ->.
    apply (to_ascii_mark c "+" "+") in Hc; [|done..].
    rewrite (proj1 Hc eq_refl). split; [by right; left|done].
  - apply transform_cons_inv in Ha as (c & t & -> & Hc & Ht); [|done].
    apply transform_nil_inv in Ht as ->.
    apply (to_ascii_mark c "-" "-") in Hc; [|done..].
    rewrite (proj1 Hc eq_refl). split; [by right; right|done].
Qed.

(** [int] accepts exactly the integer literals, whatever the script of
    their digits, and gives their value. *)
Lemma unicode_int_spec s v :
  Unicode.int s = Some v ↔ Unicode.int_literal s v.
Proof.
  unfold Unicode.int. rewrite py_int_spec. split.
  - intros (ws1 & sign & body & ws2 & Hs & Hws1 & Hws2 & Hsign & Hb & Hlim
            & ->).
    assert (has_char "?" ws1 = false) as Hq1
      by (by apply int_spaces_no_char).
    assert (has_char "?" ws2 = false) as Hq2
      by (by apply int_spaces_no_char).
    assert (has_char "?" sign = false) as Hq3
      by (by destruct Hsign as [-> | [-> | ->]]).
    assert (has_char "?" body = false) as Hq4
      by (by apply digit_group_no_char).
    apply transform_app_inv in Hs as (s1 & r1 & -> & Hv1 & <- & Hs);
      [|done].
    apply transform_app_inv in Hs as (s2 & r2 & -> & Hv2 & H2 & Hs);
      [|done].
    apply transform_app_inv in Hs as (s3 & s4 & -> & Hv3 & <- & <-);
      [|done].
    apply transform_valid in Hq2 as Hv4.
    destruct (transform_sign_inv s2 sign H2 Hsign) as [Hsign' Hf].
    exists s1, s2, s3, s4. split; [done|].
    split; [by apply transform_spaces|].
    split; [by apply transform_spaces|].
    split; [done|]. split; [by apply transform_digit_group|].
    split; [by rewrite <- transform_digit_count|].
    by rewrite <- transform_digits_value, Hf.
  - intros (ws1 & sign & body & ws2 & -> & Hws1 & Hws2 & Hsign & Hb & Hlim
            & ->).
    destruct (transform_sign sign Hsign) as (Hv2 & Hsign' & Hf).
    pose proof (digit_group_valid body Hb) as Hv3.
    assert (Forall Unicode.valid ws1) as Hv1
      by (eapply Forall_impl; [exact Hws1|apply int_space_valid]).
    assert (Forall Unicode.valid ws2) as Hv4
      by (eapply Forall_impl; [exact Hws2|apply int_space_valid]).
    exists (Unicode.transform ws1), (Unicode.transform sign),
      (Unicode.transform body), (Unicode.transform ws2).
    split; [by rewrite !transform_app|].
    split; [by apply transform_spaces|].
    split; [by apply transform_spaces|].
    split; [done|]. split; [by apply transform_digit_group|].
    split; [by rewrite transform_digit_count|].
    by rewrite transform_digits_value, Hf.
Qed.
End UnicodeInt.

Section UnicodeIntLong.
Context {ucd : UnicodeData}.

Lemma transform_ends rest :
  ends_digits (Unicode.transform rest) ↔ Unicode.ends_digits rest.
Proof.
  destruct rest as [|c rest]; [done|]. simpl.
  destruct (Unicode.to_ascii c) as [a|] eqn:Ha; simpl.
  - rewrite (to_ascii_digit_value c a Ha).
    by rewrite (to_ascii_mark c a "_" Ha).
  - split; [|done]. intros _. split.
    + destruct (Unicode.digit_value c) as [d|] eqn:Hd; [|done].
      destruct (digit_valid c) as [a Ha']; [by eexists|congruence].
    + intros ->. by rewrite to_ascii_underscore in Ha.
Qed.

Lemma unicode_int_full_long s n :
  Unicode.int_full s = Py.IntTooLong n
  ↔ Unicode.digit_run s n ∧ (Py.int_max_str_digits < n)%nat.
Proof.
  unfold Unicode.int_full. rewrite py_int_full_long.
  apply and_iff_compat_r. split.
  - intros (ws1 & sign & body & rest & Hs & Hws1 & Hsign & Hb & Hr & ->).
    assert (has_char "?" ws1 = false) as Hq1
      by (by apply int_spaces_no_char).
    assert (has_char "?" sign = false) as Hq3
      by (by destruct Hsign as [-> | [-> | ->]]).
    assert (has_char "?" body = false) as Hq4
      by (by apply digit_group_no_char).
    apply transform_app_inv in Hs as (s1 & r1 & -> & Hv1 & <- & Hs);
      [|done].
    apply transform_app_inv in Hs as (s2 & r2 & -> & Hv2 & H2 & Hs);
      [|done].
    apply transform_app_inv in Hs as (s3 & s4 & -> & Hv3 & <- & <-);
      [|done].
    destruct (transform_sign_inv s2 sign H2 Hsign) as [Hsign' _].
    exists s1, s2, s3, s4. split; [done|].
    split; [by apply transform_spaces|]. split; [done|].
    split; [by apply transform_digit_group|].
    split; [by apply transform_ends|].
    by rewrite <- transform_digit_count.
  - intros (ws1 & sign & body & rest & -> & Hws1 & Hsign & Hb & Hr & ->).
    destruct (transform_sign sign Hsign) as (Hv2 & Hsign' & _).
    pose proof (digit_group_valid body Hb) as Hv3.
    assert (Forall Unicode.valid ws1) as Hv1
      by (eapply Forall_impl; [exact Hws1|apply int_space_valid]).
    exists (Unicode.transform ws1), (Unicode.transform sign),
      (Unicode.transform body), (Unicode.transform rest).
    split; [by rewrite !transform_app|].
    split; [by apply transform_spaces|]. split; [done|].
    split; [by apply transform_digit_group|].
    split; [by apply transform_ends|].
    by rewrite transform_digit_count.
Qed.
End UnicodeIntLong.

(** ** Strings of any code point: the record of a line *)

Section UnicodeRecord.
Context {ucd : UnicodeData}.

Lemma unicode_int_full_value s v :
  Unicode.int_full s = Py.IntValue v ↔ Unicode.int_literal s v.
Proof.
  rewrite <- unicode_int_spec. unfold Unicode.int, Unicode.int_full.
  symmetry. apply py_int_full.
Qed.






End UnicodeRecord.



(** A start of 4301 digits is rejected for its length, and the line of the
    record is not in the error. *)
Example long_start_rejected :
  Unicode.parse_line (ucd := unicode_14)
    (replicate 4301 49%N
     ++ Unicode.code_points (line_of [""; "10"; "0"; "foo"; "abc"]))
  = inl (Unicode.ValueError (Unicode.ExceedsDigitLimit 4300 4301)).
Proof. vm_compute. reflexivity. Qed.

Example too_many_fields_rejected :
  Unicode.parse_line (ucd := unicode_14)
    (Unicode.code_points (line_of ["1"; "2"; "0"; "foo"; "abc"; "x"]))
  = inl (Unicode.ValueError (Unicode.TooManyValues 5)).
Proof. reflexivity. Qed.


(** A line of five fields whose hash is empty is rejected: [rstrip] takes
    the last tab away with the line end. *)
Lemma empty_hash_rejected :
  parse_line (line_of ["1"; "2"; "0"; "foo"; ""])
  = inl (ValueError (NotEnoughValues 5 4)).
Proof. reflexivity. Qed.

Lemma main_events_spec_witness :
  main_events 1 [header_v5; line_of ["0"; "10"; "0"; "a"; "h1"];
                 line_of ["2"; "12"; "0"; "b"; "h2"];
                 line_of ["1"; "3"; "0"; "c"; "h3"]]
  = Some (Return
            (trace_events
               [mkBuild [record 0 10 "a" "h1"; record 2 12 "b" "h2"];
                mkBuild [record 1 3 "c" "h3"]]))
  ∧ main_events 1 [header_v5] = Some (Return []).
Proof.
  split.
  - apply (proj1 main_events_spec 1%nat). reflexivity.
  - apply (proj2 main_events_spec [] header_v5 0%nat).
    + constructor.
    + reflexivity.
Defined.

Example trace_events_example :
  trace_events [mkBuild [record 0 10 "a" "h1"; record 2 12 "b" "h2"];
                mkBuild [record 1 3 "c" "h3"]]
  = [event_of (record 0 10 "a" "h1") 0 0;
     event_of (record 2 12 "b" "h2") 0 1;
     event_of (record 1 3 "c" "h3") 1 0].
Proof. reflexivity. Qed.

(** * Further properties *)

(** ** The builds of the segmenter *)

Lemma segment_snoc rs r : segment (rs ++ [r]) = segment_step (segment rs) r.
Proof. unfold segment. by rewrite foldl_snoc. Qed.

Lemma segment_step_cases builds cb t :
  last builds = Some cb →
  (need_new_build cb t = true
   ∧ segment_step builds t = builds ++ [mkBuild [t]])
  ∨ (need_new_build cb t = false
     ∧ segment_step builds t = removelast builds ++ [add_target cb t]).
Proof.
  intros Hl. destruct (need_new_build cb t) eqn:Hn.
  - left. split; [done|]. by apply (segment_step_new _ cb).
  - right. split; [done|]. by apply (segment_step_join _ cb).
Qed.

Lemma segment_step_last builds t :
  is_Some (last builds) → is_Some (last (segment_step builds t)).
Proof.
  intros [cb Hl].
  destruct (segment_step_cases builds cb t Hl) as [[_ ->]|[_ ->]];
    rewrite last_snoc; eauto.
Qed.

Lemma foldl_segment_last builds rs :
  is_Some (last builds) → is_Some (last (foldl segment_step builds rs)).
Proof.
  revert builds. induction rs as [|r rs IH]; intros builds Hl; [done|].
  simpl. by apply IH, segment_step_last.
Qed.

(** What joining says about the current build. *)
Lemma need_new_build_false cb t :
  need_new_build cb t = false →
  targets cb = []
  ∨ ∃ latest, last (targets cb) = Some latest
              ∧ (∀ x, x ∈ targets cb → name x ≠ name t)
              ∧ end_ latest ≤ end_ t.
Proof.
  unfold need_new_build, Build_contains.
  destruct (last (targets cb)) as [latest|] eqn:Hl.
  - destruct (targets_contain (targets cb) t) eqn:Hc; [done|].
    intros Hlt%bool_decide_eq_false. right. exists latest.
    split; [done|]. split; [|lia].
    intros x Hx Hn. assert (targets_contain (targets cb) t = true); [|congruence].
    apply targets_contain_name. by exists x.
  - intros _. left. by apply last_None.
Qed.

(** An invariant of the builds that holds of one build at a time is kept
    by the segmenter as soon as it holds of a build of one record and is
    kept when a record joins. *)
Lemma segment_Forall (P : Build → Prop) rs :
  P (mkBuild []) →
  (∀ t, P (mkBuild [t])) →
  (∀ cb t, P cb → need_new_build cb t = false → P (add_target cb t)) →
  Forall P (segment rs).
Proof.
  intros H0 H1 Hjoin. induction rs as [|r rs IH] using rev_ind.
  - by repeat constructor.
  - rewrite segment_snoc.
    destruct (foldl_segment_last [mkBuild []] rs) as [cb Hl]; [by eexists|].
    fold (segment rs) in Hl.
    destruct (segment_step_cases _ cb r Hl) as [[_ ->]|[Hn ->]].
    + apply Forall_app. split; [done|]. by repeat constructor.
    + apply Forall_app. split; [by apply removelast_Forall|].
      repeat constructor. apply Hjoin; [|done].
      apply last_Some in Hl as [l' Hl]. rewrite Hl in IH.
      apply Forall_app in IH as [_ IH]. by inversion IH.
Qed.

Lemma flatten_snoc builds b :
  flatten (builds ++ [b]) = flatten builds ++ targets b.
Proof.
  unfold flatten. rewrite fmap_app, join_app. simpl. by rewrite app_nil_r.
Qed.

Lemma segment_flatten rs : flatten (segment rs) = rs.
Proof.
  induction rs as [|r rs IH] using rev_ind; [done|].
  rewrite segment_snoc.
  destruct (foldl_segment_last [mkBuild []] rs) as [cb Hl]; [by eexists|].
  fold (segment rs) in Hl.
  destruct (segment_step_cases _ cb r Hl) as [[_ ->]|[_ ->]].
  - by rewrite flatten_snoc, IH.
  - apply last_Some in Hl as [l' Hl]. rewrite Hl in IH |- *.
    rewrite removelast_last. rewrite flatten_snoc in IH |- *.
    unfold add_target. simpl. by rewrite app_assoc, IH.
Qed.

Lemma segment_names rs :
  Forall (λ b, NoDup (name <$> targets b)) (segment rs).
Proof.
  apply segment_Forall.
  - constructor.
  - intros t. simpl. apply NoDup_singleton.
  - intros cb t Hcb Hn. simpl. rewrite fmap_app. apply NoDup_app.
    split; [done|]. split; [|apply NoDup_singleton].
    intros n Hin Hin'. apply list_elem_of_singleton in Hin' as ->.
    apply list_elem_of_fmap in Hin as (x & Hx & Hin).
    destruct (need_new_build_false _ _ Hn) as [He|(_ & _ & Hne & _)].
    + rewrite He in Hin. by apply elem_of_nil in Hin.
    + by apply (Hne x Hin).
Qed.

Lemma segment_ends rs :
  Forall (λ b, StronglySorted Z.le (end_ <$> targets b)) (segment rs).
Proof.
  apply segment_Forall.
  - constructor.
  - intros t. simpl. repeat constructor.
  - intros cb t Hcb Hn. simpl. rewrite fmap_app. apply StronglySorted_app.
    split; [|split; [done|repeat constructor]].
    intros e1 e2 He1 He2. apply list_elem_of_singleton in He2 as ->.
    destruct (need_new_build_false _ _ Hn) as [He|(latest & Hl & _ & Hle)].
    + rewrite He in He1. by apply elem_of_nil in He1.
    + apply last_Some in Hl as [l' Hl]. rewrite Hl in Hcb, He1.
      rewrite fmap_app in Hcb, He1. simpl in *.
      apply elem_of_snoc in He1 as [He1| ->]; [|done].
      trans (end_ latest); [|done].
      apply (StronglySorted_app_1_elem_of _ _ _ _ _ Hcb He1).
      apply list_elem_of_here.
Qed.

Lemma segment_no_empty rs :
  Forall (λ b, targets b = [] → rs = []) (segment rs).
Proof.
  induction rs as [|r rs IH] using rev_ind; [by repeat constructor|].
  rewrite segment_snoc.
  destruct (foldl_segment_last [mkBuild []] rs) as [cb Hl]; [by eexists|].
  fold (segment rs) in Hl.
  assert (rs = [] ∨ Forall (λ b, targets b ≠ []) (segment rs)) as Hrs.
  { destruct rs as [|r0 rs0]; [by left|right].
    eapply Forall_impl; [exact IH|]. simpl. intros b Hb He.
    by specialize (Hb He). }
  assert (∀ b : Build, targets b ≠ [] → targets b = [] → rs ++ [r] = [])
    as Hne by (intros b Hb He; by destruct Hb).
  destruct (segment_step_cases _ cb r Hl) as [[Hn ->]|[_ ->]].
  - assert (targets cb ≠ []) as Hcb.
    { intros He. unfold need_new_build in Hn. by rewrite He in Hn. }
    apply Forall_app. split.
    + destruct Hrs as [->|Hall].
      * simpl in Hl. injection Hl as <-. by destruct Hcb.
      * eapply Forall_impl; [exact Hall|]. simpl. intros b. apply Hne.
    + repeat constructor. simpl. intros He. discriminate He.
  - apply Forall_app. split.
    + destruct Hrs as [->|Hall].
      * simpl. constructor.
      * apply removelast_Forall. eapply Forall_impl; [exact Hall|].
        simpl. intros b. apply Hne.
    + repeat constructor. simpl. intros He. by destruct (targets cb).
Qed.

(** ** The loop over the body *)

Lemma body_step_cases builds cb line :
  last builds = Some cb →
  (skipped line = true ∧ body_step builds line = inr builds)
  ∨ (skipped line = false
     ∧ ∃ t, parse_line line = inr t
            ∧ body_step builds line = inr (segment_step builds t))
  ∨ (skipped line = false
     ∧ ∃ e, parse_line line = inl e ∧ body_step builds line = inl e).
Proof.
  intros Hl. unfold body_step, segment_step, skipped. rewrite Hl.
  destruct (_ || _); [by left|right].
  destruct (parse_line line) as [e|t].
  - right. split; [done|]. by exists e.
  - left. split; [done|]. exists t. split; [done|].
    by destruct (need_new_build cb t).
Qed.

Lemma body_loop_return builds0 body builds :
  is_Some (last builds0) →
  body_loop builds0 body = Return builds
  ↔ ∃ records,
      Forall2 reads_as (filter (λ l, skipped l = false) body) records
      ∧ builds = foldl segment_step builds0 records.
Proof.
  revert builds0. induction body as [|line body IH]; intros builds0 Hl0.
  - simpl. split.
    + intros [= <-]. exists []. split; [constructor|done].
    + intros (rs & Hrs & ->). apply Forall2_nil_inv_l in Hrs as ->. done.
  - destruct Hl0 as [cb Hl]. cbn [body_loop].
    destruct (body_step_cases builds0 cb line Hl)
      as [[Hs ->]|[[Hs (t & Ht & ->)]|[Hs (e & He & ->)]]].
    + rewrite filter_cons_False by (by rewrite Hs). apply IH. by exists cb.
    + rewrite filter_cons_True by done.
      rewrite (IH (segment_step builds0 t))
        by (apply segment_step_last; by exists cb).
      split.
      * intros (rs & Hrs & ->). exists (t :: rs). split; [|done].
        by constructor.
      * intros (rs & Hrs & ->).
        apply Forall2_cons_inv_l in Hrs as (t' & rs' & Ht' & Hrs' & ->).
        unfold reads_as in Ht'. rewrite Ht in Ht'. injection Ht' as <-.
        by exists rs'.
    + rewrite filter_cons_True by done. split; [done|].
      intros (rs & Hrs & _).
      apply Forall2_cons_inv_l in Hrs as (t' & rs' & Ht' & _).
      unfold reads_as in Ht'. congruence.
Qed.

Lemma body_loop_raise builds0 body e :
  is_Some (last builds0) →
  body_loop builds0 body = Raise e
  ↔ ∃ good line rest,
      body = good ++ line :: rest
      ∧ Forall (λ l, skipped l = true ∨ ∃ t, reads_as l t) good
      ∧ skipped line = false ∧ parse_line line = inl e.
Proof.
  revert builds0. induction body as [|line body IH]; intros builds0 Hl0.
  - simpl. split; [done|]. intros (good & l & rest & Hb & _).
    by destruct good.
  - destruct Hl0 as [cb Hl]. cbn [body_loop].
    destruct (body_step_cases builds0 cb line Hl)
      as [[Hs ->]|[[Hs (t & Ht & ->)]|[Hs (e0 & He & ->)]]].
    + rewrite (IH builds0) by (by exists cb). split.
      * intros (good & l & rest & -> & Hg & Hl' & Hp).
        exists (line :: good), l, rest. split; [done|].
        split; [|done]. constructor; [by left|done].
      * intros (good & l & rest & Hb & Hg & Hl' & Hp).
        destruct good as [|l0 good]; simpl in Hb; injection Hb as <- ->.
        { congruence. }
        exists good, l, rest. split; [done|]. split; [|done].
        by inversion Hg.
    + rewrite (IH (segment_step builds0 t))
        by (apply segment_step_last; by exists cb).
      split.
      * intros (good & l & rest & -> & Hg & Hl' & Hp).
        exists (line :: good), l, rest. split; [done|].
        split; [|done]. constructor; [|done]. right. by exists t.
      * intros (good & l & rest & Hb & Hg & Hl' & Hp).
        destruct good as [|l0 good]; simpl in Hb; injection Hb as <- ->.
        { congruence. }
        exists good, l, rest. split; [done|]. split; [|done].
        by inversion Hg.
    + split.
      * intros [= <-]. by exists [], line, body.
      * intros (good & l & rest & Hb & Hg & Hl' & Hp).
        destruct good as [|l0 good]; simpl in Hb; injection Hb as <- ->.
        { congruence. }
        inversion Hg as [|? ? [Hsk|[t Ht]] _]; subst; [congruence|].
        unfold reads_as in Ht. congruence.
Qed.

Lemma find_version_return fuel f version f' :
  find_version fuel f = Some (Return (version, f')) →
  ∃ pre header,
    f = pre ++ header :: f'
    ∧ Forall (λ l, check_version l = inr None) pre
    ∧ check_version header = inr (Some version).
Proof.
  revert f. induction fuel as [|fuel IH]; intros f; [done|].
  cbn [find_version]. destruct f as [|line f]; cbn [readline].
  - rewrite check_version_empty. intros Hf.
    destruct (IH [] Hf) as (pre & header & Heq & _). by destruct pre.
  - destruct (check_version line) as [[]|[v|]] eqn:Hc; try done.
    + intros [= -> ->]. by exists [], line.
    + intros Hf. destruct (IH f Hf) as (pre & header & -> & Hpre & Hh).
      exists (line :: pre), header. split; [done|].
      split; [by constructor|done].
Qed.

Lemma read_log_return fuel f builds :
  read_log fuel f = Some (Return builds) →
  ∃ pre header body,
    f = pre ++ header :: body
    ∧ Forall (λ l, check_version l = inr None) pre
    ∧ check_version header = inr (Some 5)
    ∧ body_loop [mkBuild []] body = Return builds.
Proof.
  unfold read_log.
  destruct (find_version fuel f) as [[[v f']|e|st e]|] eqn:Hf; try done.
  intros [= Hb].
  destruct (find_version_return _ _ _ _ Hf) as (pre & header & -> & Hpre & Hh).
  exists pre, header, f'. repeat split; [done| |done].
  enough (v = 5) by (by subst). clear -Hh.
  unfold check_version in Hh. destruct (_ && _); [done|].
  destruct (ninja_log_match header); [|done].
  destruct (Py.int s); [|done].
  case_bool_decide as Hv; [|done]. injection Hh as <-.
  by apply list_elem_of_singleton in Hv.
Qed.

(** The builds returned are the segmentation of the records read. *)
Lemma read_log_segment fuel f builds :
  read_log fuel f = Some (Return builds) →
  builds = segment (flatten builds).
Proof.
  intros Hr. destruct (read_log_return _ _ _ Hr) as (_ & _ & body & _ & _ & _ & Hb).
  apply body_loop_return in Hb as (rs & _ & ->); [|by eexists].
  fold (segment rs). by rewrite segment_flatten.
Qed.

Lemma StronglySorted_lookup {A} (R : relation A) (l : list A) i j x y :
  StronglySorted R l → (i < j)%nat →
  l !! i = Some x → l !! j = Some y → R x y.
Proof.
  intros Hs Hij Hi Hj. rewrite <- (take_drop j l) in Hs.
  apply (StronglySorted_app_1_elem_of _ _ _ x y Hs).
  - apply list_elem_of_lookup. exists i. by rewrite lookup_take_lt.
  - apply list_elem_of_lookup. exists 0%nat.
    by rewrite lookup_drop, Nat.add_0_r.
Qed.

(** X1: when [read_log] returns, the file is lines without a marker, a
    header of version 5 and a body; the records of the builds, build after
    build, are the records of the body lines that are not empty and do not
    start with [#], one for one and in file order; and the builds are the
    segmentation of that sequence of records. *)
Theorem read_log_records_in_order (fuel : nat) (f : list string)
    (builds : list Build) :
  read_log fuel f = Some (Return builds) →
  ∃ pre header body,
    f = pre ++ header :: body
    ∧ Forall (λ l, check_version l = inr None) pre
    ∧ check_version header = inr (Some 5)
    ∧ Forall2 reads_as (filter (λ l, skipped l = false) body)
                       (flatten builds)
    ∧ builds = segment (flatten builds).
Proof.
  intros Hr.
  destruct (read_log_return _ _ _ Hr) as (pre & header & body & -> & Hpre & Hh & Hb).
  exists pre, header, body. do 3 (split; [done|]).
  split; [|by eapply read_log_segment].
  apply body_loop_return in Hb as (rs & Hrs & ->); [|by eexists].
  fold (segment rs). by rewrite segment_flatten.
Qed.

Lemma read_log_records_in_order_witness :
  ∃ pre header body,
    example_log = pre ++ header :: body
    ∧ Forall (λ l, check_version l = inr None) pre
    ∧ check_version header = inr (Some 5)
    ∧ Forall2 reads_as (filter (λ l, skipped l = false) body)
                       (flatten example_builds)
    ∧ example_builds = segment (flatten example_builds).
Proof.
  apply (read_log_records_in_order 1 example_log example_builds).
  reflexivity.
Defined.

(** X2: in every build that [read_log] returns, the names of the records
    are pairwise distinct; hence no two records of a build are equal for
    [Target.__eq__]. *)
Theorem read_log_names_distinct (fuel : nat) (f : list string)
    (builds : list Build) :
  read_log fuel f = Some (Return builds) →
  ∀ b, b ∈ builds →
    NoDup (name <$> targets b)
    ∧ ∀ i j ti tj, i ≠ j →
        targets b !! i = Some ti → targets b !! j = Some tj →
        Target_eq ti tj = false.
Proof.
  intros Hr b Hb. rewrite (read_log_segment _ _ _ Hr) in Hb.
  pose proof (segment_names (flatten builds)) as Hall.
  rewrite Forall_forall in Hall. specialize (Hall b Hb).
  split; [done|]. intros i j ti tj Hne Hi Hj.
  unfold Target_eq. apply andb_false_iff. left. apply String.eqb_neq.
  intros Heq. apply Hne.
  apply (NoDup_lookup _ i j (name ti) Hall);
    rewrite list_lookup_fmap; [by rewrite Hi|by rewrite Hj, Heq].
Qed.

Lemma read_log_names_distinct_witness :
  read_log 1 example_log = Some (Return example_builds)
  ∧ ∀ b, b ∈ example_builds →
      NoDup (name <$> targets b)
      ∧ ∀ i j ti tj, i ≠ j →
          targets b !! i = Some ti → targets b !! j = Some tj →
          Target_eq ti tj = false.
Proof.
  split; [reflexivity|].
  apply (read_log_names_distinct 1 example_log example_builds).
  reflexivity.
Defined.

(** X3: in every build that [read_log] returns, the end times do not
    decrease along the build. *)
Theorem read_log_ends_nondecreasing (fuel : nat) (f : list string)
    (builds : list Build) :
  read_log fuel f = Some (Return builds) →
  ∀ b i j ti tj,
    b ∈ builds → (i < j)%nat →
    targets b !! i = Some ti → targets b !! j = Some tj →
    end_ ti ≤ end_ tj.
Proof.
  intros Hr b i j ti tj Hb Hij Hi Hj.
  rewrite (read_log_segment _ _ _ Hr) in Hb.
  pose proof (segment_ends (flatten builds)) as Hall.
  rewrite Forall_forall in Hall. specialize (Hall b Hb).
  apply (StronglySorted_lookup Z.le _ i j _ _ Hall Hij);
    rewrite list_lookup_fmap; [by rewrite Hi|by rewrite Hj].
Qed.

Lemma read_log_ends_nondecreasing_witness :
  end_ (record 0 10 "a" "h1") ≤ end_ (record 2 12 "b" "h2").
Proof.
  apply (read_log_ends_nondecreasing 1 example_log example_builds)
    with (b := mkBuild [record 0 10 "a" "h1"; record 2 12 "b" "h2"])
         (i := 0%nat) (j := 1%nat).
  - reflexivity.
  - apply list_elem_of_here.
  - lia.
  - reflexivity.
  - reflexivity.
Defined.

(** X4: [read_log] returns no empty build, except for the single empty
    build it returns when the body holds no record. *)
Theorem read_log_no_empty_build (fuel : nat) (f : list string)
    (builds : list Build) :
  read_log fuel f = Some (Return builds) →
  builds = [mkBuild []] ∨ Forall (λ b, targets b ≠ []) builds.
Proof.
  intros Hr. rewrite (read_log_segment _ _ _ Hr).
  pose proof (segment_no_empty (flatten builds)) as Hall.
  destruct (flatten builds) as [|r rs]; [by left|right].
  eapply Forall_impl; [exact Hall|]. simpl. intros b Hb He.
  by specialize (Hb He).
Qed.

Lemma read_log_no_empty_build_witness :
  example_builds = [mkBuild []] ∨ Forall (λ b, targets b ≠ []) example_builds.
Proof.
  apply (read_log_no_empty_build 1 example_log example_builds).
  reflexivity.
Defined.

(** X5: with a header of version 5, [read_log] raises [e] exactly when the
    body has a first line, neither empty nor a comment, whose record cannot
    be built, [e] being the error of that line; what comes after that line
    plays no part, and the records read before are lost. *)
Theorem read_log_raises_first_error (pre : list string) (header : string)
    (body : list string) (fuel : nat) (e : py_error) :
  Forall (λ l, check_version l = inr None) pre →
  check_version header = inr (Some 5) →
  read_log (length pre + S fuel) (pre ++ header :: body) = Some (Raise e)
  ↔ ∃ good line rest,
      body = good ++ line :: rest
      ∧ Forall (λ l, skipped l = true ∨ ∃ t, reads_as l t) good
      ∧ skipped line = false ∧ parse_line line = inl e.
Proof.
  intros Hpre Hh. rewrite (read_log_header pre header body fuel Hpre Hh).
  rewrite <- (body_loop_raise [mkBuild []] body e) by (by eexists).
  split; [by intros [= ->]|by intros ->].
Qed.

Lemma read_log_raises_first_error_witness :
  read_log 1 [header_v5; line_of ["0"; "10"; "0"; "a"; "h1"];
              line_of ["x"; "12"; "0"; "b"; "h2"];
              line_of ["1"; "3"; "0"; "c"; "h3"]]
  = Some (Raise (ValueError (InvalidLiteral "x")))
  ↔ ∃ good line rest,
      [line_of ["0"; "10"; "0"; "a"; "h1"];
       line_of ["x"; "12"; "0"; "b"; "h2"];
       line_of ["1"; "3"; "0"; "c"; "h3"]] = good ++ line :: rest
      ∧ Forall (λ l, skipped l = true ∨ ∃ t, reads_as l t) good
      ∧ skipped line = false
      ∧ parse_line line = inl (ValueError (InvalidLiteral "x")).
Proof.
  apply (read_log_raises_first_error [] header_v5 _ 0%nat).
  - constructor.
  - reflexivity.
Defined.

(** ** The version marker *)

Lemma literal_iff lit s r : literal lit s = Some r ↔ s = lit +:+ r.
Proof.
  revert s. induction lit as [|c lit IH]; intros s; simpl.
  - rewrite append_nil. split; [by intros [= ->]|by intros ->].
  - rewrite append_cons. destruct s as [|d s]; [done|].
    case_bool_decide as Hc.
    + subst d. rewrite IH. split; [by intros ->|by intros [= ->]].
    + split; [done|]. intros [= <- _]. done.
Qed.

Lemma skip_blanks_app w r :
  all_blank w = true → skip_blanks (w +:+ r) = skip_blanks r.
Proof.
  induction w as [|c w IH]; [done|]. rewrite append_cons. simpl.
  intros [Hc Hw]%andb_true_iff. rewrite Hc. by apply IH.
Qed.

Lemma skip_blanks_decomp s :
  ∃ w, all_blank w = true ∧ s = w +:+ skip_blanks s.
Proof.
  induction s as [|c s (w & Hw & Hs)]; [by exists EmptyString|]. simpl.
  destruct (is_blank c) eqn:Hc.
  - exists (String c w). simpl. rewrite Hc, Hw. split; [done|].
    rewrite append_cons. by rewrite <- Hs.
  - by exists EmptyString.
Qed.

Lemma skip_blanks_head c s :
  is_blank c = false → skip_blanks (String c s) = String c s.
Proof. intros Hc. simpl. by rewrite Hc. Qed.

(** A run of blanks followed by a character that is not a blank is taken
    whole. *)
Lemma blanks1_run w c r :
  blanks w → is_blank c = false → blanks1 (w +:+ String c r) = Some (String c r).
Proof.
  intros [Hne Hw] Hc. destruct w as [|b w]; [done|].
  rewrite append_cons. simpl in *.
  apply andb_true_iff in Hw as [Hb Hw]. rewrite Hb.
  by rewrite skip_blanks_app, skip_blanks_head.
Qed.

Lemma blanks1_inv s r :
  blanks1 s = Some r → ∃ w, blanks w ∧ s = w +:+ r.
Proof.
  destruct s as [|b s]; [done|]. simpl.
  destruct (is_blank b) eqn:Hb; [|done]. intros [= <-].
  destruct (skip_blanks_decomp s) as (w & Hw & Hs).
  exists (String b w). split.
  - split; [done|]. simpl. by rewrite Hb, Hw.
  - rewrite append_cons. by rewrite <- Hs.
Qed.

Lemma literal_app lit r : literal lit (lit +:+ r) = Some r.
Proof. by apply literal_iff. Qed.

Lemma blanks1_next w s c r :
  blanks w → s = String c r → is_blank c = false →
  blanks1 (w +:+ s) = Some s.
Proof. intros Hw -> Hc. by apply blanks1_run. Qed.

Lemma bind_Some_l {A B} (x : A) (f : A → option B) : Some x ≫= f = f x.
Proof. done. Qed.

Lemma ninja_log_match_iff line group :
  ninja_log_match line = Some group
  ↔ ∃ c, is_Some (Py.digit_value c) ∧ marker_line line c
         ∧ group = String c EmptyString.
Proof.
  unfold ninja_log_match, marker_line. split.
  - intros H.
    apply bind_Some in H as (s1 & H1 & H).
    apply bind_Some in H as (s2 & H2 & H).
    apply bind_Some in H as (s3 & H3 & H).
    apply bind_Some in H as (s4 & H4 & H).
    apply bind_Some in H as (s5 & H5 & H).
    apply bind_Some in H as (s6 & H6 & H).
    apply bind_Some in H as (s7 & H7 & H).
    destruct s7 as [|c rest]; [done|].
    case_bool_decide as Hc; [|done]. injection H as <-.
    apply literal_iff in H1, H3, H5, H7.
    apply blanks1_inv in H2 as (w1 & Hw1 & H2).
    apply blanks1_inv in H4 as (w2 & Hw2 & H4).
    apply blanks1_inv in H6 as (w3 & Hw3 & H6).
    exists c. split; [done|]. split; [|done].
    exists w1, w2, w3, rest. do 3 (split; [done|]). by subst.
  - intros (c & Hc & (w1 & w2 & w3 & rest & Hw1 & Hw2 & Hw3 & ->) & ->).
    rewrite literal_app, bind_Some_l. cbv beta.
    erewrite blanks1_next; [|done|reflexivity|reflexivity].
    rewrite bind_Some_l. cbv beta.
    rewrite literal_app, bind_Some_l. cbv beta.
    erewrite blanks1_next; [|done|reflexivity|reflexivity].
    rewrite bind_Some_l. cbv beta.
    rewrite literal_app, bind_Some_l. cbv beta.
    erewrite blanks1_next; [|done|reflexivity|reflexivity].
    rewrite bind_Some_l. cbv beta.
    rewrite literal_app, bind_Some_l. cbv beta iota.
    by rewrite bool_decide_eq_true_2.
Qed.

Lemma digit_value_range c d : Py.digit_value c = Some d → 0 ≤ d ≤ 9.
Proof.
  unfold Py.digit_value. case_bool_decide; [|done]. intros [= <-]. lia.
Qed.

Lemma digit_value_five c : Py.digit_value c = Some 5 ↔ c = "5"%char.
Proof.
  split; [|by intros ->].
  destruct c as [[|] [|] [|] [|] [|] [|] [|] [|]]; vm_compute; congruence.
Qed.

Lemma int_digit c d :
  Py.digit_value c = Some d → Py.int (String c EmptyString) = Some d.
Proof.
  intros Hd. destruct (digit_not_mark c) as (Hs & _ & Hm & Hp); [by eexists|].
  unfold Py.int, Py.int_full. rewrite lstrip_head by done.
  rewrite !bool_decide_eq_false_2 by done. simpl. by rewrite Hd.
Qed.

(** [check_version] on a marker line. *)
Lemma check_version_marker line c d :
  marker_line line c → Py.digit_value c = Some d →
  check_version line
  = if bool_decide (d = 5) then inr (Some d) else inl (VersionError 5 d).
Proof.
  intros Hm Hd. apply (check_version_match line (String c EmptyString)).
  - apply ninja_log_match_iff. exists c. by split; [eexists|].
  - by apply int_digit.
Qed.

Lemma check_version_no_marker line :
  (∀ c, is_Some (Py.digit_value c) → ¬ marker_line line c) →
  check_version line = inr None.
Proof.
  intros Hn. unfold check_version. destruct (_ && _); [done|].
  destruct (ninja_log_match line) as [g|] eqn:Hg; [|done].
  apply ninja_log_match_iff in Hg as (c & Hc & Hm & _).
  by destruct (Hn c Hc).
Qed.

Lemma marker_or_not line :
  (∃ c d, Py.digit_value c = Some d ∧ marker_line line c)
  ∨ (∀ c, is_Some (Py.digit_value c) → ¬ marker_line line c).
Proof.
  destruct (ninja_log_match line) as [g|] eqn:Hg.
  - apply ninja_log_match_iff in Hg as (c & [d Hd] & Hm & _).
    left. by exists c, d.
  - right. intros c Hc Hm.
    assert (ninja_log_match line = Some (String c EmptyString)); [|congruence].
    apply ninja_log_match_iff. by exists c.
Qed.

(** X6: [check_version] has three outcomes only: [None], the version 5, or
    [VersionError] with 5 as the good version and a single digit other
    than 5 as the bad one. It raises nothing else. *)
Theorem check_version_outcomes (line : string) :
  check_version line = inr None
  ∨ check_version line = inr (Some 5)
  ∨ ∃ d, 0 ≤ d ≤ 9 ∧ d ≠ 5 ∧ check_version line = inl (VersionError 5 d).
Proof.
  destruct (marker_or_not line) as [(c & d & Hd & Hm)|Hn].
  - rewrite (check_version_marker line c d Hm Hd).
    case_bool_decide as H5; [subst; by right; left|].
    right. right. exists d. split; [by eapply digit_value_range|done].
  - left. by apply check_version_no_marker.
Qed.

(** ** Strings of any code point: the version marker *)

Section UnicodeMarker.
Context {ucd : UnicodeData}.

Lemma uliteral_iff lit s r : Unicode.literal lit s = Some r ↔ s = lit ++ r.
Proof.
  revert s. induction lit as [|c lit IH]; intros s; simpl.
  - split; [by intros [= ->]|by intros ->].
  - destruct s as [|d s]; [done|].
    case_bool_decide as Hc.
    + subst d. rewrite IH. split; [by intros ->|by intros [= ->]].
    + split; [done|]. intros [= <- _]. done.
Qed.

Lemma uliteral_app lit r : Unicode.literal lit (lit ++ r) = Some r.
Proof. by apply uliteral_iff. Qed.

Lemma uis_blank_iff c :
  Unicode.is_blank c = true ↔ c = Unicode.tab ∨ c = 32%N.
Proof.
  unfold Unicode.is_blank. by rewrite orb_true_iff, !bool_decide_eq_true.
Qed.

Lemma uskip_blanks_app w r :
  Forall (λ c, c = Unicode.tab ∨ c = 32%N) w →
  Unicode.skip_blanks (w ++ r) = Unicode.skip_blanks r.
Proof.
  induction 1 as [|c w Hc%uis_blank_iff _ IH]; [done|]. simpl.
  by rewrite Hc.
Qed.

Lemma uskip_blanks_decomp s :
  ∃ w, Forall (λ c, c = Unicode.tab ∨ c = 32%N) w
       ∧ s = w ++ Unicode.skip_blanks s.
Proof.
  induction s as [|c s (w & Hw & Hs)]; [by exists []|]. simpl.
  destruct (Unicode.is_blank c) eqn:Hc.
  - exists (c :: w). split; [constructor; [by apply uis_blank_iff|done]|].
    simpl. by rewrite <- Hs.
  - by exists [].
Qed.

Lemma ublanks1_run w c r :
  Unicode.blanks w → Unicode.is_blank c = false →
  Unicode.blanks1 (w ++ c :: r) = Some (c :: r).
Proof.
  intros [Hne Hw] Hc. destruct w as [|b w]; [done|].
  inversion Hw as [|? ? Hb%uis_blank_iff Hw']; subst. simpl. rewrite Hb.
  rewrite uskip_blanks_app by done. simpl. by rewrite Hc.
Qed.

Lemma ublanks1_next w s c r :
  Unicode.blanks w → s = c :: r → Unicode.is_blank c = false →
  Unicode.blanks1 (w ++ s) = Some s.
Proof. intros Hw -> Hc. by apply ublanks1_run. Qed.

Lemma ublanks1_inv s r :
  Unicode.blanks1 s = Some r → ∃ w, Unicode.blanks w ∧ s = w ++ r.
Proof.
  destruct s as [|b s]; [done|]. simpl.
  destruct (Unicode.is_blank b) eqn:Hb; [|done]. intros [= <-].
  destruct (uskip_blanks_decomp s) as (w & Hw & Hs).
  exists (b :: w). split.
  - split; [done|]. constructor; [by apply uis_blank_iff|done].
  - simpl. by rewrite <- Hs.
Qed.

Lemma udigit_value_is_Some c :
  is_Some (Unicode.digit_value c) ↔ is_Some (Unicode.todecimal c).
Proof. unfold Unicode.digit_value. apply fmap_is_Some. Qed.

Lemma uninja_log_match_iff line group :
  Unicode.ninja_log_match line = Some group
  ↔ ∃ c, is_Some (Unicode.digit_value c) ∧ Unicode.marker_line line c
         ∧ group = [c].
Proof.
  unfold Unicode.ninja_log_match, Unicode.marker_line. split.
  - intros H.
    apply bind_Some in H as (s1 & H1 & H).
    apply bind_Some in H as (s2 & H2 & H).
    apply bind_Some in H as (s3 & H3 & H).
    apply bind_Some in H as (s4 & H4 & H).
    apply bind_Some in H as (s5 & H5 & H).
    apply bind_Some in H as (s6 & H6 & H).
    apply bind_Some in H as (s7 & H7 & H).
    destruct s7 as [|c rest]; [done|].
    case_bool_decide as Hc; [|done]. injection H as <-.
    apply uliteral_iff in H1, H3, H5, H7.
    apply ublanks1_inv in H2 as (w1 & Hw1 & H2).
    apply ublanks1_inv in H4 as (w2 & Hw2 & H4).
    apply ublanks1_inv in H6 as (w3 & Hw3 & H6).
    exists c. split; [by apply udigit_value_is_Some|]. split; [|done].
    exists w1, w2, w3, rest. do 3 (split; [done|]). by subst.
  - intros (c & Hc & (w1 & w2 & w3 & rest & Hw1 & Hw2 & Hw3 & ->) & ->).
    rewrite uliteral_app, bind_Some_l. cbv beta.
    erewrite ublanks1_next; [|done|reflexivity|reflexivity].
    rewrite bind_Some_l. cbv beta.
    rewrite uliteral_app, bind_Some_l. cbv beta.
    erewrite ublanks1_next; [|done|reflexivity|reflexivity].
    rewrite bind_Some_l. cbv beta.
    rewrite uliteral_app, bind_Some_l. cbv beta.
    erewrite ublanks1_next; [|done|reflexivity|reflexivity].
    rewrite bind_Some_l. cbv beta.
    rewrite uliteral_app, bind_Some_l. cbv beta iota.
    rewrite bool_decide_eq_true_2; [done|].
    by apply udigit_value_is_Some.
Qed.

Lemma uint_digit c d :
  Unicode.digit_value c = Some d → Unicode.int [c] = Some d.
Proof.
  intros Hd. apply unicode_int_spec. exists [], [], [c], [].
  split; [done|]. do 2 (split; [constructor|]). split; [by left|].
  split; [exists c, []; split; [done|]; split; [by eexists|constructor]|].
  simpl. rewrite Hd. split; [unfold Py.int_max_str_digits; lia|].
  unfold Unicode.sign_factor. simpl. lia.
Qed.

Lemma ucheck_version_match line group version :
  Unicode.ninja_log_match line = Some group →
  Unicode.int group = Some version →
  Unicode.check_version line
  = if bool_decide (version = 5) then inr (Some version)
    else inl (Unicode.VersionError 5 version).
Proof.
  intros Hm Hv. unfold Unicode.check_version.
  assert (head line = Some (N_of_ascii "#")) as Hh.
  { unfold Unicode.ninja_log_match in Hm.
    apply bind_Some in Hm as (s1 & ->%uliteral_iff & _). done. }
  rewrite Hh, Hm.
  apply py_int_full in Hv. unfold Unicode.int_full. rewrite Hv.
  rewrite (bool_decide_eq_true_2 (Some _ = Some _)) by done.
  rewrite andb_false_r. unfold allowed_versions.
  case_bool_decide as H5; case_bool_decide as H5'; try done.
  - apply list_elem_of_singleton in H5. done.
  - subst. exfalso. apply H5. apply list_elem_of_here.
Qed.

Lemma ucheck_version_marker line c d :
  Unicode.marker_line line c → Unicode.digit_value c = Some d →
  Unicode.check_version line
  = if bool_decide (d = 5) then inr (Some d)
    else inl (Unicode.VersionError 5 d).
Proof.
  intros Hm Hd. apply (ucheck_version_match line [c]).
  - apply uninja_log_match_iff. exists c. by split; [eexists|].
  - by apply uint_digit.
Qed.

Lemma ucheck_version_no_marker line :
  (∀ c, is_Some (Unicode.digit_value c) → ¬ Unicode.marker_line line c) →
  Unicode.check_version line = inr None.
Proof.
  intros Hn. unfold Unicode.check_version. destruct (_ && _); [done|].
  destruct (Unicode.ninja_log_match line) as [g|] eqn:Hg; [|done].
  apply uninja_log_match_iff in Hg as (c & Hc & Hm & _).
  by destruct (Hn c Hc).
Qed.

Lemma umarker_or_not line :
  (∃ c d, Unicode.digit_value c = Some d ∧ Unicode.marker_line line c)
  ∨ (∀ c, is_Some (Unicode.digit_value c) → ¬ Unicode.marker_line line c).
Proof.
  destruct (Unicode.ninja_log_match line) as [g|] eqn:Hg.
  - apply uninja_log_match_iff in Hg as (c & [d Hd] & Hm & _).
    left. by exists c, d.
  - right. intros c Hc Hm.
    assert (Unicode.ninja_log_match line = Some [c]); [|congruence].
    apply uninja_log_match_iff. by exists c.
Qed.

Lemma umarker_digit_unique line c c' :
  is_Some (Unicode.digit_value c) → is_Some (Unicode.digit_value c') →
  Unicode.marker_line line c → Unicode.marker_line line c' → c = c'.
Proof.
  intros Hc Hc' Hm Hm'.
  assert (Unicode.ninja_log_match line = Some [c]) as H1.
  { apply uninja_log_match_iff. by exists c. }
  assert (Unicode.ninja_log_match line = Some [c']) as H2.
  { apply uninja_log_match_iff. by exists c'. }
  congruence.
Qed.
End UnicodeMarker.

(** X7: [check_version] returns the version exactly on the lines that start
    with [#], blanks, [ninja], blanks, [log], blanks, [v] and a decimal
    digit of value 5, of whatever script, whatever follows; it raises
    [VersionError], with 5 as the good version and the value of the digit
    as the bad one, exactly on the lines that start so with a decimal digit
    of another value; on every other line it returns [None]. *)
Theorem unicode_check_version_marker_lines {ucd : UnicodeData}
    (line : list N) :
  (Unicode.check_version line = inr (Some 5)
   ↔ ∃ c, Unicode.digit_value c = Some 5 ∧ Unicode.marker_line line c)
  ∧ (∀ good bad,
       Unicode.check_version line = inl (Unicode.VersionError good bad)
       ↔ good = 5 ∧ bad ≠ 5
         ∧ ∃ c, Unicode.digit_value c = Some bad
                ∧ Unicode.marker_line line c)
  ∧ (Unicode.check_version line = inr None
     ↔ ∀ c, is_Some (Unicode.digit_value c) → ¬ Unicode.marker_line line c).
Proof.
  destruct (umarker_or_not line) as [(c & d & Hd & Hm)|Hn].
  - pose proof (ucheck_version_marker line c d Hm Hd) as Hcv.
    assert (∀ c' d', Unicode.digit_value c' = Some d' →
                     Unicode.marker_line line c' → d' = d) as Huniq.
    { intros c' d' Hd' Hm'.
      assert (c = c') as <-; [|congruence].
      by apply (umarker_digit_unique line); [eexists|eexists|..]. }
    rewrite Hcv. case_bool_decide as H5.
    + subst d. split; [|split].
      * split; [|done]. intros _. by exists c.
      * intros good bad. split; [done|].
        intros (_ & Hne & c' & Hc' & Hm').
        by destruct (Hne (Huniq c' bad Hc' Hm')).
      * split; [done|]. intros Hn. destruct (Hn c); [by eexists|done].
    + split; [|split].
      * split; [done|]. intros (c' & Hc' & Hm').
        by destruct (H5 (eq_sym (Huniq c' 5 Hc' Hm'))).
      * intros good bad. split.
        -- intros [= <- <-]. split; [done|]. split; [done|]. by exists c.
        -- intros (-> & _ & c' & Hc' & Hm').
           by rewrite (Huniq c' bad Hc' Hm').
      * split; [done|]. intros Hn. destruct (Hn c); [by eexists|done].
  - rewrite (ucheck_version_no_marker line Hn). split; [|split].
    + split; [done|]. intros (c & Hc & Hm). destruct (Hn c); [by eexists|done].
    + intros good bad. split; [done|].
      intros (_ & _ & c & Hc & Hm). destruct (Hn c); [by eexists|done].
    + done.
Qed.

(** The version 5 written with an Arabic-Indic digit is accepted, and with
    a superscript digit, which is no decimal digit, the line is no marker. *)
Example arabic_indic_version_accepted :
  Unicode.check_version (ucd := unicode_14) arabic_indic_header
  = inr (Some 5)
  ∧ Unicode.check_version (ucd := unicode_14)
      (Unicode.code_points "# ninja log v" ++ [178%N]) = inr None.
Proof. split; reflexivity. Qed.

(** ** The two embeddings of strings *)

Lemma code_points_app a b :
  Unicode.code_points (a +:+ b)
  = Unicode.code_points a ++ Unicode.code_points b.
Proof.
  induction a as [|c a IH]; [done|]. rewrite append_cons. simpl.
  by rewrite IH.
Qed.

Lemma N_of_ascii_inj c d : N_of_ascii c = N_of_ascii d → c = d.
Proof.
  intros H. by rewrite <- (ascii_N_embedding c), H, ascii_N_embedding.
Qed.

Lemma code_points_inj a b :
  Unicode.code_points a = Unicode.code_points b → a = b.
Proof.
  revert b. induction a as [|c a IH]; intros [|d b]; try done. simpl.
  intros [= Hc%N_of_ascii_inj Ha%IH]. by subst.
Qed.

Lemma code_points_cons_inv s n l :
  Unicode.code_points s = n :: l →
  ∃ c s', s = String c s' ∧ N_of_ascii c = n ∧ Unicode.code_points s' = l.
Proof.
  destruct s as [|c s]; [done|]. simpl. intros [= <- <-]. by exists c, s.
Qed.

Lemma code_points_nil_inv s : Unicode.code_points s = [] → s = EmptyString.
Proof. by destruct s. Qed.

Lemma code_points_app_inv s x y :
  Unicode.code_points s = x ++ y →
  ∃ a b, s = a +:+ b ∧ Unicode.code_points a = x
         ∧ Unicode.code_points b = y.
Proof.
  revert s. induction x as [|n x IH]; intros s Hs.
  - by exists EmptyString, s.
  - apply code_points_cons_inv in Hs as (c & s' & -> & <- & Hs').
    destruct (IH s' Hs') as (a & b & -> & <- & <-).
    by exists (String c a), b.
Qed.

Lemma is_int_space_code c :
  Py.is_int_space c
  = bool_decide (N_of_ascii c ∈ [9; 10; 11; 12; 13; 32; 133; 160]%N).
Proof. destruct c as [[|] [|] [|] [|] [|] [|] [|] [|]]; reflexivity. Qed.

Lemma isspace_code c :
  Py.isspace c
  = bool_decide (N_of_ascii c
                 ∈ [9; 10; 11; 12; 13; 28; 29; 30; 31; 32; 133; 160]%N).
Proof. destruct c as [[|] [|] [|] [|] [|] [|] [|] [|]]; reflexivity. Qed.

Section Latin1.
Context {ucd : UnicodeData}.
Hypothesis Hdb : latin1_database ucd.

Lemma digit_value_code c :
  Py.digit_value c = Unicode.digit_value (N_of_ascii c).
Proof.
  pose proof (N_ascii_bounded c) as Hb. destruct Hdb as [_ Hdec].
  unfold Py.digit_value, Unicode.digit_value, Unicode.todecimal,
    nat_of_ascii.
  destruct (N_of_ascii c <? 128)%N eqn:Hc.
  - destruct ((48 <=? N_of_ascii c) && (N_of_ascii c <=? 57))%N eqn:Hd.
    + apply andb_true_iff in Hd as [H1%N.leb_le H2%N.leb_le].
      rewrite bool_decide_eq_true_2 by lia. simpl. f_equal. lia.
    + rewrite bool_decide_eq_false_2; [done|]. intros [H1 H2].
      apply andb_false_iff in Hd as [Hd%N.leb_gt|Hd%N.leb_gt]; lia.
  - apply N.ltb_ge in Hc. rewrite Hdec by lia.
    rewrite bool_decide_eq_false_2; [done|]. lia.
Qed.

Lemma int_space_code c :
  Py.is_int_space c = true ↔ Unicode.int_space (N_of_ascii c).
Proof.
  pose proof (N_ascii_bounded c) as Hb. destruct Hdb as [Hsp _].
  rewrite is_int_space_code, bool_decide_eq_true. unfold Unicode.int_space.
  split.
  - intros H. repeat (apply elem_of_cons in H as [H|H]).
    1-6: left; rewrite H; by apply (bool_decide_unpack _).
    1-2: right; rewrite H; split; [lia|]; by rewrite Hsp by lia.
    by apply elem_of_nil in H.
  - intros [H|[H1 H2]].
    + repeat (apply elem_of_cons in H as [->|H];
              [by apply (bool_decide_unpack _)|]).
      by apply elem_of_nil in H.
    + rewrite Hsp in H2 by lia. apply bool_decide_eq_true in H2.
      repeat (apply elem_of_cons in H2 as [->|H2];
              [by apply (bool_decide_unpack _)|]).
      by apply elem_of_nil in H2.
Qed.

Lemma unicode_isspace_code c :
  Unicode.isspace (N_of_ascii c) = Py.isspace c.
Proof.
  pose proof (N_ascii_bounded c) as Hb. destruct Hdb as [Hsp _].
  rewrite isspace_code. unfold Unicode.isspace, Unicode.ascii_whitespace.
  destruct (N_of_ascii c <? 128)%N eqn:Hc.
  - apply N.ltb_lt in Hc. apply bool_decide_ext.
    rewrite !elem_of_cons, !elem_of_nil. lia.
  - apply N.ltb_ge in Hc. rewrite Hsp by lia. apply bool_decide_ext.
    rewrite !elem_of_cons, !elem_of_nil. lia.
Qed.

(** The parts of a literal, in the two embeddings. *)
Lemma all_int_space_code a :
  Py.all_int_space a = true
  ↔ Forall Unicode.int_space (Unicode.code_points a).
Proof.
  induction a as [|c a IH]; [done|]. simpl.
  by rewrite andb_true_iff, Forall_cons, IH, int_space_code.
Qed.

Lemma digits_tail_code a :
  digits_tail a ↔ Unicode.digits_tail (Unicode.code_points a).
Proof.
  split.
  - induction 1 as [|c a Hc _ IH|c a Hc _ IH]; simpl.
    + constructor.
    + constructor; [by rewrite <- digit_value_code|done].
    + apply (Unicode.tail_underscore (N_of_ascii c));
        [by rewrite <- digit_value_code|done].
  - remember (Unicode.code_points a) as l eqn:Hl. intros Hd. revert a Hl.
    induction Hd as [|n l Hn _ IH|n l Hn _ IH]; intros a Hl;
      symmetry in Hl.
    + apply code_points_nil_inv in Hl as ->. constructor.
    + apply code_points_cons_inv in Hl as (c & a' & -> & <- & Ha').
      constructor; [by rewrite digit_value_code|by apply IH].
    + apply code_points_cons_inv in Hl as (c0 & a0 & -> & Hc0 & Ha0).
      apply code_points_cons_inv in Ha0 as (c & a' & -> & <- & Ha').
      apply N_of_ascii_inj in Hc0 as ->.
      constructor; [by rewrite digit_value_code|by apply IH].
Qed.

Lemma digit_group_code a :
  digit_group a ↔ Unicode.digit_group (Unicode.code_points a).
Proof.
  split.
  - intros (c & t & -> & Hc & Ht).
    exists (N_of_ascii c), (Unicode.code_points t).
    split; [done|]. split; [by rewrite <- digit_value_code|].
    by apply digits_tail_code.
  - intros (n & l & Ha & Hn & Hl).
    apply code_points_cons_inv in Ha as (c & t & -> & <- & <-).
    exists c, t. split; [done|]. split; [by rewrite digit_value_code|].
    by apply digits_tail_code.
Qed.

Lemma digits_value_code a acc :
  digits_value acc a = Unicode.digits_value acc (Unicode.code_points a).
Proof.
  revert acc. induction a as [|c a IH]; intros acc; [done|]. simpl.
  rewrite <- digit_value_code. by destruct (Py.digit_value c); rewrite IH.
Qed.

Lemma digit_count_code a :
  digit_count a = Unicode.digit_count (Unicode.code_points a).
Proof.
  induction a as [|c a IH]; [done|]. simpl.
  rewrite <- digit_value_code. by destruct (Py.digit_value c); rewrite IH.
Qed.

Lemma sign_code a :
  (a = "" ∨ a = "+" ∨ a = "-")
  ↔ (Unicode.code_points a = []
     ∨ Unicode.code_points a = Unicode.code_points "+"
     ∨ Unicode.code_points a = Unicode.code_points "-").
Proof.
  split.
  - intros [-> | [-> | ->]]; [by left|by right; left|by right; right].
  - intros [H|[H|H]].
    + left. by apply code_points_nil_inv.
    + right. left. by apply code_points_inj.
    + right. right. by apply code_points_inj.
Qed.

Lemma sign_factor_code a :
  sign_factor a = Unicode.sign_factor (Unicode.code_points a).
Proof.
  unfold sign_factor, Unicode.sign_factor.
  case_bool_decide as H1; case_bool_decide as H2; try done.
  - by subst.
  - by apply code_points_inj in H2.
Qed.

Lemma ends_digits_code rest :
  ends_digits rest ↔ Unicode.ends_digits (Unicode.code_points rest).
Proof.
  destruct rest as [|c rest]; [done|].
  cbn [ends_digits Unicode.ends_digits Unicode.code_points].
  rewrite <- digit_value_code. apply and_iff_compat_l. split.
  - intros Hc Hn. by apply N_of_ascii_inj in Hn.
  - intros Hn ->. done.
Qed.

Lemma int_literal_code s v :
  int_literal s v ↔ Unicode.int_literal (Unicode.code_points s) v.
Proof.
  split.
  - intros (ws1 & sign & body & ws2 & -> & Hws1 & Hws2 & Hsign & Hb & Hlim
            & ->).
    exists (Unicode.code_points ws1), (Unicode.code_points sign),
      (Unicode.code_points body), (Unicode.code_points ws2).
    split; [by rewrite !code_points_app|].
    split; [by apply all_int_space_code|].
    split; [by apply all_int_space_code|].
    split; [by apply sign_code|]. split; [by apply digit_group_code|].
    split; [by rewrite <- digit_count_code|].
    by rewrite <- digits_value_code, <- sign_factor_code.
  - intros (x1 & x2 & x3 & x4 & Hs & Hws1 & Hws2 & Hsign & Hb & Hlim & ->).
    apply code_points_app_inv in Hs as (ws1 & r1 & -> & <- & Hs).
    apply code_points_app_inv in Hs as (sign & r2 & -> & <- & Hs).
    apply code_points_app_inv in Hs as (body & ws2 & -> & <- & <-).
    exists ws1, sign, body, ws2. split; [done|].
    split; [by apply all_int_space_code|].
    split; [by apply all_int_space_code|].
    split; [by apply sign_code|]. split; [by apply digit_group_code|].
    split; [by rewrite digit_count_code|].
    by rewrite digits_value_code, sign_factor_code.
Qed.

Lemma digit_run_code s n :
  digit_run s n ↔ Unicode.digit_run (Unicode.code_points s) n.
Proof.
  split.
  - intros (ws1 & sign & body & rest & -> & Hws1 & Hsign & Hb & Hr & ->).
    exists (Unicode.code_points ws1), (Unicode.code_points sign),
      (Unicode.code_points body), (Unicode.code_points rest).
    split; [by rewrite !code_points_app|].
    split; [by apply all_int_space_code|].
    split; [by apply sign_code|]. split; [by apply digit_group_code|].
    split; [by apply ends_digits_code|]. apply digit_count_code.
  - intros (x1 & x2 & x3 & x4 & Hs & Hws1 & Hsign & Hb & Hr & ->).
    apply code_points_app_inv in Hs as (ws1 & r1 & -> & <- & Hs).
    apply code_points_app_inv in Hs as (sign & r2 & -> & <- & Hs).
    apply code_points_app_inv in Hs as (body & rest & -> & <- & <-).
    exists ws1, sign, body, rest. split; [done|].
    split; [by apply all_int_space_code|].
    split; [by apply sign_code|]. split; [by apply digit_group_code|].
    split; [by apply ends_digits_code|]. symmetry. apply digit_count_code.
Qed.

(** [int] is the same function in the two embeddings. *)
Lemma int_full_code s :
  Unicode.int_full (Unicode.code_points s) = Py.int_full s.
Proof.
  destruct (Py.int_full s) as [v| |n] eqn:H1.
  - apply unicode_int_full_value, int_literal_code, py_int_spec.
    by apply py_int_full.
  - destruct (Unicode.int_full (Unicode.code_points s)) as [v| |n] eqn:H2.
    + apply unicode_int_full_value, int_literal_code, py_int_spec in H2.
      apply py_int_full in H2. congruence.
    + done.
    + apply unicode_int_full_long in H2 as [H2 Hlim].
      apply digit_run_code in H2.
      assert (Py.int_full s = Py.IntTooLong n); [|congruence].
      by apply py_int_full_long.
  - apply py_int_full_long in H1 as [H1 Hlim].
    apply unicode_int_full_long. split; [|done]. by apply digit_run_code.
Qed.

(** The record of a line is the same in the two embeddings. *)
Lemma rstrip_code s :
  Unicode.rstrip (Unicode.code_points s) = Unicode.code_points (Py.rstrip s).
Proof.
  induction s as [|c s IH]; [done|]. simpl. rewrite IH.
  destruct (Py.rstrip s) as [|d r]; simpl; [|done].
  rewrite unicode_isspace_code. by destruct (Py.isspace c).
Qed.

Lemma split_code sep s :
  Unicode.split (N_of_ascii sep) (Unicode.code_points s)
  = Unicode.code_points <$> Py.split sep s.
Proof.
  induction s as [|c s IH]; [done|]. simpl. rewrite IH.
  rewrite (bool_decide_ext (N_of_ascii c = N_of_ascii sep) (c = sep));
    [|split; [apply N_of_ascii_inj|by intros ->]].
  case_bool_decide; [done|]. by destruct (Py.split sep s).
Qed.

Lemma Target_init_code s e n h :
  result_code_points Target_code_points (Target_init s e n h)
  = Some (Unicode.Target_init (Unicode.code_points s)
            (Unicode.code_points e) (Unicode.code_points n)
            (Unicode.code_points h)).
Proof.
  unfold Unicode.Target_init, Target_init. rewrite !int_full_code.
  destruct (Py.int_full s) as [vs| |?]; [|done..].
  by destruct (Py.int_full e) as [ve| |?].
Qed.

Lemma parse_line_code line :
  result_code_points Target_code_points (parse_line line)
  = Some (Unicode.parse_line (Unicode.code_points line)).
Proof.
  unfold Unicode.parse_line, Unicode.unpack_fields, parse_line,
    unpack_fields.
  rewrite rstrip_code. change Unicode.tab with (N_of_ascii Py.tab).
  rewrite split_code.
  destruct (Py.split Py.tab (Py.rstrip line))
    as [|f1 [|f2 [|f3 [|f4 [|f5 [|f6 fs]]]]]]; try done.
  apply Target_init_code.
Qed.

(** The version of a line is the same in the two embeddings. *)
Lemma literal_code lit s :
  Unicode.literal (Unicode.code_points lit) (Unicode.code_points s)
  = Unicode.code_points <$> literal lit s.
Proof.
  revert s. induction lit as [|c lit IH]; intros s; [done|].
  destruct s as [|d s]; [done|]. simpl.
  rewrite (bool_decide_ext (N_of_ascii c = N_of_ascii d) (c = d));
    [|split; [apply N_of_ascii_inj|by intros ->]].
  case_bool_decide; [apply IH|done].
Qed.

Lemma is_blank_code c : Unicode.is_blank (N_of_ascii c) = is_blank c.
Proof.
  unfold Unicode.is_blank, is_blank. f_equal; apply bool_decide_ext.
  - change Unicode.tab with (N_of_ascii Py.tab).
    split; [apply N_of_ascii_inj|by intros ->].
  - change 32%N with (N_of_ascii " ").
    split; [apply N_of_ascii_inj|by intros ->].
Qed.

Lemma skip_blanks_code s :
  Unicode.skip_blanks (Unicode.code_points s)
  = Unicode.code_points (skip_blanks s).
Proof.
  induction s as [|c s IH]; [done|]. simpl. rewrite is_blank_code.
  by destruct (is_blank c).
Qed.

Lemma blanks1_code s :
  Unicode.blanks1 (Unicode.code_points s)
  = Unicode.code_points <$> blanks1 s.
Proof.
  destruct s as [|c s]; [done|]. simpl. rewrite is_blank_code.
  destruct (is_blank c); [|done]. simpl. by rewrite skip_blanks_code.
Qed.

Lemma ninja_log_match_code line :
  Unicode.ninja_log_match (Unicode.code_points line)
  = Unicode.code_points <$> ninja_log_match line.
Proof.
  unfold Unicode.ninja_log_match, ninja_log_match.
  rewrite literal_code. destruct (literal "#" line) as [s1|]; [|done].
  rewrite !bind_Some_l. cbn [fmap option_fmap option_map]. rewrite bind_Some_l.
  rewrite blanks1_code. destruct (blanks1 s1) as [s2|]; [|done].
  rewrite !bind_Some_l. cbn [fmap option_fmap option_map]. rewrite bind_Some_l.
  rewrite literal_code. destruct (literal "ninja" s2) as [s3|]; [|done].
  rewrite !bind_Some_l. cbn [fmap option_fmap option_map]. rewrite bind_Some_l.
  rewrite blanks1_code. destruct (blanks1 s3) as [s4|]; [|done].
  rewrite !bind_Some_l. cbn [fmap option_fmap option_map]. rewrite bind_Some_l.
  rewrite literal_code. destruct (literal "log" s4) as [s5|]; [|done].
  rewrite !bind_Some_l. cbn [fmap option_fmap option_map]. rewrite bind_Some_l.
  rewrite blanks1_code. destruct (blanks1 s5) as [s6|]; [|done].
  rewrite !bind_Some_l. cbn [fmap option_fmap option_map]. rewrite bind_Some_l.
  rewrite literal_code. destruct (literal "v" s6) as [s7|]; [|done].
  rewrite !bind_Some_l. cbn [fmap option_fmap option_map]. rewrite bind_Some_l.
  destruct s7 as [|c rest]; [done|]. cbn [Unicode.code_points].
  rewrite (bool_decide_ext (is_Some (Unicode.todecimal (N_of_ascii c)))
             (is_Some (Py.digit_value c)));
    [|by rewrite digit_value_code, udigit_value_is_Some].
  by case_bool_decide.
Qed.

Lemma check_version_code line :
  result_code_points id (check_version line)
  = Some (Unicode.check_version (Unicode.code_points line)).
Proof.
  unfold Unicode.check_version, check_version.
  rewrite (bool_decide_ext (Unicode.code_points line ≠ [])
             (line ≠ EmptyString));
    [|by destruct line].
  rewrite (bool_decide_ext
             (head (Unicode.code_points line) = Some (N_of_ascii "#"))
             (String.get 0 line = Some "#"%char)).
  2:{ destruct line as [|c line]; [done|].
      cbn [Unicode.code_points head].
      change (String.get 0 (String c line)) with (Some c). split.
      - intros H. f_equal. apply N_of_ascii_inj. congruence.
      - by intros [= ->]. }
  destruct (_ && _); [done|]. rewrite ninja_log_match_code.
  destruct (ninja_log_match line) as [g|] eqn:Hg; [|done].
  cbn [fmap option_fmap option_map]. rewrite int_full_code.
  apply ninja_log_match_iff in Hg as (c & [d Hd] & _ & ->).
  pose proof (int_digit c d Hd) as Hi. rewrite Hi.
  apply py_int_full in Hi. rewrite Hi.
  unfold allowed_versions. by case_bool_decide.
Qed.
End Latin1.

(** The database of Unicode 14.0 is right below 256. *)
Lemma unicode_14_latin1 : latin1_database unicode_14.
Proof.
  assert (∀ c, (c < 256)%N → ∃ a, c = N_of_ascii a) as Hex.
  { intros c Hc. exists (ascii_of_N c). by rewrite N_ascii_embedding. }
  split; intros c [H1 H2]; destruct (Hex c H2) as [a ->]; revert H1;
    destruct a as [[|] [|] [|] [|] [|] [|] [|] [|]]; vm_compute; done.
Qed.

(** The records and the version of the example log, read as lists of code
    points with the database of Unicode 14.0. *)
Example example_log_code_points :
  Unicode.parse_line (ucd := unicode_14)
    (Unicode.code_points (line_of ["0"; "10"; "0"; "a"; "h1"]))
  = inr (Target_code_points (record 0 10 "a" "h1"))
  ∧ Unicode.check_version (ucd := unicode_14)
      (Unicode.code_points header_v5) = inr (Some 5).
Proof.
  split.
  - apply (inj Some). by rewrite <- (parse_line_code unicode_14_latin1).
  - apply (inj Some). by rewrite <- (check_version_code unicode_14_latin1).
Qed.

(** ** The search for the marker *)

Lemma find_version_found f :
  Exists (λ l, check_version l ≠ inr None) f →
  ∃ n o, (n ≤ length f)%nat
         ∧ ∀ fuel, (n ≤ fuel)%nat → find_version fuel f = Some o.
Proof.
  induction f as [|l f IH]; intros Hex; [by apply Exists_nil in Hex|].
  destruct (check_version l) as [e|[v|]] eqn:Hc.
  - exists 1%nat. destruct e as [good bad|ve|].
    + exists (Exit 1 (VersionError good bad)). split; [simpl; lia|].
      intros [|fuel] Hf; [lia|]. cbn [find_version readline]. by rewrite Hc.
    + exists (Raise (ValueError ve)). split; [simpl; lia|].
      intros [|fuel] Hf; [lia|]. cbn [find_version readline]. by rewrite Hc.
    + exists (Raise IndexError). split; [simpl; lia|].
      intros [|fuel] Hf; [lia|]. cbn [find_version readline]. by rewrite Hc.
  - exists 1%nat, (Return (v, f)). split; [simpl; lia|].
    intros [|fuel] Hf; [lia|]. cbn [find_version readline]. by rewrite Hc.
  - apply Exists_cons in Hex as [Hex|Hex]; [done|].
    destruct (IH Hex) as (n & o & Hn & Hfuel).
    exists (S n), o. split; [simpl; lia|].
    intros [|fuel] Hf; [lia|]. cbn [find_version readline]. rewrite Hc.
    apply Hfuel. lia.
Qed.

(** X8: when some line of the file is a marker line, [read_log] ends: with
    fuel for as many turns of the loop as the file has lines, and with any
    more, it gives one and the same outcome. *)
Theorem read_log_ends_with_marker (f : list string) :
  Exists (λ l, ∃ c, is_Some (Py.digit_value c) ∧ marker_line l c) f →
  ∃ o, ∀ fuel, (length f ≤ fuel)%nat → read_log fuel f = Some o.
Proof.
  intros Hex.
  destruct (find_version_found f) as (n & o & Hn & Hfuel).
  { eapply Exists_impl; [exact Hex|]. simpl.
    intros l (c & [d Hd] & Hm). rewrite (check_version_marker l c d Hm Hd).
    by case_bool_decide. }
  unfold read_log.
  exists (match o with
          | Return (_, f') => body_loop [mkBuild []] f'
          | Raise e => Raise e
          | Exit status e => Exit status e
          end).
  intros fuel Hf. rewrite (Hfuel fuel) by lia. by destruct o as [[v f']|e|st e].
Qed.

Lemma read_log_ends_with_marker_witness :
  ∃ o, ∀ fuel, (length example_log ≤ fuel)%nat →
    read_log fuel example_log = Some o.
Proof.
  apply (read_log_ends_with_marker example_log).
  apply Exists_cons_hd. exists "5"%char. split; [by eexists|].
  exists " ", " ", " ", (String Py.newline EmptyString).
  repeat split; done.
Defined.

(** ** More on the scheduler *)

Section SweepUsed.
Variable ts0 : list Target.
Hypothesis Hfresh : ∀ t, t ∈ ts0 → thread t = None.
Hypothesis Hnn : ∀ t, t ∈ ts0 → 0 ≤ start t.

Lemma sweep_used_step done st r :
  sweep_frame ts0 done st → sweep_used done st →
  (done = [] → st.2 = [0]) →
  r ∉ done → (r < length ts0)%nat →
  sweep_used (done ++ [r]) (sweep_step st r).
Proof.
  destruct st as [heap threads]. intros Hfr Hused Hinit Hr Hlt.
  destruct (sweep_step_cases ts0 Hfresh _ _ _ _ Hfr Hr Hlt)
    as (t0 & k & th' & Ht0 & Hh & -> & Hcase).
  pose proof (Hnn t0 (list_elem_of_lookup_2 _ _ _ Ht0)) as H0.
  destruct Hfr as [Hlen _ _]. simpl in *.
  assert (r < length heap)%nat as Hrl by lia.
  assert (Hmine : ∃ i t, i ∈ done ++ [r]
            ∧ <[r:=set_thread t0 (Z.of_nat k)]> heap !! i = Some t
            ∧ thread t = Some (Z.of_nat k)).
  { exists r, (set_thread t0 (Z.of_nat k)).
    rewrite list_lookup_insert_eq by done.
    repeat split. apply elem_of_snoc. by right. }
  assert (Hkeep : ∀ k',
            (∃ i t, i ∈ done ∧ heap !! i = Some t
                    ∧ thread t = Some (Z.of_nat k')) →
            ∃ i t, i ∈ done ++ [r]
                   ∧ <[r:=set_thread t0 (Z.of_nat k)]> heap !! i = Some t
                   ∧ thread t = Some (Z.of_nat k')).
  { intros k' (i & t & Hi & Hl & Hth). exists i, t.
    assert (i ≠ r) by congruence.
    rewrite list_lookup_insert_ne by done.
    repeat split; [|done..]. apply elem_of_snoc. by left. }
  intros k' Hk'. right. simpl in Hk'.
  destruct Hcase as [(e & He & Hle & ->)|(-> & -> & Hbusy)].
  - rewrite length_insert in Hk'.
    destruct (decide (k' = k)) as [->|Hne]; [done|].
    destruct (Hused k' Hk') as [[-> Hd]|Hocc]; [|by apply Hkeep].
    rewrite (Hinit Hd) in He. apply lookup_lt_Some in He. simpl in He. lia.
  - rewrite length_app in Hk'. simpl in Hk'.
    destruct (decide (k' = length threads)) as [->|Hne]; [done|].
    destruct (Hused k') as [[-> Hd]|Hocc]; [simpl; lia| |by apply Hkeep].
    specialize (Hbusy 0%nat 0). rewrite (Hinit Hd) in Hbusy.
    specialize (Hbusy eq_refl). lia.
Qed.

Lemma sweep_used_final : sweep_used (sorted_refs ts0) (sweep ts0).
Proof.
  unfold sweep.
  apply (foldl_prefix_ind sweep_step
           (λ done st, sweep_frame ts0 done st ∧ sweep_used done st
                       ∧ (done = [] → st.2 = [0]))).
  - split; [|split; [|done]].
    + split; simpl; try done. intros i Hi. by apply elem_of_nil in Hi.
    + intros k Hk. simpl in Hk. left. split; [lia|done].
  - intros pre r suf st Heq (Hfr & Hused & Hinit).
    pose proof (sorted_refs_NoDup ts0) as Hnd. rewrite Heq in Hnd.
    apply NoDup_app in Hnd as (_ & Hnot & _).
    assert (r ∉ pre) as Hr.
    { intros Hin. apply (Hnot r Hin). apply elem_of_cons. by left. }
    assert (r < length ts0)%nat as Hlt.
    { apply sorted_refs_elem. rewrite Heq, elem_of_app, elem_of_cons.
      right. by left. }
    split; [by apply sweep_frame_step|]. split; [by apply sweep_used_step|].
    intros He. by destruct pre.
Qed.
End SweepUsed.

(** X9: when no record starts before 0, the threads given to the records of
    a build are exactly 0, 1, ... up to the number of threads used: none is
    left out. *)
Theorem threads_contiguous (b : Build) :
  unscheduled b → Forall (λ t, 0 ≤ start t) (targets b) →
  ∀ k, (∃ t, t ∈ targets (assign_threads b) ∧ thread t = Some k)
       ↔ 0 ≤ k < Z.of_nat (num_threads (assign_threads b)).
Proof.
  intros Hf Hnn0.
  assert (Hfresh : ∀ t, t ∈ targets b → thread t = None).
  { intros t. by apply unscheduled_elem. }
  assert (Hnn : ∀ t, t ∈ targets b → 0 ≤ start t) by (by apply Forall_forall).
  pose proof (sweep_frame_final (targets b) Hfresh) as [Hlen _ _].
  pose proof (sweep_used_final (targets b) Hfresh Hnn) as Hused.
  pose proof (num_threads_le_length b Hf) as Hle.
  set (d := length (sweep (targets b)).2) in *.
  assert (Ha : ∀ k, (∃ t, t ∈ targets (assign_threads b) ∧ thread t = Some k) →
            ∃ k', k = Z.of_nat k' ∧ (k' < d)%nat).
  { intros k (t & Ht & Hth). apply list_elem_of_lookup_1 in Ht as [i Hi].
    simpl in Hi.
    destruct (lookup_lt_is_Some_2 (targets b) i) as [t0 Ht0].
    { rewrite <- Hlen. by eapply lookup_lt_Some. }
    destruct (sweep_lookup (targets b) Hfresh i t0 Ht0) as (k' & Hres & Hk').
    rewrite Hi in Hres. injection Hres as ->. simpl in Hth.
    injection Hth as <-. by exists k'. }
  assert (Hb : targets b ≠ [] → ∀ k', (k' < d)%nat →
            ∃ t, t ∈ targets (assign_threads b)
                 ∧ thread t = Some (Z.of_nat k')).
  { intros Hne k' Hk'. destruct (Hused k' Hk') as [[_ He]|(i & t & _ & Hi & Hth)].
    - exfalso. apply Hne, length_zero_iff_nil.
      pose proof (sorted_refs_perm (targets b)) as Hp. rewrite He in Hp.
      apply Permutation_length in Hp. rewrite length_seq in Hp. done.
    - exists t. split; [|done]. by eapply list_elem_of_lookup_2. }
  destruct (decide (targets b = [])) as [He|Hne].
  - intros k. split.
    + intros (t & Ht & _). simpl in Ht. rewrite He in Ht.
      by apply elem_of_nil in Ht.
    + intros Hk. exfalso.
      assert (num_threads (assign_threads b) = 0%nat); [|lia].
      unfold num_threads. simpl. by rewrite He.
  - assert (num_threads (assign_threads b) = d) as Hd.
    { apply Nat.le_antisymm; [done|]. unfold num_threads.
      trans (length (Z.of_nat <$> seq 0 d)); [by rewrite length_fmap, length_seq|].
      apply submseteq_length, NoDup_submseteq.
      - apply NoDup_fmap_2_strong; [|apply NoDup_seq]. intros; lia.
      - intros k Hk. apply list_elem_of_fmap in Hk as (k' & -> & Hk').
        apply elem_of_seq in Hk'.
        destruct (Hb Hne k') as (t & Ht & Hth); [lia|].
        apply elem_of_remove_dups, list_elem_of_omap. by exists t. }
    intros k. rewrite Hd. split.
    + intros Hk. destruct (Ha k Hk) as (k' & -> & Hk'). lia.
    + intros Hk. destruct (Hb Hne (Z.to_nat k)) as (t & Ht & Hth); [lia|].
      exists t. split; [done|]. rewrite Hth. f_equal. lia.
Qed.

Lemma threads_contiguous_witness :
  unscheduled build_abc
  ∧ ∀ k, (∃ t, t ∈ targets (assign_threads build_abc) ∧ thread t = Some k)
         ↔ 0 ≤ k < Z.of_nat (num_threads (assign_threads build_abc)).
Proof.
  split; [repeat constructor|].
  apply (threads_contiguous build_abc).
  - repeat constructor.
  - repeat constructor; simpl; lia.
Defined.

Lemma Target_contains_conflict a b :
  Target_contains a b = true → start a ≤ end_ a → ¬ non_conflicting a b.
Proof.
  unfold Target_contains, non_conflicting.
  rewrite orb_true_iff, !andb_true_iff, !Z.ltb_lt. lia.
Qed.

(** X10: after [assign_threads] on a build whose records have
    [start <= end], no record overlaps, in the sense of
    [Target.__contains__], another record that has the same thread. *)
Theorem assign_threads_no_contains (b : Build) :
  unscheduled b → Forall (λ t, start t ≤ end_ t) (targets b) →
  ∀ i j ti tj, i ≠ j →
    targets (assign_threads b) !! i = Some ti →
    targets (assign_threads b) !! j = Some tj →
    thread ti = thread tj →
    Target_contains ti tj = false.
Proof.
  intros Hf Hd i j ti tj Hne Hi Hj Hth.
  assert (Hfresh : ∀ t, t ∈ targets b → thread t = None).
  { intros t. by apply unscheduled_elem. }
  assert (Hdur : ∀ t, t ∈ targets b → start t ≤ end_ t).
  { by apply Forall_forall. }
  destruct (sweep_sep_final (targets b) Hfresh Hdur) as [_ Hpair].
  destruct (sweep_frame_final (targets b) Hfresh) as [Hlen _ _].
  simpl in Hi, Hj.
  assert (i < length (targets b))%nat as Hil.
  { rewrite <- Hlen. by eapply lookup_lt_Some. }
  assert (j < length (targets b))%nat as Hjl.
  { rewrite <- Hlen. by eapply lookup_lt_Some. }
  assert (non_conflicting ti tj) as Hnc.
  { apply (Hpair i j); try done; by apply sorted_refs_elem. }
  destruct (lookup_lt_is_Some_2 _ _ Hil) as [t0 Ht0].
  destruct (sweep_lookup (targets b) Hfresh i t0 Ht0) as (k & Hres & _).
  rewrite Hi in Hres. injection Hres as ->.
  destruct (Target_contains (set_thread t0 (Z.of_nat k)) tj) eqn:Hc; [|done].
  destruct (Target_contains_conflict _ _ Hc); [|done]. simpl.
  apply Hdur. by eapply list_elem_of_lookup_2.
Qed.

Lemma assign_threads_no_contains_witness :
  Target_contains (mkTarget 0 10 "a" "h1" (Some 0))
                  (mkTarget 10 12 "c" "h3" (Some 0)) = false.
Proof.
  apply (assign_threads_no_contains build_abc) with (i := 0%nat) (j := 2%nat).
  - repeat constructor.
  - repeat constructor; simpl; lia.
  - lia.
  - reflexivity.
  - reflexivity.
  - reflexivity.
Defined.

(** X11: [Target.__contains__] answers [True] only when the two intervals
    do conflict (for a [self] with [start <= end]), but it misses the case
    in which [self] covers [other] from start to end: in particular two
    records with the same interval, and a record with itself. *)
Theorem Target_contains_misses_cover :
  (∀ a b, Target_contains a b = true → start a ≤ end_ a →
          ¬ non_conflicting a b)
  ∧ (∀ a b, start a ≤ start b → end_ b ≤ end_ a →
            Target_contains a b = false)
  ∧ (∀ a, Target_contains a a = false).
Proof.
  split; [exact Target_contains_conflict|].
  assert (∀ a b, start a ≤ start b → end_ b ≤ end_ a →
                 Target_contains a b = false) as Hcover.
  { intros a b Hs He. unfold Target_contains.
    rewrite orb_false_iff, !andb_false_iff, !Z.ltb_ge. lia. }
  split; [done|]. intros a. apply Hcover; lia.
Qed.

Lemma Target_contains_misses_cover_witness :
  Target_contains (record 0 10 "a" "h1") (record 2 8 "b" "h2") = false
  ∧ Target_contains (record 2 8 "b" "h2") (record 0 10 "a" "h1") = true.
Proof.
  split; [|reflexivity].
  apply (proj1 (proj2 Target_contains_misses_cover)); simpl; lia.
Defined.

(** ** The fields of a record *)

Lemma rstrip_no_trailing s : ends_with_space (Py.rstrip s) = false.
Proof.
  induction s as [|c s IH]; [done|]. simpl.
  destruct (Py.rstrip s) as [|c' r] eqn:Hr.
  - destruct (Py.isspace c) eqn:Hc; [done|]. simpl. done.
  - done.
Qed.

Lemma ends_with_space_cons c s :
  s ≠ EmptyString → ends_with_space (String c s) = ends_with_space s.
Proof. by destruct s. Qed.

Lemma append_not_empty a b : b ≠ EmptyString → a +:+ b ≠ EmptyString.
Proof. destruct a; [by rewrite append_nil|by rewrite append_cons]. Qed.

Lemma ends_with_space_app a b :
  b ≠ EmptyString → ends_with_space (a +:+ b) = ends_with_space b.
Proof.
  intros Hb. induction a as [|c a IH]; [done|].
  rewrite append_cons, ends_with_space_cons; [done|].
  by apply append_not_empty.
Qed.

(** The last of several fields joined by tabs is empty only if the whole
    ends with a tab. *)
Lemma join_last_field f1 f2 f3 f4 f5 :
  ends_with_space (Py.join Py.tab [f1; f2; f3; f4; f5])
  = if bool_decide (f5 = EmptyString) then true else ends_with_space f5.
Proof.
  assert (∀ a b, ends_with_space (a +:+ String Py.tab b)
                 = if bool_decide (b = EmptyString) then true
                   else ends_with_space b) as Hstep.
  { intros a b. rewrite ends_with_space_app by done.
    destruct b; [done|]. by rewrite bool_decide_eq_false_2. }
  rewrite !join_cons_cons. cbn [Py.join].
  rewrite Hstep.
  rewrite (bool_decide_eq_false_2 (_ +:+ _ = EmptyString))
    by (by apply append_not_empty).
  rewrite Hstep.
  rewrite (bool_decide_eq_false_2 (_ +:+ _ = EmptyString))
    by (by apply append_not_empty).
  rewrite Hstep.
  rewrite (bool_decide_eq_false_2 (_ +:+ _ = EmptyString))
    by (by apply append_not_empty).
  by rewrite Hstep.
Qed.

(** X12: every record read from a line has a hash that is not empty and
    does not end with whitespace, and neither its name nor its hash holds a
    tab. *)
Theorem parse_line_hash (line : string) (t : Target) :
  parse_line line = inr t →
  hash t ≠ EmptyString ∧ ends_with_space (hash t) = false
  ∧ has_char Py.tab (name t) = false ∧ has_char Py.tab (hash t) = false.
Proof.
  intros Hp.
  apply parse_line_inr_iff in Hp
    as (f1 & f2 & f3 & f4 & f5 & [Hj Hall] & _ & _ & -> & -> & _).
  pose proof (rstrip_no_trailing line) as Hr.
  rewrite Hj, join_last_field in Hr.
  case_bool_decide as He; [done|].
  do 2 (split; [done|]).
  inversion Hall as [|? ? _ H2]; subst. inversion H2 as [|? ? _ H3]; subst.
  inversion H3 as [|? ? _ H4]; subst. inversion H4 as [|? ? Hn H5]; subst.
  by inversion H5.
Qed.

Lemma parse_line_hash_witness :
  hash (record 7 10 "foo" "abc") ≠ EmptyString
  ∧ ends_with_space (hash (record 7 10 "foo" "abc")) = false
  ∧ has_char Py.tab (name (record 7 10 "foo" "abc")) = false
  ∧ has_char Py.tab (hash (record 7 10 "foo" "abc")) = false.
Proof.
  apply (parse_line_hash (line_of ["7"; "10"; "0"; "foo"; "abc"])).
  reflexivity.
Defined.

(** ** Iterating a build *)

Lemma for_in_drop b n current :
  (current ≤ length (targets b))%nat →
  (length (targets b) - current < n)%nat →
  for_in n b current
  = Some (drop current (targets b), length (targets b)).
Proof.
  revert current. induction n as [|n IH]; intros current Hc Hn; [lia|].
  cbn [for_in]. unfold Build_next.
  destruct (decide (current < length (targets b))%nat) as [Hlt|Hge].
  - rewrite bool_decide_eq_true_2 by done.
    destruct (lookup_lt_is_Some_2 _ _ Hlt) as [x Hx]. rewrite Hx.
    rewrite IH by lia. by rewrite (drop_S _ _ _ Hx).
  - rewrite bool_decide_eq_false_2 by done.
    assert (current = length (targets b)) as -> by lia.
    by rewrite drop_all.
Qed.

(** X13: a [for] loop over a build, from [__iter__] on, gets the targets of
    the build, each once and in their order, and then [StopIteration]; it
    takes one call of [__next__] more than there are targets, and every
    later call raises [StopIteration] again. *)
Theorem for_in_targets (b : Build) (n : nat) :
  (length (targets b) < n)%nat →
  for_in n b (Build_iter b) = Some (targets b, length (targets b))
  ∧ Build_next b (length (targets b)) = (None, length (targets b)).
Proof.
  intros Hn. split.
  - rewrite for_in_drop; [done|unfold Build_iter; lia..].
  - unfold Build_next. by rewrite bool_decide_eq_false_2 by lia.
Qed.

Lemma for_in_targets_witness :
  for_in 4 build_abc (Build_iter build_abc) = Some (targets build_abc, 3%nat)
  ∧ Build_next build_abc 3 = (None, 3%nat).
Proof. apply (for_in_targets build_abc 4). simpl. lia. Defined.

(** ** The rows of the trace *)

Lemma join_imap_lookup_inv {A B} (g : nat → A → list B) (w : A → nat)
    (l : list A) (n : nat) (y : B) :
  (∀ q x, x ∈ l → length (g q x) = w x) →
  mjoin (imap g l) !! n = Some y →
  ∃ p a i, l !! p = Some a ∧ g p a !! i = Some y
           ∧ n = (sum_list (w <$> take p l) + i)%nat.
Proof.
  revert g n. induction l as [|a0 l IH]; intros g n Hw Hn; [done|].
  rewrite imap_cons in Hn. simpl in Hn.
  apply lookup_app_Some in Hn as [Hn|[Hle Hn]].
  - exists 0%nat, a0, n. by repeat split.
  - rewrite (Hw 0%nat a0) in Hle, Hn by apply list_elem_of_here.
    destruct (IH (g ∘ S) _ ltac:(intros q x Hx; apply Hw;
                                 by apply list_elem_of_further) Hn)
      as (p & a & i & Hp & Hi & Heq).
    exists (S p), a, i. split; [done|]. split; [done|].
    change (sum_list (w <$> take (S p) (a0 :: l)))
      with (w a0 + sum_list (w <$> take p l))%nat.
    lia.
Qed.

Lemma trace_events_lookup_inv (builds : list Build) (n : nat) (e : Event) :
  Forall unscheduled builds →
  trace_events builds !! n = Some e →
  ∃ p b i t,
    builds !! p = Some b ∧ targets (assign_threads b) !! i = Some t
    ∧ e = target_to_dict t (Z.of_nat p)
    ∧ n = (records_before builds p + i)%nat.
Proof.
  intros Hun Hn. rewrite Forall_forall in Hun.
  unfold trace_events in Hn.
  apply (join_imap_lookup_inv _ (λ b, length (targets b))) in Hn
    as (p & b & i & Hp & Hi & ->).
  - apply list_lookup_fmap_Some in Hi as (t & -> & Hi).
    by exists p, b, i, t.
  - intros q b Hb. rewrite length_fmap.
    by apply assign_threads_frame_length, Hun.
Qed.

(** X14: in the events of a log whose records all have [start <= end], two
    distinct events with the same [pid] and the same [tid] never overlap:
    one is over, at [ts + dur], when the other starts. *)
Theorem trace_rows_apart (fuel : nat) (f : list string)
    (builds : list Build) :
  read_log fuel f = Some (Return builds) →
  Forall (λ t, start t ≤ end_ t) (flatten builds) →
  ∀ n m e1 e2, n ≠ m →
    trace_events builds !! n = Some e1 →
    trace_events builds !! m = Some e2 →
    ev_pid e1 = ev_pid e2 → ev_tid e1 = ev_tid e2 →
    events_apart e1 e2.
Proof.
  intros Hr Hd n m e1 e2 Hnm H1 H2 Hpid Htid.
  pose proof (read_log_unscheduled _ _ _ Hr) as Hun.
  destruct (trace_events_lookup_inv _ _ _ Hun H1)
    as (p1 & b1 & i1 & t1 & Hb1 & Ht1 & -> & ->).
  destruct (trace_events_lookup_inv _ _ _ Hun H2)
    as (p2 & b2 & i2 & t2 & Hb2 & Ht2 & -> & ->).
  simpl in Hpid, Htid. apply Nat2Z.inj in Hpid as <-.
  rewrite Hb1 in Hb2. injection Hb2 as <-.
  assert (i1 ≠ i2) as Hne by (intros ->; done).
  assert (b1 ∈ builds) as Hin by (by eapply list_elem_of_lookup_2).
  rewrite Forall_forall in Hun.
  assert (Hfresh : ∀ t, t ∈ targets b1 → thread t = None).
  { intros t. by apply unscheduled_elem, Hun. }
  assert (Hdur : ∀ t, t ∈ targets b1 → start t ≤ end_ t).
  { intros t Ht. rewrite Forall_forall in Hd. apply Hd.
    apply list_elem_of_join. exists (targets b1). split; [done|].
    by apply list_elem_of_fmap_2. }
  destruct (sweep_sep_final (targets b1) Hfresh Hdur) as [_ Hpair].
  destruct (sweep_frame_final (targets b1) Hfresh) as [Hlen _ _].
  simpl in Ht1, Ht2.
  assert (non_conflicting t1 t2) as Hnc.
  { apply (Hpair i1 i2); try done; apply sorted_refs_elem; rewrite <- Hlen;
      by eapply lookup_lt_Some. }
  unfold events_apart, non_conflicting in *. simpl. unfold period. lia.
Qed.

Lemma trace_rows_apart_witness :
  events_apart (event_of (record 0 10 "a" "h1") 0 0)
               (event_of (record 10 12 "c" "h3") 0 0).
Proof.
  apply (trace_rows_apart 1
           [header_v5; line_of ["0"; "10"; "0"; "a"; "h1"];
            line_of ["10"; "12"; "0"; "c"; "h3"]]
           [mkBuild [record 0 10 "a" "h1"; record 10 12 "c" "h3"]])
    with (n := 0%nat) (m := 1%nat).
  - reflexivity.
  - repeat constructor; simpl; lia.
  - lia.
  - reflexivity.
  - reflexivity.
  - reflexivity.
  - reflexivity.
Defined.

(** ** Scheduling a build again *)

Lemma py_sorted_ext {A} (key key' : A → Z) (l : list A) :
  (∀ x, key x = key' x) → py_sorted key l = py_sorted key' l.
Proof.
  intros Hk. induction l as [|x l IH]; [done|]. simpl. rewrite IH.
  generalize (py_sorted key' l). intros l'.
  induction l' as [|y l' IH']; [done|]. simpl. by rewrite !Hk, IH'.
Qed.

Lemma sweep_step_other st r i :
  i ≠ r → (sweep_step st r).1 !! i = st.1 !! i.
Proof.
  intros Hne. destruct st as [heap threads]. unfold sweep_step.
  destruct (heap !! r) as [t|]; [|done].
  destruct (list_find _ threads) as [[k e]|]; simpl.
  - by rewrite list_lookup_insert_ne.
  - destruct (thread t); simpl; [done|]. by rewrite list_lookup_insert_ne.
Qed.

Lemma foldl_sweep_other st refs i :
  i ∉ refs → (foldl sweep_step st refs).1 !! i = st.1 !! i.
Proof.
  revert st. induction refs as [|r refs IH]; intros st Hi; [done|].
  simpl. rewrite IH by (intros ?; apply Hi; by apply list_elem_of_further).
  apply sweep_step_other. intros ->. apply Hi, list_elem_of_here.
Qed.

(** The turn of a record without thread, seen from thread 0. *)
Lemma sweep_step_head heap x rest r t0 :
  heap !! r = Some t0 → thread t0 = None →
  ∃ k th',
    sweep_step (heap, x :: rest) r
      = (<[r := set_thread t0 (Z.of_nat k)]> heap, th')
    ∧ ((x ≤ start t0 ∧ k = 0%nat ∧ th' = end_ t0 :: rest)
       ∨ (start t0 < x ∧ hd 0 th' = x)).
Proof.
  intros Hr Hth. unfold sweep_step. rewrite Hr. cbn [list_find].
  destruct (decide (x ≤ start t0)) as [Hle|Hgt].
  - exists 0%nat, (end_ t0 :: rest). split; [done|]. by left.
  - destruct (list_find _ rest) as [[k e]|]; simpl.
    + exists (S k), (x :: <[k:=end_ t0]> rest). split; [done|].
      right. split; [lia|done].
    + rewrite Hth. exists (S (length rest)), (x :: rest ++ [end_ t0]).
      split; [done|]. right. split; [lia|done].
Qed.

(** The turn of a record that has its thread already, with thread 0 as
    the only thread. *)
Lemma sweep_step_again heap x r t k :
  heap !! r = Some t → thread t = Some k →
  sweep_step (heap, [x]) r
  = if decide (x ≤ start t) then (<[r := set_thread t 0]> heap, [end_ t])
    else (heap, [x]).
Proof.
  intros Hr Hth. unfold sweep_step. rewrite Hr. cbn [list_find].
  destruct (decide (x ≤ start t)); [done|]. simpl. by rewrite Hth.
Qed.

Section SweepAgain.
Variable ts0 : list Target.
Hypothesis Hfresh : ∀ t, t ∈ ts0 → thread t = None.

Lemma sweep_frame_prefix pre suf :
  sorted_refs ts0 = pre ++ suf →
  sweep_frame ts0 pre (foldl sweep_step (ts0, [0]) pre).
Proof.
  intros Heq.
  apply (foldl_prefix_ind sweep_step (sweep_frame ts0)).
  - split; simpl; [done|done|]. intros i Hi. by apply elem_of_nil in Hi.
  - intros pre' r suf' st Hpre Hinv.
    pose proof (sorted_refs_NoDup ts0) as Hnd.
    rewrite Heq, Hpre, <- app_assoc in Hnd.
    apply NoDup_app in Hnd as (_ & Hnot & _).
    apply (sweep_frame_step ts0 Hfresh); [done| |].
    + intros Hin. apply (Hnot r Hin). apply elem_of_cons. by left.
    + apply sorted_refs_elem. rewrite Heq, Hpre, !elem_of_app, elem_of_cons.
      left. right. by left.
Qed.

Lemma sweep_threads_nonempty refs st :
  st.2 ≠ [] → (foldl sweep_step st refs).2 ≠ [].
Proof.
  revert st. induction refs as [|r refs IH]; intros st Hst; [done|].
  simpl. apply IH. destruct st as [heap threads]. unfold sweep_step.
  destruct (heap !! r) as [t|]; [|done].
  destruct (list_find _ threads) as [[k e]|]; simpl in *.
  - intros He. apply (f_equal length) in He. rewrite length_insert in He.
    by destruct threads.
  - destruct (thread t); simpl; [done|]. by destruct threads.
Qed.

(** On the build already scheduled the sweep changes no record, and its
    single thread follows thread 0 of the first sweep. *)
Lemma sweep_again :
  foldl sweep_step ((sweep ts0).1, [0]) (sorted_refs ts0)
  = ((sweep ts0).1, [hd 0 (sweep ts0).2]).
Proof.
  set (F := (sweep ts0).1).
  enough (foldl sweep_step (F, [0]) (sorted_refs ts0)
          = (F, [hd 0 (foldl sweep_step (ts0, [0]) (sorted_refs ts0)).2]))
    by done.
  apply (foldl_prefix_ind sweep_step
           (λ pre st, st = (F, [hd 0 (foldl sweep_step (ts0, [0]) pre).2]))).
  { done. }
  intros pre r suf st Heq ->. rewrite foldl_snoc.
  pose proof (sweep_frame_prefix pre (r :: suf) Heq) as Hfr.
  pose proof (sweep_threads_nonempty pre (ts0, [0]) ltac:(done)) as Hne.
  pose proof (sorted_refs_NoDup ts0) as Hnd. rewrite Heq in Hnd.
  apply NoDup_app in Hnd as (_ & Hnot & Hnd).
  apply NoDup_cons in Hnd as [Hrsuf _].
  assert (r ∉ pre) as Hr.
  { intros Hin. apply (Hnot r Hin). apply elem_of_cons. by left. }
  assert (r < length ts0)%nat as Hlt.
  { apply sorted_refs_elem. rewrite Heq, elem_of_app, elem_of_cons.
    right. by left. }
  destruct (foldl sweep_step (ts0, [0]) pre) as [heap1 threads1] eqn:Hrun.
  destruct threads1 as [|x rest]; [by destruct Hne|]. cbn [fst snd hd] in *.
  destruct Hfr as [Hlen Htodo _]. cbn [fst snd] in *.
  destruct (lookup_lt_is_Some_2 ts0 r Hlt) as [t0 Ht0].
  assert (heap1 !! r = Some t0) as Hh by (by rewrite Htodo).
  assert (thread t0 = None) as Hth.
  { apply Hfresh. by eapply list_elem_of_lookup_2. }
  destruct (sweep_step_head heap1 x rest r t0 Hh Hth) as (k & th' & Hstep & Hk).
  assert (F !! r = Some (set_thread t0 (Z.of_nat k))) as HF.
  { unfold F, sweep. rewrite Heq, foldl_app. cbn [foldl]. rewrite Hrun.
    rewrite foldl_sweep_other by done. rewrite Hstep. simpl.
    apply list_lookup_insert_eq. lia. }
  rewrite (sweep_step_again F x r _ _ HF eq_refl). rewrite Hstep.
  cbn [fst snd start end_ set_thread].
  destruct Hk as [(Hle & -> & ->)|(Hgt & Hhd)].
  - rewrite decide_True by done. cbn [hd]. f_equal.
    by apply list_insert_id.
  - rewrite decide_False by lia. by rewrite Hhd.
Qed.
End SweepAgain.

(** X15: scheduling a build a second time changes nothing: every record
    keeps the thread it got the first time. *)
Theorem assign_threads_idempotent (b : Build) :
  unscheduled b →
  assign_threads (assign_threads b) = assign_threads b.
Proof.
  intros Hf.
  assert (Hfresh : ∀ t, t ∈ targets b → thread t = None).
  { intros t. by apply unscheduled_elem. }
  pose proof (assign_threads_frame_length b Hf) as Hlen. simpl in Hlen.
  assert (sorted_refs (sweep (targets b)).1 = sorted_refs (targets b))
    as Hrefs.
  { unfold sorted_refs. rewrite Hlen.
    apply py_sorted_ext. intros i. unfold start_of.
    destruct (targets b !! i) as [t0|] eqn:Hi.
    - destruct (sweep_lookup _ Hfresh i t0 Hi) as (k & Hk & _).
      by rewrite Hk.
    - assert ((sweep (targets b)).1 !! i = None) as ->; [|done].
      apply lookup_ge_None. apply lookup_ge_None in Hi. by rewrite Hlen. }
  unfold assign_threads at 1. f_equal. cbn [targets assign_threads].
  unfold sweep at 1. rewrite Hrefs.
  by rewrite (sweep_again (targets b) Hfresh).
Qed.

Lemma assign_threads_idempotent_witness :
  assign_threads (assign_threads build_abc) = assign_threads build_abc.
Proof. apply (assign_threads_idempotent build_abc). repeat constructor. Defined.

(** ** Builds that are closed *)

Lemma segment_step_keeps builds t :
  is_Some (last builds) →
  ∃ later, later ≠ []
           ∧ segment_step builds t = removelast builds ++ later.
Proof.
  intros [cb Hl].
  destruct (segment_step_cases builds cb t Hl) as [[_ ->]|[_ ->]].
  - apply last_Some in Hl as [l' ->]. rewrite removelast_last.
    exists [cb; mkBuild [t]]. split; [done|]. by rewrite <- app_assoc.
  - by exists [add_target cb t].
Qed.

Lemma removelast_app_ne {A} (l k : list A) :
  k ≠ [] → removelast (l ++ k) = l ++ removelast k.
Proof. intros Hk. by apply removelast_app. Qed.

Lemma foldl_segment_keeps builds rs :
  is_Some (last builds) →
  ∃ later, later ≠ []
           ∧ foldl segment_step builds rs = removelast builds ++ later.
Proof.
  revert builds. induction rs as [|r rs IH]; intros builds Hl.
  - destruct Hl as [cb Hl]. apply last_Some in Hl as [l' ->].
    rewrite removelast_last. by exists [cb].
  - simpl. destruct (segment_step_keeps builds r Hl) as (k1 & Hk1 & Hs).
    destruct (IH (segment_step builds r) (segment_step_last _ _ Hl))
      as (k2 & Hk2 & ->).
    rewrite Hs, removelast_app_ne by done.
    exists (removelast k1 ++ k2). split; [|by rewrite app_assoc].
    intros He. apply app_eq_nil in He as [_ ->]. done.
Qed.

(** X16: records that come later change only the last build: all the
    builds but the last, as they are after some records, are still the
    first builds after any further records. *)
Theorem segment_closed_builds_stay (rs rs' : list Target) :
  ∃ later, later ≠ []
           ∧ segment (rs ++ rs') = removelast (segment rs) ++ later.
Proof.
  unfold segment. rewrite foldl_app.
  apply foldl_segment_keeps, foldl_segment_last. by eexists.
Qed.
